(** * Telekinesis client core: Connection / Session / Channel

    A shallow embedding of [src/python/telekinesis/client.py] and the
    properties of its replay cache, send/ack/retry machinery, token-chain
    validation and chunking pipeline.

    Conventions.
    - Python [int] is [Z]; list positions, [enumerate] indices and the
      (unsigned) delegation depths of tokens are [nat].
    - Python [bytes] is [list byte]; a slice [b[i:j]] is [take (j-i) (drop i b)].
    - [dict] / [set] are stdpp [gmap] / [gset]; the insertion-ordered
      [OrderedDict] of [Connection.awaiting_ack] is an association list.
    - A raised exception is a value of [exn] in the [Raise] branch of
      [result].
    - [time.time()] is an explicit argument: [now], a reading on a whole
      second, or the float reading as a rational where the fraction
      matters ([encode_at]).
    - What the interpreter and the event loop add to the text of the code
      is explicit as well: the room under the recursion limit
      ([encrypt_slice_nested]) and a wait that never ends ([send_paced]).
    - Collaborators that live outside [client.py] (signing, AEAD, zlib,
      bson, ujson, [Token.decode]) are the fields of the class
      [Collaborators]; what a proof needs of them is a hypothesis of the
      theorem.

    The first part is the model, the second part the properties. *)

From Stdlib Require Import ZArith NArith QArith Lia.
From Stdlib Require Import Strings.Byte.
From stdpp Require Import gmap strings list fin_maps.

Close Scope Q_scope.
Local Open Scope Z_scope.

Set Warnings "-clear-no-such-hyp".

(** ** Bytes *)

Abbreviation bytes := (list byte).

#[global] Instance byte_eq_dec : EqDecision byte := Byte.byte_eq_dec.

#[global] Instance byte_countable : Countable byte :=
  inj_countable Byte.to_N Byte.of_N Byte.of_to_N.

Definition byte_to_Z (b : byte) : Z := Z.of_N (Byte.to_N b).

Definition byte_of_Z (v : Z) : byte :=
  match Byte.of_N (Z.to_N (v mod 256)) with
  | Some b => b
  | None => x00
  end.

(** Exceptions the modelled code can raise. *)
Inductive exn :=
  | OverflowError
  | KeyError
  | RuntimeError
  | IndexError
  | RecursionError
  | InvalidSignature
  | Exception (msg : string).

Inductive result (A : Type) :=
  | Ok (a : A)
  | Raise (e : exn).
Arguments Ok {A} a.
Arguments Raise {A} e.

#[global] Instance result_ret : MRet result := λ A a, Ok a.

#[global] Instance result_bind : MBind result := λ A B k r,
  match r with
  | Ok a => k a
  | Raise e => Raise e
  end.

(** [be_digits len v]: the [len] low base-256 digits of [v], most
    significant first. *)
Fixpoint be_digits (len : nat) (v : Z) : bytes :=
  match len with
  | O => []
  | S k => be_digits k (v / 256) ++ [byte_of_Z (v mod 256)]
  end.

(** [int.to_bytes(len, 'big')]: raises [OverflowError] on a negative value
    or one that does not fit. *)
Definition to_bytes (v : Z) (len : nat) : result bytes :=
  if bool_decide (0 ≤ v < 256 ^ Z.of_nat len)
  then Ok (be_digits len v)
  else Raise OverflowError.

(** [int.from_bytes(b, 'big')]. *)
Definition from_bytes (b : bytes) : Z :=
  fold_left (λ acc x, acc * 256 + byte_to_Z x) b 0.

(** [b[i:j]] for [0 <= i <= j]. *)
Definition slice (i j : nat) (b : bytes) : bytes := take (j - i) (drop i b).

(** ** Session.seen_messages and Session.check_no_repeat *)

(** [self.seen_messages = (set(), set(), 0)]: a tuple, so its third
    component is fixed when the session is created; the two sets are
    mutated in place. *)
Record SeenMessages := {
  bucket0 : gset bytes;
  bucket1 : gset bytes;
  idx2 : Z
}.

Definition seen_messages_init : SeenMessages :=
  {| bucket0 := ∅; bucket1 := ∅; idx2 := 0 |}.

(** [self.seen_messages[lead].clear()] *)
Definition clear_bucket (lead : Z) (s : SeenMessages) : SeenMessages :=
  if bool_decide (lead = 0)
  then {| bucket0 := ∅; bucket1 := bucket1 s; idx2 := idx2 s |}
  else {| bucket0 := bucket0 s; bucket1 := ∅; idx2 := idx2 s |}.

(** [self.seen_messages[lead].add(signature)] *)
Definition add_bucket (lead : Z) (sig : bytes) (s : SeenMessages) : SeenMessages :=
  if bool_decide (lead = 0)
  then {| bucket0 := {[sig]} ∪ bucket0 s; bucket1 := bucket1 s; idx2 := idx2 s |}
  else {| bucket0 := bucket0 s; bucket1 := {[sig]} ∪ bucket1 s; idx2 := idx2 s |}.

Definition check_no_repeat (now : Z) (signature : bytes) (timestamp : Z)
    (s : SeenMessages) : bool * SeenMessages :=
  let lead := (now / 60) mod 2 in
  let s1 := if bool_decide (idx2 s ≠ lead) then clear_bucket lead s else s in
  if bool_decide (now - 60 ≤ timestamp ≤ now) then
    if bool_decide (signature ∉ bucket0 s1 ∪ bucket1 s1)
    then (true, add_bucket lead signature s1)
    else (false, s1)
  else (false, s1).

(** A call of [check_no_repeat] as [recv] makes it: at time [call_now], for
    a frame with the given signature and (offset-corrected) timestamp. *)
Record Call := {
  call_now : Z;
  call_sig : bytes;
  call_ts : Z
}.

(** States of the replay cache reachable from a fresh session by a
    sequence of calls. *)
Inductive reachable : SeenMessages → Prop :=
  | reachable_init : reachable seen_messages_init
  | reachable_step c s :
      reachable s →
      reachable (check_no_repeat (call_now c) (call_sig c) (call_ts c) s).2.

(** Run a list of calls, oldest first, and collect the answers. *)
Fixpoint run_calls (cs : list Call) (s : SeenMessages) : list bool * SeenMessages :=
  match cs with
  | [] => ([], s)
  | c :: cs' =>
      let '(b, s1) := check_no_repeat (call_now c) (call_sig c) (call_ts c) s in
      let '(bs, s2) := run_calls cs' s1 in
      (b :: bs, s2)
  end.

(** ** Routes, headers and tokens *)

Module Route.
Record t := mk {
  brokers : list string;
  session : string;
  channel : string;
  tokens : list string
}.
End Route.

#[global] Instance route_eq_dec : EqDecision Route.t.
Proof. solve_decision. Defined.

(** One [(action, content)] pair of a frame header. *)
Inductive HeaderItem :=
  | HSend (source destination : Route.t)
  | HListen (route : Route.t) (is_public : bool)
  | HTokenIssue (token : string) (prev_token : option string)
  | HTokenRevoke (token_id : bytes)
  | HClose (route : Route.t).

#[global] Instance header_item_eq_dec : EqDecision HeaderItem.
Proof. solve_decision. Defined.

Abbreviation Header := (list HeaderItem).

Definition action (item : HeaderItem) : string :=
  match item with
  | HSend _ _ => "send"
  | HListen _ _ => "listen"
  | HTokenIssue _ _ | HTokenRevoke _ => "token"
  | HClose _ => "close"
  end.

(** A token's asset is a channel id (root token) or the signature of the
    token it extends. *)
Inductive Asset :=
  | AChannel (channel_id : string)
  | ASignature (sig : bytes).

#[global] Instance asset_eq_dec : EqDecision Asset.
Proof. solve_decision. Defined.

Inductive TokenType := root | extension.

Module Token.
Record t := mk {
  issuer : string;
  brokers : list string;
  receiver : string;
  asset : Asset;
  token_type : TokenType;
  max_depth : option nat;
  signature : bytes
}.
End Token.

(** ** Collaborators outside [client.py]

    [sign pk m] is [PrivateKey.sign] for the key whose public serial is
    [pk]; [verify pk s m] is [PublicKey(pk).verify(s, m)] ([false] when it
    raises [InvalidSignature]). [encrypt own peer] / [decrypt own peer] are
    the operations of [SharedKey(own private key, PublicKey(peer))].
    [Token_decode] is [Token.decode] with signature check, [None] when it
    raises [InvalidSignature]. *)
Class Collaborators := {
  Obj : Type;
  sign : string → bytes → bytes;
  verify : string → bytes → bytes → bool;
  encrypt : string → string → bytes → bytes → bytes;
  decrypt : string → string → bytes → bytes → result bytes;
  zlib_compress : bytes → bytes;
  zlib_decompress : bytes → result bytes;
  bson_loads : bytes → result Obj;
  ujson_dumps : Header → bytes;
  ujson_loads : bytes → result Header;
  Token_decode : string → option Token.t
}.

(** ** Connection *)

Definition MAX_PAYLOAD_LEN : Z := 2 ^ 19.
Definition MAX_COMPRESSION_LEN : Z := 2 ^ 19.
Definition SUGGESTED_MAX_OUTBOX : Z := 2 ^ 4.
Definition RESEND_TIMEOUT : Z := 2.
Definition MAX_SEND_RETRIES : Z := 3.

(** Values stored in, or compared with, the components of an
    [awaiting_ack] tuple. An [asyncio.Event] is an object: it is equal
    only to itself, and to nothing of another type. *)
Inductive pyval :=
  | PNone
  | PBytes (b : bytes)
  | PHeader (h : Header)
  | PEvent (id : nat).

(** Python [==] on these values. *)
Definition py_eq (x y : pyval) : bool :=
  match x, y with
  | PNone, PNone => true
  | PBytes a, PBytes b => bool_decide (a = b)
  | PHeader a, PHeader b => bool_decide (a = b)
  | PEvent a, PEvent b => bool_decide (a = b)
  | _, _ => false
  end.

Definition of_optional_bytes (o : option bytes) : pyval :=
  match o with
  | None => PNone
  | Some b => PBytes b
  end.

(** Python truthiness of an optional [bytes]: [None] and [b''] are false. *)
Definition truthy (o : option bytes) : bool :=
  match o with
  | Some (_ :: _) => true
  | _ => false
  end.

(** The tuple [(header, bundle_id, lock)] kept per in-flight message. *)
Record AckEntry := {
  entry_header : Header;
  entry_bundle_id : option bytes;
  entry_lock : nat
}.

(** [v[i]] on that tuple. *)
Definition tuple_index (v : AckEntry) (i : nat) : pyval :=
  match i with
  | 0%nat => PHeader (entry_header v)
  | 1%nat => of_optional_bytes (entry_bundle_id v)
  | _ => PEvent (entry_lock v)
  end.

(** [awaiting_ack] is an [OrderedDict]: keys in insertion order.
    [events] holds the flag of every [asyncio.Event] created so far. *)
Record Connection := {
  awaiting_ack : list (bytes * AckEntry);
  events : gmap nat bool;
  t_offset : Z
}.

Fixpoint od_get {V} (k : bytes) (d : list (bytes * V)) : option V :=
  match d with
  | [] => None
  | (k', v) :: d' => if bool_decide (k' = k) then Some v else od_get k d'
  end.

Definition od_remove {V} (k : bytes) (d : list (bytes * V)) : list (bytes * V) :=
  filter (λ kv, kv.1 ≠ k) d.

(** [d[k] = v]: replace in place, or append. *)
Fixpoint od_set {V} (k : bytes) (v : V) (d : list (bytes * V)) : list (bytes * V) :=
  match d with
  | [] => [(k, v)]
  | (k', v') :: d' =>
      if bool_decide (k' = k) then (k, v) :: d' else (k', v') :: od_set k v d'
  end.

Definition set_awaiting_ack (aa : list (bytes * AckEntry)) (c : Connection) : Connection :=
  {| awaiting_ack := aa; events := events c; t_offset := t_offset c |}.

(** [lock.set()] *)
Definition event_set (id : nat) (c : Connection) : Connection :=
  {| awaiting_ack := awaiting_ack c; events := <[id := true]> (events c);
     t_offset := t_offset c |}.

(** The loop of [Connection.clear] over [self.awaiting_ack.items()]. A
    [pop] inside the loop is noticed by the iterator when it is asked for
    a further item. *)
Fixpoint clear_loop (bundle_id : pyval) (items : list (bytes * AckEntry))
    (c : Connection) : Connection * option exn :=
  match items with
  | [] => (c, None)
  | (k, v) :: rest =>
      if py_eq (tuple_index v 2) bundle_id then
        let c' := set_awaiting_ack (od_remove k (awaiting_ack c)) c in
        match rest with
        | [] => (c', None)
        | _ :: _ => (c', Some RuntimeError)
        end
      else clear_loop bundle_id rest c
  end.

Definition clear (bundle_id : option bytes) (c : Connection) : Connection * option exn :=
  if truthy bundle_id
  then clear_loop (of_optional_bytes bundle_id) (awaiting_ack c) c
  else (c, None).

(** [action == 'send' and content['destination']['session'] == source_id] *)
Definition targets (source_id : string) (item : HeaderItem) : bool :=
  match item with
  | HSend _ destination => bool_decide (Route.session destination = source_id)
  | _ => false
  end.

(** The loop of [Connection.ack] over the recorded header. *)
Fixpoint ack_loop (source_id : string) (message_id : bytes) (header : Header)
    (c : Connection) : Connection * option exn :=
  match header with
  | [] => (c, None)
  | item :: rest =>
      if targets source_id item then
        match od_get message_id (awaiting_ack c) with
        | None => (c, Some KeyError)
        | Some t =>
            let c1 := set_awaiting_ack (od_remove message_id (awaiting_ack c)) c in
            let c2 := event_set (entry_lock t) c1 in
            let c3 := match awaiting_ack c2 with
                      | [] => c2
                      | (_, head) :: _ => event_set (entry_lock head) c2
                      end in
            ack_loop source_id message_id rest c3
        end
      else ack_loop source_id message_id rest c
  end.

Definition ack (source_id : string) (message_id : bytes) (c : Connection)
    : Connection * option exn :=
  let header := match od_get message_id (awaiting_ack c) with
                | Some t => entry_header t
                | None => []
                end in
  ack_loop source_id message_id header c.

Section connection.
Context `{Collaborators}.

(** The local function [encode] of [Connection.send] at a reading of the
    clock on a whole second: [now] is [time.time()] at the call, so that
    [int(time.time() - self.t_offset - 4)] is [now - t_offset - 4]. For a
    reading between two seconds see [encode_at]: every call of the code's
    [encode] is [encode] at the whole second [int(elapsed) + 4] with
    offset [0] (lemma [encode_at_whole]). *)
Definition encode (session_key : string) (t_offset now : Z) (header : Header)
    (payload : bytes) (message_id : option bytes) (retry : Z)
    : result (bytes * bytes) :=
  let h := ujson_dumps header in
  rb ← to_bytes retry 1;
  let r := rb ++ default [] message_id in
  lh ← to_bytes (Z.of_nat (length h)) 2;
  lp ← to_bytes (Z.of_nat (length (r ++ payload))) 3;
  let m := lh ++ lp ++ h ++ r ++ payload in
  t ← to_bytes (now - t_offset - 4) 4;
  let s := sign session_key (t ++ m) in
  Ok (s, t ++ m).

(** ['send' in set(a for a, _ in header)] *)
Definition has_send (header : Header) : bool :=
  existsb (λ item, bool_decide (action item = "send")) header.

(** Recording an outbound message in [awaiting_ack] under a new lock,
    which is set at once when nothing else is in flight. *)
Definition register (message_id : bytes) (header : Header)
    (bundle_id : option bytes) (c : Connection) : Connection :=
  let lock := fresh (dom (events c)) in
  {| awaiting_ack :=
       od_set message_id
         {| entry_header := header; entry_bundle_id := bundle_id; entry_lock := lock |}
         (awaiting_ack c);
     events := <[lock := bool_decide (awaiting_ack c = [])]> (events c);
     t_offset := t_offset c |}.

(** The [for retry in range(MAX_SEND_RETRIES)] loop, with the transport
    up, in the runs in which every call of [expect_ack] returns: the
    message's lock is set on entry or gets set while the call waits for
    it. [acked retry] tells whether [expect_ack] came back [True] in
    that attempt; [times (S retry)] is the time of the re-encoding that
    follows attempt [retry]. The result is the list of frames written to
    the socket and how the loop ended: [Some None] for [return],
    [Some (Some e)] for an exception raised inside the loop, [None] when
    the loop ran out of retries. The runs in which the first wait never
    returns are in [send_loop_paced]; the two agree whenever the lock is
    set or released (lemma [send_paced_released]). *)
Fixpoint send_loop (session_key : string) (t_offset : Z) (times : nat → Z)
    (acked : nat → bool) (expect_ack : bool) (header : Header) (payload : bytes)
    (message_id : bytes) (retries : list nat) (frame : bytes * bytes)
    : list bytes * option (option exn) :=
  match retries with
  | [] => ([], None)
  | retry :: rest =>
      let wire := frame.1 ++ frame.2 in
      if negb expect_ack || acked retry then ([wire], Some None)
      else
        let reencoded :=
          if bool_decide (Z.of_nat retry < MAX_SEND_RETRIES - 1)
          then encode session_key t_offset (times (S retry)) header payload
                 (Some message_id) (Z.of_nat retry)
          else Ok frame in
        match reencoded with
        | Raise e => ([wire], Some (Some e))
        | Ok frame' =>
            let '(sent, out) :=
              send_loop session_key t_offset times acked expect_ack header
                payload message_id rest frame' in
            (wire :: sent, out)
        end
  end.

(** [Connection.send], in the runs of [send_loop]: the connection as the
    registration leaves it, the frames written, and the exception raised
    if any. *)
Definition send (session_key : string) (times : nat → Z) (acked : nat → bool)
    (header : Header) (payload : bytes) (bundle_id ack_message_id : option bytes)
    (c : Connection) : Connection * list bytes * option exn :=
  match encode session_key (t_offset c) (times 0%nat) header payload ack_message_id
          (if truthy ack_message_id then 255 else 0) with
  | Raise e => (c, [], Some e)
  | Ok (s, mm) =>
      let message_id := s in
      let expect_ack := has_send header && negb (truthy ack_message_id) in
      let c1 := if expect_ack then register message_id header bundle_id c else c in
      match send_loop session_key (t_offset c) times acked expect_ack header payload
              message_id (seq 0 (Z.to_nat MAX_SEND_RETRIES)) (s, mm) with
      | (sent, Some out) => (c1, sent, out)
      | (sent, None) =>
          match clear bundle_id c1 with
          | (c2, Some e) => (c2, sent, Some e)
          | (c2, None) => (c2, sent, Some (Exception "Max send retries reached"))
          end
      end
  end.

(** The fields [recv] cuts out of a frame:
    signature, timestamp, header bytes, payload region. *)
Definition parse_frame (message : bytes) : bytes * Z * bytes * bytes :=
  let signature := slice 0 64 message in
  let timestamp := from_bytes (slice 64 68 message) in
  let len_h := Z.to_nat (from_bytes (slice 68 70 message)) in
  let len_p := Z.to_nat (from_bytes (slice 70 73 message)) in
  (signature, timestamp,
   slice 73 (73 + len_h) message,
   slice (73 + len_h) (73 + len_h + len_p) message).

(** What [recv] does for one frame that carries a ['send'] header. *)
Inductive RecvEffect :=
  | CallAck (source_id : string) (message_id : bytes)
      (* self.ack(source.session, full_payload[1:65]) *)
  | Reply (header : Header) (ack_message_id : bytes)
      (source destination : Route.t) (payload : bytes).
      (* self.send(header, b'', None, ret_signature), then
         channel.handle_message(source, destination, payload) *)

(** The body of the [for action, content in header] loop of [recv]. *)
Definition recv_item (channels : gset string) (signature message full_payload : bytes)
    (item : HeaderItem) : result (list RecvEffect) :=
  match item with
  | HSend source destination =>
      if verify (Route.session source) signature (drop 64 message) then
        if bool_decide (Route.channel destination ∈ channels) then
          match full_payload with
          | [] => Raise IndexError
          | b0 :: _ =>
              if bool_decide (b0 = xff) then
                Ok [CallAck (Route.session source) (slice 1 65 full_payload)]
              else
                let ret_signature :=
                  if bool_decide (b0 = x00) then signature
                  else slice 1 65 full_payload in
                let payload :=
                  if bool_decide (b0 = x00) then drop 1 full_payload
                  else drop 65 full_payload in
                Ok [Reply [HSend destination source] ret_signature
                      source destination payload]
          end
        else Ok []
      else Raise InvalidSignature
  | _ => Ok []
  end.

Fixpoint recv_loop (channels : gset string) (signature message full_payload : bytes)
    (header : Header) : list RecvEffect * option exn :=
  match header with
  | [] => ([], None)
  | item :: rest =>
      match recv_item channels signature message full_payload item with
      | Raise e => ([], Some e)
      | Ok es =>
          let '(es', out) := recv_loop channels signature message full_payload rest in
          (es ++ es', out)
      end
  end.

(** [Connection.recv] on a frame read from the socket at time [now]. *)
Definition recv (now : Z) (channels : gset string) (message : bytes)
    (c : Connection) (seen : SeenMessages)
    : SeenMessages * list RecvEffect * option exn :=
  let '(signature, timestamp, header_bytes, full_payload) := parse_frame message in
  let '(fresh_frame, seen') :=
    check_no_repeat now signature (timestamp + t_offset c) seen in
  if fresh_frame then
    match ujson_loads header_bytes with
    | Raise e => (seen', [], Some e)
    | Ok header =>
        let '(effects, out) :=
          recv_loop channels signature message full_payload header in
        (seen', effects, out)
    end
  else (seen', [], None).
End connection.

(** ** Session and Channel *)

Record Session := {
  session_key : string;
  issued_tokens : gmap bytes (Token.t * option Token.t);
  seen_messages : SeenMessages
}.

(** [Session.revoke_token]: [dict.pop] raises [KeyError] on an unknown id. *)
Definition revoke_token (token_id : bytes) (s : Session) : result (Session * HeaderItem) :=
  match issued_tokens s !! token_id with
  | None => Raise KeyError
  | Some _ =>
      Ok ({| session_key := session_key s;
             issued_tokens := delete token_id (issued_tokens s);
             seen_messages := seen_messages s |},
          HTokenRevoke token_id)
  end.

Section channel.
Context `{Collaborators}.

(** [chunks] maps a message id to the fragments received so far, by
    index; [messages] is the inbox ([appendleft] puts at the head);
    [lock] is the flag of the channel's [asyncio.Event]. *)
Record Channel := {
  channel_key : string;
  is_public : bool;
  chunks : gmap bytes (gmap Z bytes);
  messages : list (Route.t * Obj);
  lock : bool
}.

(** Python [not x] for the running bound, which is [None] or an [int]. *)
Definition py_not (x : option nat) : bool :=
  match x with
  | None | Some O => true
  | Some (S _) => false
  end.

(** The update of the running bound inside the loop:
    [if token.max_depth:
       if not max_depth or (token.max_depth + depth) < max_depth:
         max_depth = token.max_depth + depth] *)
Definition updated_max_depth (declared : option nat) (depth : nat)
    (max_depth : option nat) : option nat :=
  if negb (py_not declared) then
    if py_not max_depth
       || bool_decide (default O declared + depth < default O max_depth)%nat
    then Some (default O declared + depth)%nat
    else max_depth
  else max_depth.

(** The [for depth, token_string in enumerate(tokens)] loop of
    [Channel.validate_token_chain]. *)
Fixpoint validate_loop (owner : string) (issued : gmap bytes (Token.t * option Token.t))
    (source_id : string) (tokens : list string) (depth : nat) (asset : Asset)
    (last_receiver : string) (max_depth : option nat) : bool :=
  match tokens with
  | [] => false
  | token_string :: rest =>
      match Token_decode token_string with
      | None => false
      | Some token =>
          if bool_decide (Token.asset token = asset)
             && bool_decide (Token.issuer token = last_receiver) then
            if bool_decide (Token.issuer token = owner)
               && bool_decide (issued !! Token.signature token = None)
            then false
            else
              let max_depth := updated_max_depth (Token.max_depth token) depth max_depth in
              if py_not max_depth || bool_decide (depth ≤ default O max_depth)%nat then
                let last_receiver := Token.receiver token in
                let asset := ASignature (Token.signature token) in
                if bool_decide (last_receiver = source_id) then true
                else validate_loop owner issued source_id rest (S depth) asset
                       last_receiver max_depth
              else false
          else false
      end
  end.

Definition validate_token_chain (self : Channel) (session : Session)
    (source_id : string) (tokens : list string) : bool :=
  if is_public self || bool_decide (source_id = session_key session) then true
  else
    match tokens with
    | [] => false
    | _ :: _ =>
        validate_loop (session_key session) (issued_tokens session) source_id tokens
          O (AChannel (channel_key self)) (session_key session) None
    end.

(** The compression-flag dispatch that ends both branches of
    [Channel.handle_message]: [flagged[0]] selects raw or zlib, the rest
    goes to [bson.loads]. [body_bytes] is the argument of [bson.loads]. *)
Definition body_bytes (flagged : bytes) : result bytes :=
  match flagged with
  | [] => Raise IndexError
  | flag :: body =>
      if bool_decide (flag = x00) then Ok body
      else if bool_decide (flag = xff) then zlib_decompress body
      else Raise (Exception "Received message with different encoding")
  end.

Definition deliver (source : Route.t) (flagged : bytes) (self : Channel)
    : Channel * option exn :=
  match body_bytes flagged ≫= bson_loads with
  | Raise e => (self, Some e)
  | Ok obj =>
      ({| channel_key := channel_key self; is_public := is_public self;
          chunks := chunks self; messages := (source, obj) :: messages self;
          lock := true |}, None)
  end.

Definition set_chunks (c : gmap bytes (gmap Z bytes)) (self : Channel) : Channel :=
  {| channel_key := channel_key self; is_public := is_public self;
     chunks := c; messages := messages self; lock := lock self |}.

(** [b''.join(chunks[ii] for ii in range(n))], [ii] running over
    [first, first+1, ...] for [count] steps. *)
Fixpoint join_chunks (m : gmap Z bytes) (first : Z) (count : nat) : result bytes :=
  match count with
  | O => Ok []
  | S k =>
      match m !! first with
      | None => Raise KeyError
      | Some c => rest ← join_chunks m (first + 1) k; Ok (c ++ rest)
      end
  end.

(** The test [payload[:4] == b'\x00'*4]. *)
Definition is_single_frame (payload : bytes) : bool :=
  bool_decide (take 4 payload = replicate 4 x00).

Definition handle_message (session : Session) (source destination : Route.t)
    (raw_payload : bytes) (self : Channel) : Channel * option exn :=
  if validate_token_chain self session (Route.session source) (Route.tokens destination)
  then
    match decrypt (channel_key self) (Route.channel source)
            (drop 16 raw_payload) (take 16 raw_payload) with
    | Raise e => (self, Some e)
    | Ok payload =>
        if is_single_frame payload then deliver source (drop 4 payload) self
        else
          let i := from_bytes (slice 0 2 payload) in
          let n := from_bytes (slice 2 4 payload) in
          let mid := slice 4 8 payload in
          let chunk := drop 8 payload in
          let fragments := <[i := chunk]> (default ∅ (chunks self !! mid)) in
          let self1 := set_chunks (<[mid := fragments]> (chunks self)) self in
          if bool_decide (Z.of_nat (size fragments) = n) then
            let self2 := set_chunks (delete mid (chunks self1)) self1 in
            match join_chunks fragments 0 (Z.to_nat n) with
            | Raise e => (self2, Some e)
            | Ok payload => deliver source payload self2
            end
          else (self1, None)
    end
  else (self, None).

(** Frames handed to [handle_message] one after the other; an exception
    ends the run. *)
Fixpoint feed (session : Session) (source destination : Route.t)
    (arrivals : list bytes) (self : Channel) : Channel * option exn :=
  match arrivals with
  | [] => (self, None)
  | raw :: rest =>
      match handle_message session source destination raw self with
      | (self', None) => feed session source destination rest self'
      | (self', Some e) => (self', Some e)
      end
  end.

(** *** The send pipeline of [Channel.send] *)

(** [b'\xff' + zlib.compress(payload)] or [b'\x00' + payload]. *)
Definition compress_payload (max_compression : Z) (payload : bytes) : bytes :=
  if bool_decide (Z.of_nat (length payload) < max_compression)
  then xff :: zlib_compress payload
  else x00 :: payload.

(** [n = (len(payload) - 1) // max_payload + 1] *)
Definition chunk_count (max_payload : Z) (payload : bytes) : Z :=
  (Z.of_nat (length payload) - 1) / max_payload + 1.

(** The plaintext [chunk] that [encrypt_slice] builds for index [i]. *)
Definition plain_chunk (payload : bytes) (max_payload : Z) (mid : bytes) (n i : Z)
    : result bytes :=
  if bool_decide (n = 1) then Ok (replicate 4 x00 ++ payload)
  else if bool_decide (n > 2 ^ 16) then
    Raise (Exception "Payload size too large")
  else
    ib ← to_bytes i 2;
    nb ← to_bytes n 2;
    Ok (ib ++ nb ++ mid
        ++ slice (Z.to_nat (i * max_payload)) (Z.to_nat ((i + 1) * max_payload)) payload).

(** The generator [encrypt_slice(payload, max_payload, shared_key, mid, n, i)],
    unrolled, in an interpreter with room for all the generators it
    nests: [todo] is [n - i], the number of indices still to visit;
    [urandom i] is the nonce drawn for chunk [i]. The result is the list of
    items yielded and the exception that ended the generator, if any.
    [encrypt_slice_nested] counts the nested frames; the two agree when
    there is room for them (lemma [encrypt_slice_nested_room]). *)
Fixpoint encrypt_slice_from (own peer : string) (urandom : Z → bytes) (payload : bytes)
    (max_payload : Z) (mid : bytes) (n i : Z) (todo : nat) : list bytes * option exn :=
  match todo with
  | O => ([], None)
  | S todo' =>
      match plain_chunk payload max_payload mid n i with
      | Raise e => ([], Some e)
      | Ok chunk =>
          let nonce := urandom i in
          let '(rest, out) :=
            encrypt_slice_from own peer urandom payload max_payload mid n (i + 1) todo' in
          ((nonce ++ encrypt own peer chunk nonce) :: rest, out)
      end
  end.

Definition encrypt_slice (own peer : string) (urandom : Z → bytes) (payload : bytes)
    (max_payload : Z) (mid : bytes) (n i : Z) : list bytes * option exn :=
  encrypt_slice_from own peer urandom payload max_payload mid n i (Z.to_nat (n - i)).
End channel.

(** ** The acceptance condition of the specification

    Written from section 4.8 of the specification, to be compared with
    [validate_token_chain]: the running bound starts at infinity ([None]);
    a token that declares a [max_depth] lowers it to
    [min(bound, d + max_depth)]; index [d] must not exceed it. *)

Definition spec_bound (bound : option nat) (d : nat) (declared : option nat) : option nat :=
  match declared, bound with
  | None, _ => bound
  | Some m, None => Some (d + m)%nat
  | Some m, Some b => Some (Nat.min b (d + m))
  end.

Definition within_bound (d : nat) (bound : option nat) : Prop :=
  match bound with
  | None => True
  | Some b => (d ≤ b)%nat
  end.

Section specification.
Context `{Collaborators}.

(** The conditions a token [t] at index [d] has to meet. *)
Definition token_admissible (owner : string) (issued : gmap bytes (Token.t * option Token.t))
    (d : nat) (asset : Asset) (last_receiver : string) (bound : option nat)
    (t : Token.t) : Prop :=
  Token.asset t = asset ∧
  Token.issuer t = last_receiver ∧
  (Token.issuer t = owner → is_Some (issued !! Token.signature t)) ∧
  within_bound d (spec_bound bound d (Token.max_depth t)).

Inductive chain_authorizes (owner : string) (issued : gmap bytes (Token.t * option Token.t))
    (source_id : string) : nat → Asset → string → option nat → list string → Prop :=
  | chain_accept d asset last_receiver bound token_string t rest :
      Token_decode token_string = Some t →
      token_admissible owner issued d asset last_receiver bound t →
      Token.receiver t = source_id →
      chain_authorizes owner issued source_id d asset last_receiver bound
        (token_string :: rest)
  | chain_continue d asset last_receiver bound token_string t rest :
      Token_decode token_string = Some t →
      token_admissible owner issued d asset last_receiver bound t →
      chain_authorizes owner issued source_id (S d)
        (ASignature (Token.signature t)) (Token.receiver t)
        (spec_bound bound d (Token.max_depth t)) rest →
      chain_authorizes owner issued source_id d asset last_receiver bound
        (token_string :: rest).

Definition spec_accepts (self : Channel) (session : Session) (source_id : string)
    (tokens : list string) : Prop :=
  is_public self = true ∨
  source_id = session_key session ∨
  (tokens ≠ [] ∧
   chain_authorizes (session_key session) (issued_tokens session) source_id
     O (AChannel (channel_key self)) (session_key session) None tokens).

(** No token of the chain declares a [max_depth] of zero. *)
Definition no_zero_depth (tokens : list string) : Prop :=
  ∀ token_string t,
    token_string ∈ tokens → Token_decode token_string = Some t →
    Token.max_depth t ≠ Some O.

(** The claimed chunking round trip, for chunk counts up to [bound]: the
    generator yields [n] frames without raising, and a channel that holds
    nothing under [mid] and is fed these frames in any order ends exactly
    as if the whole payload had been delivered in one piece, with no entry
    left under [mid]. [own] is the sending channel, [peer] the receiving
    one; [mid] is four bytes and every nonce sixteen, as [os.urandom]
    returns them. *)
Definition reassembles (bound : Z) (own peer : string) (urandom : Z → bytes)
    (payload : bytes) (max_payload : Z) (mid : bytes) : Prop :=
  let n := chunk_count max_payload payload in
  1 ≤ max_payload →
  length mid = 4%nat →
  (∀ i, length (urandom i) = 16%nat) →
  1 ≤ n ≤ bound →
  ∃ frames,
    encrypt_slice own peer urandom payload max_payload mid n 0 = (frames, None) ∧
    Z.of_nat (length frames) = n ∧
    ∀ session source destination arrivals (self : Channel),
      validate_token_chain self session (Route.session source)
        (Route.tokens destination) = true →
      Route.channel source = own →
      channel_key self = peer →
      chunks self !! mid = None →
      arrivals ≡ₚ frames →
      feed session source destination arrivals self = deliver source payload self ∧
      chunks (feed session source destination arrivals self).1 !! mid = None.
End specification.

Section fragments.
Context `{Collaborators}.

(** The bytes that chunk [i] of a multi-chunk message carries after its
    eight-byte header: [payload[i*max_payload:(i+1)*max_payload]]. *)
Definition fragment_piece (payload : bytes) (max_payload i : Z) : bytes :=
  slice (Z.to_nat (i * max_payload)) (Z.to_nat ((i + 1) * max_payload)) payload.

(** The item that [encrypt_slice] yields for index [i] when [n > 1]. *)
Definition fragment_frame (own peer : string) (urandom : Z → bytes) (payload : bytes)
    (max_payload : Z) (mid : bytes) (n i : Z) : bytes :=
  urandom i
  ++ encrypt own peer
       (be_digits 2 i ++ be_digits 2 n ++ mid ++ fragment_piece payload max_payload i)
       (urandom i).

(** The only item yielded when [n = 1]. *)
Definition single_frame (own peer : string) (urandom : Z → bytes) (payload : bytes) : bytes :=
  urandom 0 ++ encrypt own peer (replicate 4 x00 ++ payload) (urandom 0).
End fragments.

(** ** A small concrete world for evaluating the model *)

Definition toy_sign (pk : string) (m : bytes) : bytes :=
  take 64 (m ++ replicate 64 x00).

Definition route_a : Route.t :=
  Route.mk ["broker0"] "A" "chanA" [].

Definition route_b : Route.t :=
  Route.mk ["broker0"] "B" "chanB" ["AB"].

Definition header_ba : Header := [HSend route_b route_a].

Definition header_ab : Header := [HSend route_a route_b].

(** A two-entry code book in place of JSON. *)
Definition toy_dumps (h : Header) : bytes :=
  if bool_decide (h = header_ba) then [x01]
  else if bool_decide (h = header_ab) then [x02]
  else [].

Definition toy_loads (b : bytes) : result Header :=
  if bool_decide (b = [x01]) then Ok header_ba
  else if bool_decide (b = [x02]) then Ok header_ab
  else Raise (Exception "ValueError").

Definition toy_decompress (b : bytes) : result bytes :=
  match b with
  | x78 :: p => Ok p
  | _ => Raise (Exception "zlib.error")
  end.

Definition sig_n (b : byte) : bytes := replicate 64 b.

Definition toy_token (issuer receiver : string) (asset : Asset) (kind : TokenType)
    (max_depth : option nat) (sig : bytes) : Token.t :=
  Token.mk issuer ["broker0"] receiver asset kind max_depth sig.

(** Tokens issued by the owner "A" for its channel "chanA", and their
    extensions by "B" and "C". The digit in a name is the declared
    [max_depth] of the root token. *)
Definition toy_decode (s : string) : option Token.t :=
  if bool_decide (s = "AB") then
    Some (toy_token "A" "B" (AChannel "chanA") root None (sig_n x10))
  else if bool_decide (s = "BC") then
    Some (toy_token "B" "C" (ASignature (sig_n x10)) extension None (sig_n x11))
  else if bool_decide (s = "AB0") then
    Some (toy_token "A" "B" (AChannel "chanA") root (Some 0%nat) (sig_n x20))
  else if bool_decide (s = "BC0") then
    Some (toy_token "B" "C" (ASignature (sig_n x20)) extension None (sig_n x21))
  else if bool_decide (s = "AB1") then
    Some (toy_token "A" "B" (AChannel "chanA") root (Some 1%nat) (sig_n x30))
  else if bool_decide (s = "BC1") then
    Some (toy_token "B" "C" (ASignature (sig_n x30)) extension None (sig_n x31))
  else if bool_decide (s = "CD1") then
    Some (toy_token "C" "D" (ASignature (sig_n x31)) extension None (sig_n x32))
  else None.

Definition toy : Collaborators := {|
  Obj := bytes;
  sign := toy_sign;
  verify := λ pk s m, bool_decide (s = toy_sign pk m);
  encrypt := λ own peer chunk nonce, rev chunk;
  decrypt := λ own peer ciphertext nonce, Ok (rev ciphertext);
  zlib_compress := λ p, x78 :: p;
  zlib_decompress := toy_decompress;
  bson_loads := λ b, Ok b;
  ujson_dumps := toy_dumps;
  ujson_loads := toy_loads;
  Token_decode := toy_decode
|}.

Definition toy_issued : gmap bytes (Token.t * option Token.t) :=
  list_to_map
    [ (sig_n x10, (toy_token "A" "B" (AChannel "chanA") root None (sig_n x10), None));
      (sig_n x20, (toy_token "A" "B" (AChannel "chanA") root (Some 0%nat) (sig_n x20), None));
      (sig_n x30, (toy_token "A" "B" (AChannel "chanA") root (Some 1%nat) (sig_n x30), None)) ].

Definition session_a : Session :=
  {| session_key := "A"; issued_tokens := toy_issued; seen_messages := seen_messages_init |}.

Definition channel_a : @Channel toy :=
  {| channel_key := "chanA"; is_public := false; chunks := ∅; messages := []; lock := false |}.

Definition public_channel_a : @Channel toy :=
  {| channel_key := "chanA"; is_public := true; chunks := ∅; messages := []; lock := false |}.

Definition toy_urandom (i : Z) : bytes := replicate 16 (byte_of_Z i).

Definition mid_0 : bytes := [xde; xad; xbe; xef].

Definition sig_a : bytes := sig_n x61.

(** Three messages in flight: two fragments of bundle [mid_0] and one of
    another bundle. *)
Definition entry_of (bundle_id : bytes) (lock : nat) : AckEntry :=
  {| entry_header := header_ab; entry_bundle_id := Some bundle_id; entry_lock := lock |}.

Definition conn_3 : Connection :=
  {| awaiting_ack :=
       [ (sig_n x01, entry_of mid_0 0%nat);
         (sig_n x02, entry_of mid_0 1%nat);
         (sig_n x03, entry_of [x00; x00; x00; x07] 2%nat) ];
     events := {[ 0%nat := true; 1%nat := false; 2%nat := false ]};
     t_offset := 0 |}.

(** The connection after a matching ack for [t]: entry gone, its lock and
    the lock of the new head set. *)
Definition released (message_id : bytes) (t : AckEntry) (c : Connection) : Connection :=
  let c1 := set_awaiting_ack (od_remove message_id (awaiting_ack c)) c in
  let c2 := event_set (entry_lock t) c1 in
  match awaiting_ack c2 with
  | [] => c2
  | (_, head) :: _ => event_set (entry_lock head) c2
  end.

Definition route_a_ab : Route.t :=
  Route.mk ["broker0"] "A" "chanA" ["AB"].

(** A payload with the raw flag, cut into three chunks of at most two
    bytes. *)
Definition small_payload : bytes := [x00; x68; x65; x6c; x6f].

(** A payload of [2^16] bytes: with [max_payload = 1] it makes [2^16]
    chunks. *)
Definition big_payload : bytes := replicate (Z.to_nat (2 ^ 16)) x00.

(** ** Issuing, extending and receiving: the rest of Session and Channel *)

(** What [Session.issue_token] and [Session.extend_route] need of the
    [Token] class, which lives outside [client.py]: [Token_sign key ...]
    is the signature that [token.sign(session_key)] computes for a token
    with the given fields (and stores in it), [Token_encode] is
    [token.encode()], [Token_decode_unverified] is
    [Token.decode(s, False)]. *)
Class TokenCodec := {
  Token_sign : string → list string → string → Asset → TokenType → option nat → bytes;
  Token_encode : Token.t → string;
  Token_decode_unverified : string → result Token.t
}.

(** The first argument of [issue_token]: a channel id, or the token to
    extend ([isinstance(target, Token)]). *)
Inductive IssueTarget :=
  | TargetChannel (channel_id : string)
  | TargetToken (token : Token.t).

Section session_tokens.
Context `{Collaborators} `{TokenCodec}.

(** [Session.issue_token]; [broker_ids] is
    [[x.broker_id for x in self.connections]]. *)
Definition issue_token (broker_ids : list string) (target : IssueTarget)
    (receiver : string) (max_depth : option nat) (s : Session)
    : Session * HeaderItem :=
  let '(token_type, prev_token, asset) :=
    match target with
    | TargetToken t => (extension, Some t, ASignature (Token.signature t))
    | TargetChannel c => (root, None, AChannel c)
    end in
  let signature :=
    Token_sign (session_key s) broker_ids receiver asset token_type max_depth in
  let token :=
    Token.mk (session_key s) broker_ids receiver asset token_type max_depth signature in
  ({| session_key := session_key s;
      issued_tokens := <[signature := (token, prev_token)]> (issued_tokens s);
      seen_messages := seen_messages s |},
   HTokenIssue (Token_encode token) (Token_encode <$> prev_token)).

(** The token string carried by an issue header: [token_header[1][1]]. *)
Definition issued_string (header : HeaderItem) : string :=
  match header with
  | HTokenIssue token _ => token
  | _ => ""
  end.

(** The loop of [extend_route] over [enumerate(route.tokens)]. It runs
    over the list the route had on entry, while [current] is the value
    of [route.tokens], rebound to [route.tokens[:i+1]] at every token
    addressed to the local session. *)
Fixpoint truncate_loop (self_id : string) (items : list string) (i : nat)
    (current : list string) : list string * option exn :=
  match items with
  | [] => (current, None)
  | enc_token :: rest =>
      match Token_decode enc_token with
      | None => (current, Some InvalidSignature)
      | Some token =>
          truncate_loop self_id rest (S i)
            (if bool_decide (Token.receiver token = self_id)
             then take (S i) current else current)
      end
  end.

Definition set_tokens (tokens : list string) (route : Route.t) : Route.t :=
  Route.mk (Route.brokers route) (Route.session route) (Route.channel route) tokens.

(** [Session.extend_route]: the session and the route afterwards, and the
    header returned or the exception raised. *)
Definition extend_route (broker_ids : list string) (route : Route.t)
    (receiver : string) (max_depth : option nat) (s : Session)
    : Session * Route.t * result HeaderItem :=
  if bool_decide (Route.session route = session_key s) then
    let '(s', token_header) :=
      issue_token broker_ids (TargetChannel (Route.channel route)) receiver max_depth s in
    (s', set_tokens [issued_string token_header] route, Ok token_header)
  else
    match truncate_loop (session_key s) (Route.tokens route) O (Route.tokens route) with
    | (current, Some e) => (s, set_tokens current route, Raise e)
    | (current, None) =>
        match last current with
        | None => (s, set_tokens current route, Raise IndexError)
        | Some tail =>
            match Token_decode_unverified tail with
            | Raise e => (s, set_tokens current route, Raise e)
            | Ok token =>
                let '(s', token_header) :=
                  issue_token broker_ids (TargetToken token) receiver max_depth s in
                (s', set_tokens (current ++ [issued_string token_header]) route,
                 Ok token_header)
            end
        end
    end.

(** The token string is addressed to [self_id]. *)
Definition addressed_to (self_id : string) (enc_token : string) : Prop :=
  ∃ token, Token_decode enc_token = Some token ∧ Token.receiver token = self_id.

#[global] Instance addressed_to_dec self_id enc_token :
  Decision (addressed_to self_id enc_token).
Proof.
  unfold addressed_to. destruct (Token_decode enc_token) as [token|].
  - destruct (decide (Token.receiver token = self_id)) as [Hr|Hr].
    + left. by exists token.
    + right. intros (t & [= <-] & ?). done.
  - right. intros (t & ? & _). done.
Defined.

(** [Channel.recv], up to its suspension point: with an empty inbox it
    clears the lock and waits; otherwise [self.messages.pop()] takes the
    entry at the right end. *)
Definition channel_recv (self : Channel) : Channel * option (Route.t * Obj) :=
  match last (messages self) with
  | None =>
      ({| channel_key := channel_key self; is_public := is_public self;
          chunks := chunks self; messages := messages self; lock := false |}, None)
  | Some m =>
      ({| channel_key := channel_key self; is_public := is_public self;
          chunks := chunks self;
          messages := take (length (messages self) - 1) (messages self);
          lock := lock self |}, Some m)
  end.

(** [count] calls of [recv] that find a message, oldest call first. *)
Fixpoint drain (count : nat) (self : Channel) : list (Route.t * Obj) * Channel :=
  match count with
  | O => ([], self)
  | S k =>
      match channel_recv self with
      | (self', Some m) => let '(ms, self'') := drain k self' in (m :: ms, self'')
      | (self', None) => ([], self')
      end
  end.

(** Payloads handed to the flag dispatch one after the other, as
    [handle_message] does for complete messages; an exception ends the
    run. *)
Fixpoint deliver_all (source : Route.t) (flagged : list bytes) (self : Channel)
    : Channel * option exn :=
  match flagged with
  | [] => (self, None)
  | p :: rest =>
      match deliver source p self with
      | (self', None) => deliver_all source rest self'
      | (self', Some e) => (self', Some e)
      end
  end.

(** The generator [encrypt_slice] as the interpreter runs it. Every
    [yield from] resumes the generator of the next index inside the frame
    of the one before it, so the generator of index [i] runs under [i + 1]
    nested generator frames, and the one that finds the end of the
    iteration under [n + 1]. [room] is the number of frames the
    interpreter still allows when the generator is first resumed
    ([sys.getrecursionlimit()] less the depth of the caller). [calls] is
    the number of frames that the calls made by one generator before its
    [yield] need on top of its own: [os.urandom] and
    [shared_key.encrypt], which are not in this file. A generator that
    cannot be entered, or whose calls do not fit, raises
    [RecursionError], which ends the iteration after the items yielded so
    far. [todo] is [n - i], as in [encrypt_slice_from]. *)
Fixpoint encrypt_slice_nested (room calls : nat) (own peer : string)
    (urandom : Z → bytes) (payload : bytes) (max_payload : Z) (mid : bytes) (n i : Z)
    (todo : nat) : list bytes * option exn :=
  match room with
  | O => ([], Some RecursionError)
  | S room' =>
      match todo with
      | O => ([], None)
      | S todo' =>
          match plain_chunk payload max_payload mid n i with
          | Raise e => ([], Some e)
          | Ok chunk =>
              if bool_decide (room' < calls)%nat then ([], Some RecursionError)
              else
                let nonce := urandom i in
                let '(rest, out) :=
                  encrypt_slice_nested room' calls own peer urandom payload max_payload
                    mid n (i + 1) todo' in
                ((nonce ++ encrypt own peer chunk nonce) :: rest, out)
          end
      end
  end.

Definition encrypt_slice_in (room calls : nat) (own peer : string) (urandom : Z → bytes)
    (payload : bytes) (max_payload : Z) (mid : bytes) (n i : Z)
    : list bytes * option exn :=
  encrypt_slice_nested room calls own peer urandom payload max_payload mid n i
    (Z.to_nat (n - i)).

(** The payload path of [Channel.send]: the encoded object
    ([bson.dumps(payload_obj)]) is flagged and compressed, cut into [n]
    chunks and encrypted by the generator. [max_compression] and
    [max_payload] are the attributes read from the first connection. *)
Definition send_frames (room calls : nat) (own peer : string) (urandom : Z → bytes)
    (max_compression max_payload : Z) (encoded mid : bytes) : list bytes * option exn :=
  let payload := compress_payload max_compression encoded in
  let n := chunk_count max_payload payload in
  encrypt_slice_in room calls own peer urandom payload max_payload mid n 0.
End session_tokens.

(** [int(x)] for a finite float [x], read as the rational it denotes:
    truncation toward zero. *)
Definition py_int (x : Q) : Z := Z.quot (Qnum x) (Z.pos (Qden x)).

Section frame_widths.
Context `{Collaborators}.

(** The local function [encode] at any reading of the clock. [elapsed] is
    the value of the float expression [time.time() - self.t_offset - 4];
    the timestamp written is [int(elapsed)]. *)
Definition encode_at (session_key : string) (elapsed : Q) (header : Header)
    (payload : bytes) (message_id : option bytes) (retry : Z)
    : result (bytes * bytes) :=
  let h := ujson_dumps header in
  rb ← to_bytes retry 1;
  let r := rb ++ default [] message_id in
  lh ← to_bytes (Z.of_nat (length h)) 2;
  lp ← to_bytes (Z.of_nat (length (r ++ payload))) 3;
  let m := lh ++ lp ++ h ++ r ++ payload in
  t ← to_bytes (py_int elapsed) 4;
  let s := sign session_key (t ++ m) in
  Ok (s, t ++ m).

(** The fields of a frame fit their widths: one byte for [retry], two for
    the header length, three for the length of the payload region, and
    four for the timestamp, which is the case for every reading above
    [-1] and below [2^32]. *)
Definition frame_fits (elapsed : Q) (header : Header) (payload : bytes)
    (message_id : option bytes) (retry : Z) : Prop :=
  0 ≤ retry < 2 ^ 8 ∧
  Z.of_nat (length (ujson_dumps header)) < 2 ^ 16 ∧
  1 + Z.of_nat (length (default [] message_id)) + Z.of_nat (length payload) < 2 ^ 24 ∧
  (inject_Z (-1) < elapsed)%Q ∧ (elapsed < inject_Z (2 ^ 32))%Q.
End frame_widths.

(** How a call of [Connection.send] ends: it returns, it raises, or it
    stays suspended in [await lock.wait()] for ever. *)
Inductive SendEnd :=
  | Returned
  | Raised (e : exn)
  | Suspended.

(** [Connection.expect_ack] as [send] sees it. [lock_set] is the state of
    the message's lock on entry. [released] tells whether another task
    sets the lock while the call waits for it: [ack] does so for the
    message that becomes the head of [awaiting_ack]. [acked] tells whether
    the entry has left [awaiting_ack] when the call looks. If the lock is
    never set, the first [await lock.wait()] never returns: [None].
    Otherwise the call returns [acked] after at most [RESEND_TIMEOUT],
    and the lock is set when it does: by [ack], or else by the timeout
    handler. *)
Definition expect_ack (lock_set released acked : bool) : option bool :=
  if lock_set || released then Some acked else None.

(** The end of a run of [send] in which every [expect_ack] returned. *)
Definition send_end (out : option exn) : SendEnd :=
  match out with
  | None => Returned
  | Some e => Raised e
  end.

Section paced_send.
Context `{Collaborators}.

(** The [for retry in range(MAX_SEND_RETRIES)] loop with the wait for the
    lock, the transport being up. Only the message's own [expect_ack]
    clears its lock, and leaves it set: from the second attempt on the
    lock is set on entry. The result is the list of frames written and
    how the loop ended, [None] when it ran out of retries. *)
Fixpoint send_loop_paced (session_key : string) (t_offset : Z) (times : nat → Z)
    (released acked : nat → bool) (expects : bool) (header : Header)
    (payload : bytes) (message_id : bytes) (lock_set : bool) (retries : list nat)
    (frame : bytes * bytes) : list bytes * option SendEnd :=
  match retries with
  | [] => ([], None)
  | retry :: rest =>
      let wire := frame.1 ++ frame.2 in
      if negb expects then ([wire], Some Returned)
      else
        match expect_ack lock_set (released retry) (acked retry) with
        | None => ([wire], Some Suspended)
        | Some true => ([wire], Some Returned)
        | Some false =>
            let reencoded :=
              if bool_decide (Z.of_nat retry < MAX_SEND_RETRIES - 1)
              then encode session_key t_offset (times (S retry)) header payload
                     (Some message_id) (Z.of_nat retry)
              else Ok frame in
            match reencoded with
            | Raise e => ([wire], Some (Raised e))
            | Ok frame' =>
                let '(sent, out) :=
                  send_loop_paced session_key t_offset times released acked expects
                    header payload message_id true rest frame' in
                (wire :: sent, out)
            end
        end
  end.

(** [Connection.send] with the pacing by locks: the connection as the
    registration leaves it, the frames written, and how the call ends. A
    message registered while others are in flight gets an unset lock and
    waits for it before it looks for its ack. *)
Definition send_paced (session_key : string) (times : nat → Z)
    (released acked : nat → bool) (header : Header) (payload : bytes)
    (bundle_id ack_message_id : option bytes) (c : Connection)
    : Connection * list bytes * SendEnd :=
  match encode session_key (t_offset c) (times 0%nat) header payload ack_message_id
          (if truthy ack_message_id then 255 else 0) with
  | Raise e => (c, [], Raised e)
  | Ok (s, mm) =>
      let message_id := s in
      let expects := has_send header && negb (truthy ack_message_id) in
      let c1 := if expects then register message_id header bundle_id c else c in
      match send_loop_paced session_key (t_offset c) times released acked expects header
              payload message_id (bool_decide (awaiting_ack c = []))
              (seq 0 (Z.to_nat MAX_SEND_RETRIES)) (s, mm) with
      | (sent, Some out) => (c1, sent, out)
      | (sent, None) =>
          match clear bundle_id c1 with
          | (c2, Some e) => (c2, sent, Raised e)
          | (c2, None) => (c2, sent, Raised (Exception "Max send retries reached"))
          end
      end
  end.
End paced_send.

(** ** A code book for issuing tokens in the small world *)

(** The signatures and strings of the tokens that [toy_decode] knows: a
    root token signs as [sig_n x10], [x20] or [x30] by its declared
    depth, and an extension of a known signature as the next one. *)
Definition toy_token_sign (issuer : string) (brokers : list string) (receiver : string)
    (asset : Asset) (kind : TokenType) (max_depth : option nat) : bytes :=
  match asset with
  | AChannel _ =>
      match max_depth with
      | None => sig_n x10
      | Some O => sig_n x20
      | Some _ => sig_n x30
      end
  | ASignature sig =>
      if bool_decide (sig = sig_n x10) then sig_n x11
      else if bool_decide (sig = sig_n x20) then sig_n x21
      else if bool_decide (sig = sig_n x30) then sig_n x31
      else if bool_decide (sig = sig_n x31) then sig_n x32
      else sig_n x00
  end.

Definition toy_token_encode (t : Token.t) : string :=
  let sig := Token.signature t in
  if bool_decide (sig = sig_n x10) then "AB"
  else if bool_decide (sig = sig_n x11) then "BC"
  else if bool_decide (sig = sig_n x20) then "AB0"
  else if bool_decide (sig = sig_n x21) then "BC0"
  else if bool_decide (sig = sig_n x30) then "AB1"
  else if bool_decide (sig = sig_n x31) then "BC1"
  else if bool_decide (sig = sig_n x32) then "CD1"
  else "".

Definition toy_codec : @TokenCodec := {|
  Token_sign := toy_token_sign;
  Token_encode := toy_token_encode;
  Token_decode_unverified := λ s,
    match toy_decode s with
    | Some t => Ok t
    | None => Raise (Exception "ValueError")
    end
|}.

(** A session with the given key that has issued nothing and seen
    nothing. *)
Definition new_session (key : string) : Session :=
  {| session_key := key; issued_tokens := ∅; seen_messages := seen_messages_init |}.

(** A connection with nothing in flight. *)
Definition idle_connection : Connection :=
  {| awaiting_ack := []; events := ∅; t_offset := 0 |}.

Definition toy_times (k : nat) : Z := 1700000000 + Z.of_nat k.

(** * Properties *)

(** ** The replay cache *)

Lemma check_no_repeat_idx2 now sig ts s :
  idx2 (check_no_repeat now sig ts s).2 = idx2 s.
Proof.
  unfold check_no_repeat, clear_bucket, add_bucket.
  repeat case_bool_decide; reflexivity.
Qed.

(** The third tuple component never moves away from its initial [0]. *)
Lemma reachable_idx2 s : reachable s → idx2 s = 0.
Proof.
  induction 1 as [|c s _ IH]; [reflexivity|].
  by rewrite check_no_repeat_idx2.
Qed.

Lemma lead_cases now : (now / 60) mod 2 = 0 ∨ (now / 60) mod 2 = 1.
Proof. pose proof (Z.mod_pos_bound (now / 60) 2); lia. Qed.

(** Bucket 0 is never cleared in a reachable state: what it holds stays. *)
Lemma bucket0_sticky now sig ts s x :
  idx2 s = 0 → x ∈ bucket0 s → x ∈ bucket0 (check_no_repeat now sig ts s).2.
Proof.
  intros Hi Hx. unfold check_no_repeat, clear_bucket, add_bucket.
  rewrite Hi.
  repeat case_bool_decide; simpl; try congruence; set_solver.
Qed.

(** A signature held in bucket 0 is refused. *)
Lemma bucket0_rejects now sig ts s :
  idx2 s = 0 → sig ∈ bucket0 s → (check_no_repeat now sig ts s).1 = false.
Proof.
  intros Hi Hx. unfold check_no_repeat, clear_bucket.
  rewrite Hi.
  repeat case_bool_decide; simpl in *; try congruence; try reflexivity;
    exfalso; set_solver.
Qed.

(** An accepted signature lands in the bucket of the current minute. *)
Lemma accepted_in_bucket now sig ts s :
  (check_no_repeat now sig ts s).1 = true →
  let s' := (check_no_repeat now sig ts s).2 in
  now - 60 ≤ ts ≤ now ∧
  (if bool_decide ((now / 60) mod 2 = 0) then sig ∈ bucket0 s' else sig ∈ bucket1 s').
Proof.
  unfold check_no_repeat, add_bucket.
  repeat case_bool_decide; simpl; try discriminate; intros _;
    (split; [lia | set_solver]).
Qed.

(** Running further calls keeps bucket 0 and the fixed third component. *)
Lemma run_calls_bucket0 cs s x :
  idx2 s = 0 → x ∈ bucket0 s →
  idx2 (run_calls cs s).2 = 0 ∧ x ∈ bucket0 (run_calls cs s).2.
Proof.
  revert s. induction cs as [|c cs IH]; intros s Hi Hx; [done|].
  simpl.
  destruct (check_no_repeat (call_now c) (call_sig c) (call_ts c) s)
    as [b s1] eqn:E.
  assert (Hs1 : s1 = (check_no_repeat (call_now c) (call_sig c) (call_ts c) s).2)
    by (by rewrite E).
  destruct (IH s1) as [H1 H2].
  - by rewrite Hs1, check_no_repeat_idx2.
  - rewrite Hs1. by apply bucket0_sticky.
  - by destruct (run_calls cs s1).
Qed.

(** A signature accepted during an even minute is refused by every later
    call, whatever happens in between and whatever the time and
    timestamp of the second submission. *)
Lemma even_minute_replay_rejected now sig ts s cs now' ts' :
  idx2 s = 0 →
  (now / 60) mod 2 = 0 →
  (check_no_repeat now sig ts s).1 = true →
  (check_no_repeat now' sig ts'
     (run_calls cs (check_no_repeat now sig ts s).2).2).1 = false.
Proof.
  intros Hi Hlead Hacc.
  pose proof (accepted_in_bucket _ _ _ _ Hacc) as [_ Hin].
  rewrite bool_decide_eq_true_2 in Hin by done.
  destruct (run_calls_bucket0 cs (check_no_repeat now sig ts s).2 sig)
    as [H1 H2]; [by rewrite check_no_repeat_idx2 | done |].
  by apply bucket0_rejects.
Qed.

(** A call made in an odd minute, in a state whose third component is 0:
    bucket 1 is emptied first, so only bucket 0 and the window decide. *)
Lemma check_no_repeat_odd now sig ts s :
  idx2 s = 0 →
  (now / 60) mod 2 = 1 →
  (check_no_repeat now sig ts s).1
    = bool_decide (now - 60 ≤ ts ≤ now) && bool_decide (sig ∉ bucket0 s) ∧
  bucket0 (check_no_repeat now sig ts s).2 = bucket0 s.
Proof.
  intros Hi Hl. unfold check_no_repeat. rewrite Hi, Hl.
  rewrite (bool_decide_eq_true_2 (0 ≠ 1)) by done.
  unfold clear_bucket, add_bucket.
  rewrite (bool_decide_eq_false_2 (1 = 0)) by done. cbn [bucket0 bucket1].
  destruct (bool_decide (now - 60 ≤ ts ≤ now)); [|done].
  assert (Heq : bool_decide (sig ∉ bucket0 s ∪ ∅) = bool_decide (sig ∉ bucket0 s)).
  { apply bool_decide_ext. set_solver. }
  rewrite Heq. by destruct (bool_decide (sig ∉ bucket0 s)).
Qed.

(** In an odd minute the cache forgets: a signature accepted at [now] is
    accepted again at any later time [now'] of an odd minute, provided
    the timestamp is in the window and bucket 0 does not hold it. *)
Lemma odd_minute_replay_accepted now sig ts s now' ts' :
  idx2 s = 0 →
  (now / 60) mod 2 = 1 →
  (now' / 60) mod 2 = 1 →
  sig ∉ bucket0 s →
  (check_no_repeat now sig ts s).1 = true →
  now' - 60 ≤ ts' ≤ now' →
  (check_no_repeat now' sig ts' (check_no_repeat now sig ts s).2).1 = true.
Proof.
  intros Hi Hl Hl' Hb0 Hacc Hts.
  destruct (check_no_repeat_odd now sig ts s Hi Hl) as [_ Hb].
  destruct (check_no_repeat_odd now' sig ts' (check_no_repeat now sig ts s).2)
    as [Hv _]; [by rewrite check_no_repeat_idx2 | done |].
  rewrite Hv, Hb.
  by rewrite !bool_decide_eq_true_2.
Qed.

(** C1 (replay rejection) fails in an odd minute. A fresh session accepts
    signature [sig_a] at time 1700000100 (minute 28333335, odd, so
    [lead = 1]); the same signature submitted one second later is accepted
    again, because the third tuple component stays [0 <> lead] and bucket 1
    is therefore cleared at the start of every call made in an odd
    minute. The claim requires the second call to return [False]. *)
Theorem replay_accepted_twice_in_odd_minute :
  (1700000100 / 60) mod 2 = 1 ∧
  1700000101 - 1700000100 ≤ 60 ∧
  reachable seen_messages_init ∧
  (run_calls [ {| call_now := 1700000100; call_sig := sig_a; call_ts := 1700000100 |};
               {| call_now := 1700000101; call_sig := sig_a; call_ts := 1700000100 |} ]
             seen_messages_init).1 = [true; true].
Proof.
  split; [reflexivity|]. split; [lia|]. split; [constructor|].
  vm_compute. reflexivity.
Qed.

(** ** Big-endian integers *)

Lemma be_digits_length len v : length (be_digits len v) = len.
Proof.
  revert v. induction len as [|k IH]; intros v; simpl; [done|].
  rewrite length_app, IH. simpl. lia.
Qed.

Lemma byte_to_of_Z v : byte_to_Z (byte_of_Z v) = v mod 256.
Proof.
  unfold byte_to_Z, byte_of_Z.
  pose proof (Z.mod_pos_bound v 256 ltac:(lia)) as Hb.
  destruct (Byte.of_N (Z.to_N (v mod 256))) as [b|] eqn:E.
  - apply Byte.to_of_N in E. rewrite E. lia.
  - apply Byte.of_N_None_iff in E. lia.
Qed.

Lemma from_bytes_snoc l b : from_bytes (l ++ [b]) = from_bytes l * 256 + byte_to_Z b.
Proof. unfold from_bytes. by rewrite fold_left_app. Qed.

Lemma from_be_digits len v :
  0 ≤ v → from_bytes (be_digits len v) = v mod 256 ^ Z.of_nat len.
Proof.
  revert v. induction len as [|k IH]; intros v Hv.
  - simpl. by rewrite Z.mod_1_r.
  - cbn [be_digits]. rewrite from_bytes_snoc, byte_to_of_Z.
    rewrite IH by (apply Z.div_pos; lia).
    assert (0 < 256 ^ Z.of_nat k) by (apply Z.pow_pos_nonneg; lia).
    rewrite Nat2Z.inj_succ, Z.pow_succ_r by lia.
    rewrite Z.rem_mul_r, Z.mod_mod by lia. ring.
Qed.

Lemma to_bytes_Ok v len b :
  to_bytes v len = Ok b →
  0 ≤ v < 256 ^ Z.of_nat len ∧ b = be_digits len v.
Proof.
  unfold to_bytes. case_bool_decide; [|discriminate].
  intros [= <-]. done.
Qed.

Lemma to_bytes_fits v len :
  0 ≤ v < 256 ^ Z.of_nat len → to_bytes v len = Ok (be_digits len v).
Proof. intros Hv. unfold to_bytes. by rewrite bool_decide_eq_true_2. Qed.

Lemma from_to_bytes v len b : to_bytes v len = Ok b → from_bytes b = v ∧ length b = len.
Proof.
  intros [Hv ->]%to_bytes_Ok. rewrite be_digits_length, from_be_digits by lia.
  split; [|done]. apply Z.mod_small. lia.
Qed.

(** ** Connection.clear *)

Lemma py_eq_event_bundle lock bundle_id :
  py_eq (PEvent lock) (of_optional_bytes bundle_id) = false.
Proof. by destruct bundle_id. Qed.

Lemma clear_loop_noop bundle_id items c :
  clear_loop (of_optional_bytes bundle_id) items c = (c, None).
Proof.
  induction items as [|[k v] items IH]; [done|].
  cbn [clear_loop tuple_index]. by rewrite py_eq_event_bundle.
Qed.

(** [clear] compares the lock of each entry with the bundle id, so it
    never removes anything. *)
Lemma clear_noop bundle_id c : clear bundle_id c = (c, None).
Proof.
  unfold clear. destruct (truthy bundle_id); [|done]. apply clear_loop_noop.
Qed.

(** C3 (bundle purge) fails: with two entries of bundle [mid_0] in flight,
    [clear(mid_0)] returns with [awaiting_ack] untouched, and both entries
    are still there with their bundle id. The test [v[2] == bundle_id]
    reads the lock of the tuple [(header, bundle_id, lock)], not its
    bundle id at index 1. *)
Theorem clear_keeps_bundle_entries :
  truthy (Some mid_0) = true ∧
  clear (Some mid_0) conn_3 = (conn_3, None) ∧
  entry_bundle_id <$> od_get (sig_n x01) (awaiting_ack (clear (Some mid_0) conn_3).1)
    = Some (Some mid_0) ∧
  entry_bundle_id <$> od_get (sig_n x02) (awaiting_ack (clear (Some mid_0) conn_3).1)
    = Some (Some mid_0).
Proof.
  split; [done|]. rewrite clear_noop. split; [done|]. split; reflexivity.
Qed.

(** ** Connection.ack *)

Lemma od_get_remove {V} k (d : list (bytes * V)) : od_get k (od_remove k d) = None.
Proof.
  induction d as [|[k' v] d IH]; [done|].
  unfold od_remove in *. rewrite filter_cons. simpl.
  case_decide as Hk; [|done].
  simpl. by rewrite bool_decide_eq_false_2.
Qed.

Lemma od_get_remove_ne {V} k k' (d : list (bytes * V)) :
  k ≠ k' → od_get k' (od_remove k d) = od_get k' d.
Proof.
  intros Hne. induction d as [|[k0 v] d IH]; [done|].
  unfold od_remove in *. rewrite filter_cons. simpl.
  case_decide as Hk; simpl.
  - by rewrite IH.
  - subst k0. by rewrite bool_decide_eq_false_2.
Qed.

Lemma od_get_set {V} k (v : V) (d : list (bytes * V)) :
  od_get k (od_set k v d) = Some v.
Proof.
  induction d as [|[k' v'] d IH]; simpl.
  - by case_bool_decide.
  - case_bool_decide as Hk; simpl; case_bool_decide; done.
Qed.

Lemma awaiting_ack_released message_id t c :
  awaiting_ack (released message_id t c) = od_remove message_id (awaiting_ack c).
Proof.
  unfold released. simpl. by destruct (od_remove message_id (awaiting_ack c)) as [|[]].
Qed.

(** Once the entry is gone, a further matching header item makes [pop]
    raise; items that do not match change nothing. *)
Lemma ack_loop_absent source_id message_id header c :
  od_get message_id (awaiting_ack c) = None →
  ack_loop source_id message_id header c =
    (c, if existsb (targets source_id) header then Some KeyError else None).
Proof.
  intros Hnone. induction header as [|item rest IH]; [done|].
  simpl. destruct (targets source_id item); simpl; [by rewrite Hnone | done].
Qed.

Lemma ack_loop_match source_id message_id item rest t c :
  targets source_id item = true →
  od_get message_id (awaiting_ack c) = Some t →
  ack_loop source_id message_id (item :: rest) c =
    ack_loop source_id message_id rest (released message_id t c).
Proof. intros Ht Hget. cbn [ack_loop]. by rewrite Ht, Hget. Qed.

Lemma ack_loop_present source_id message_id header t c :
  od_get message_id (awaiting_ack c) = Some t →
  ack_loop source_id message_id header c =
    match filter (λ item, targets source_id item = true) header with
    | [] => (c, None)
    | [_] => (released message_id t c, None)
    | _ :: _ :: _ => (released message_id t c, Some KeyError)
    end.
Proof.
  intros Hget. induction header as [|item rest IH]; [done|].
  rewrite filter_cons.
  destruct (targets source_id item) eqn:E.
  - rewrite decide_True by done.
    rewrite (ack_loop_match _ _ _ _ t) by done.
    rewrite ack_loop_absent
      by (rewrite awaiting_ack_released; apply od_get_remove).
    destruct (filter _ rest) as [|x l] eqn:F.
    + replace (existsb (targets source_id) rest) with false; [done|].
      symmetry. apply not_true_is_false. intros [x [Hx Ht]]%existsb_exists.
      assert (Hin : x ∈ filter (λ item, targets source_id item = true) rest)
        by (apply list_elem_of_filter; split; [done | by apply list_elem_of_In]).
      rewrite F in Hin. by apply not_elem_of_nil in Hin.
    + replace (existsb (targets source_id) rest) with true; [done|].
      symmetry. apply existsb_exists. exists x.
      assert (Hin : x ∈ filter (λ item, targets source_id item = true) rest)
        by (rewrite F; left).
      apply list_elem_of_filter in Hin as [? ?%list_elem_of_In]. done.
  - rewrite decide_False by (by rewrite not_true_iff_false).
    cbn [ack_loop]. rewrite E. apply IH.
Qed.

(** [ack] in closed form. A header with two matching items makes the
    second [pop] raise [KeyError], after the removal. *)
Lemma ack_characterised source_id message_id c :
  ack source_id message_id c =
    match od_get message_id (awaiting_ack c) with
    | None => (c, None)
    | Some t =>
        match filter (λ item, targets source_id item = true) (entry_header t) with
        | [] => (c, None)
        | [_] => (released message_id t c, None)
        | _ :: _ :: _ => (released message_id t c, Some KeyError)
        end
    end.
Proof.
  unfold ack. destruct (od_get message_id (awaiting_ack c)) as [t|] eqn:E.
  - by apply ack_loop_present.
  - done.
Qed.

Lemma filter_targets_nil source_id header :
  filter (λ item, targets source_id item = true) header = [] ↔
  existsb (targets source_id) header = false.
Proof.
  induction header as [|item rest IH]; [done|].
  rewrite filter_cons. simpl.
  case_decide as Ht.
  - rewrite Ht. split; discriminate.
  - apply not_true_is_false in Ht. by rewrite Ht.
Qed.

(** What [released] means for the dictionary and the locks. *)
Lemma released_spec message_id t c :
  od_get message_id (awaiting_ack (released message_id t c)) = None ∧
  (∀ k, k ≠ message_id →
        od_get k (awaiting_ack (released message_id t c)) = od_get k (awaiting_ack c)) ∧
  events (released message_id t c) !! entry_lock t = Some true ∧
  (∀ k head rest,
     od_remove message_id (awaiting_ack c) = (k, head) :: rest →
     events (released message_id t c) !! entry_lock head = Some true) ∧
  (∀ id, events (released message_id t c) !! id = Some true ∨
         events (released message_id t c) !! id = events c !! id).
Proof.
  rewrite awaiting_ack_released.
  split; [apply od_get_remove|].
  split; [intros k Hk; by apply od_get_remove_ne|].
  unfold released. simpl.
  destruct (od_remove message_id (awaiting_ack c)) as [|[k0 h0] r] eqn:E; simpl.
  - split; [apply lookup_insert_eq|]. split; [done|].
    intros id. destruct (decide (entry_lock t = id)) as [<-|].
    + left. apply lookup_insert_eq.
    + right. by apply lookup_insert_ne.
  - split.
    { destruct (decide (entry_lock h0 = entry_lock t)) as [->|].
      - apply lookup_insert_eq.
      - rewrite lookup_insert_ne by done. apply lookup_insert_eq. }
    split; [intros k head rest [= _ <- _]; apply lookup_insert_eq|].
    intros id. destruct (decide (entry_lock h0 = id)) as [<-|].
    + left. apply lookup_insert_eq.
    + rewrite lookup_insert_ne by done.
      destruct (decide (entry_lock t = id)) as [<-|].
      * left. apply lookup_insert_eq.
      * right. by apply lookup_insert_ne.
Qed.

(** C9. [ack(source_id, message_id)] removes the entry under
    [message_id], sets its lock and sets the lock of the new head exactly
    when the entry exists and its recorded header has a ['send'] item
    whose destination session is [source_id]; every other entry is kept.
    On every other input (unknown [message_id], or no recorded ['send']
    item for [source_id]) it returns with the connection unchanged. *)
Theorem ack_removes_exactly_on_match source_id message_id c :
  let c' := (ack source_id message_id c).1 in
  (∀ t, od_get message_id (awaiting_ack c) = Some t →
        existsb (targets source_id) (entry_header t) = true →
        awaiting_ack c' = od_remove message_id (awaiting_ack c) ∧
        od_get message_id (awaiting_ack c') = None ∧
        (∀ k, k ≠ message_id →
              od_get k (awaiting_ack c') = od_get k (awaiting_ack c)) ∧
        events c' !! entry_lock t = Some true ∧
        (∀ k head rest, awaiting_ack c' = (k, head) :: rest →
                        events c' !! entry_lock head = Some true) ∧
        (∀ id, events c' !! id = Some true ∨ events c' !! id = events c !! id)) ∧
  ((od_get message_id (awaiting_ack c) = None ∨
    ∃ t, od_get message_id (awaiting_ack c) = Some t ∧
         existsb (targets source_id) (entry_header t) = false) →
   ack source_id message_id c = (c, None)).
Proof.
  cbn zeta. rewrite ack_characterised. split.
  - intros t Hget Hex. rewrite Hget.
    assert (Hc' : (match filter (λ item, targets source_id item = true) (entry_header t) with
                   | [] => (c, None)
                   | [_] => (released message_id t c, None)
                   | _ :: _ :: _ => (released message_id t c, Some KeyError)
                   end).1 = released message_id t c).
    { destruct (filter _ (entry_header t)) as [|x [|y l]] eqn:F; try done.
      apply filter_targets_nil in F. congruence. }
    rewrite Hc'.
    destruct (released_spec message_id t c) as (H1 & H2 & H3 & H4 & H5).
    split; [apply awaiting_ack_released|].
    split; [done|]. split; [done|]. split; [done|]. split; [|done].
    intros k head rest Hrest. rewrite awaiting_ack_released in Hrest.
    by eapply H4.
  - intros [Hnone | (t & Hget & Hex)].
    + by rewrite Hnone.
    + rewrite Hget. apply filter_targets_nil in Hex. by rewrite Hex.
Qed.

(** ** Frames: [encode] against the parsing of [recv] *)

Lemma drop_prefix (a b : bytes) n : length a = n → drop n (a ++ b) = b.
Proof. intros <-. apply drop_app_length. Qed.

Lemma take_prefix (a b : bytes) n : length a = n → take n (a ++ b) = a.
Proof. intros <-. apply take_app_length. Qed.

(** A byte string laid out as [signature(64) || t(4) || len_h(2) ||
    len_p(3) || header || payload region] is cut back into its parts. *)
Lemma parse_frame_parts (s t lh lp h fp : bytes) :
  length s = 64%nat → length t = 4%nat → length lh = 2%nat → length lp = 3%nat →
  from_bytes lh = Z.of_nat (length h) →
  from_bytes lp = Z.of_nat (length fp) →
  parse_frame (s ++ t ++ lh ++ lp ++ h ++ fp) = (s, from_bytes t, h, fp).
Proof.
  intros Ls Lt Lh Lp Hh Hp.
  set (L := s ++ t ++ lh ++ lp ++ h ++ fp).
  assert (D64 : drop 64 L = t ++ lh ++ lp ++ h ++ fp)
    by (by apply drop_prefix).
  assert (D68 : drop 68 L = lh ++ lp ++ h ++ fp).
  { unfold L. rewrite (assoc_L (++) s t). apply drop_prefix.
    rewrite length_app. lia. }
  assert (D70 : drop 70 L = lp ++ h ++ fp).
  { unfold L. rewrite (assoc_L (++) s t), (assoc_L (++) (s ++ t) lh).
    apply drop_prefix. rewrite !length_app. lia. }
  assert (D73 : drop 73 L = h ++ fp).
  { unfold L.
    rewrite (assoc_L (++) s t), (assoc_L (++) (s ++ t) lh),
      (assoc_L (++) ((s ++ t) ++ lh) lp).
    apply drop_prefix. rewrite !length_app. lia. }
  assert (D73h : drop (73 + length h) L = fp).
  { unfold L.
    rewrite (assoc_L (++) s t), (assoc_L (++) (s ++ t) lh),
      (assoc_L (++) ((s ++ t) ++ lh) lp), (assoc_L (++) (((s ++ t) ++ lh) ++ lp) h).
    apply drop_prefix. rewrite !length_app. lia. }
  unfold parse_frame, slice.
  rewrite drop_0, D64, D68, D70.
  change (64 - 0)%nat with 64%nat. change (68 - 64)%nat with 4%nat.
  change (70 - 68)%nat with 2%nat. change (73 - 70)%nat with 3%nat.
  unfold L at 1. rewrite (take_prefix s) by done.
  rewrite (take_prefix t) by done.
  rewrite (take_prefix lh) by done.
  rewrite (take_prefix lp) by done.
  rewrite Hh, Hp, !Nat2Z.id, D73, D73h.
  replace (73 + length h - 73)%nat with (length h) by lia.
  replace (73 + length h + length fp - (73 + length h))%nat with (length fp) by lia.
  rewrite (take_prefix h) by lia.
  rewrite firstn_all. done.
Qed.

Section frames.
Context `{Collaborators}.
Hypothesis sign_length : ∀ pk m, length (sign pk m) = 64%nat.

(** [recv] cuts a frame produced by [encode] back into the signature, the
    timestamp, the header bytes and the payload region
    [retry || message_id || payload]. *)
Lemma parse_frame_encode session_key t_offset now header payload message_id retry s mm :
  encode session_key t_offset now header payload message_id retry = Ok (s, mm) →
  s = sign session_key mm ∧
  parse_frame (s ++ mm) =
    (s, now - t_offset - 4, ujson_dumps header,
     be_digits 1 retry ++ default [] message_id ++ payload).
Proof.
  unfold encode.
  destruct (to_bytes retry 1) as [rb|] eqn:Er; [|discriminate].
  cbn [mbind result_bind].
  destruct (to_bytes (Z.of_nat (length (ujson_dumps header))) 2) as [lh|] eqn:Eh;
    [|discriminate].
  cbn [mbind result_bind].
  destruct (to_bytes _ 3) as [lp|] eqn:Ep; [|discriminate].
  cbn [mbind result_bind].
  destruct (to_bytes (now - t_offset - 4) 4) as [t|] eqn:Et; [|discriminate].
  cbn [mbind result_bind].
  intros [= <- <-]. split; [done|].
  apply from_to_bytes in Eh as [Hh Lh], Ep as [Hp Lp], Et as [Ht Lt].
  apply to_bytes_Ok in Er as [_ ->].
  rewrite <- !(assoc_L (++)).
  rewrite parse_frame_parts; try done.
  by rewrite Ht.
Qed.
End frames.

(** ** Retransmission and the acknowledgement it gets *)

Section resend.
Context `{Collaborators}.
Hypothesis sign_length : ∀ pk m, length (sign pk m) = 64%nat.
Hypothesis verify_sign : ∀ pk m, verify pk (sign pk m) m = true.

(** With no ack ever arriving, [send] writes three frames: the original
    and two re-encodings that carry the original signature as
    [message_id], with retry bytes 0 and 1. *)
Lemma send_unacked_frames session_key times header payload bundle_id c c' f0 f1 f2 out :
  has_send header = true →
  send session_key times (λ _, false) header payload bundle_id None c
    = (c', [f0; f1; f2], out) →
  ∃ s0 mm0 s1 mm1 s2 mm2,
    encode session_key (t_offset c) (times 0%nat) header payload None 0 = Ok (s0, mm0) ∧
    encode session_key (t_offset c) (times 1%nat) header payload (Some s0) 0 = Ok (s1, mm1) ∧
    encode session_key (t_offset c) (times 2%nat) header payload (Some s0) 1 = Ok (s2, mm2) ∧
    f0 = s0 ++ mm0 ∧ f1 = s1 ++ mm1 ∧ f2 = s2 ++ mm2 ∧
    is_Some (od_get s0 (awaiting_ack c')).
Proof.
  intros Hsend. unfold send. cbn [truthy].
  destruct (encode session_key (t_offset c) (times 0%nat) header payload None 0)
    as [[s0 mm0]|] eqn:E0; [|intros [= _ ?]; discriminate].
  rewrite Hsend. cbn [andb negb].
  change (seq 0 (Z.to_nat MAX_SEND_RETRIES)) with [0%nat; 1%nat; 2%nat].
  cbn [send_loop orb negb].
  change (bool_decide (Z.of_nat 0 < MAX_SEND_RETRIES - 1)) with true.
  change (bool_decide (Z.of_nat 1 < MAX_SEND_RETRIES - 1)) with true.
  change (bool_decide (Z.of_nat 2 < MAX_SEND_RETRIES - 1)) with false.
  change (Z.of_nat 0) with 0. change (Z.of_nat 1) with 1.
  cbn iota.
  destruct (encode session_key (t_offset c) (times 1%nat) header payload (Some s0) 0)
    as [[s1 mm1]|] eqn:E1; [|cbn; intros ?; simplify_eq].
  destruct (encode session_key (t_offset c) (times 2%nat) header payload (Some s0) 1)
    as [[s2 mm2]|] eqn:E2; [|cbn; intros ?; simplify_eq].
  rewrite clear_noop. cbn.
  intros [= <- <- <- <- _].
  exists s0, mm0, s1, mm1, s2, mm2. repeat split; try done.
  cbn. by rewrite od_get_set.
Qed.
(** What [recv] does with a frame of [encode] that it has not seen, for a
    header with the single item [HSend source destination]. *)
Lemma recv_encoded session_key offset time payload message_id retry s mm
    source destination now channels rc seen :
  ujson_loads (ujson_dumps [HSend source destination]) = Ok [HSend source destination] →
  Route.session source = session_key →
  Route.channel destination ∈ channels →
  encode session_key offset time [HSend source destination] payload message_id retry
    = Ok (s, mm) →
  (check_no_repeat now s (time - offset - 4 + t_offset rc) seen).1 = true →
  ∃ b0 region,
    be_digits 1 retry ++ default [] message_id ++ payload = b0 :: region ∧
    (parse_frame (s ++ mm)).2 = b0 :: region ∧
    recv now channels (s ++ mm) rc seen =
      ((check_no_repeat now s (time - offset - 4 + t_offset rc) seen).2,
       if bool_decide (b0 = xff)
       then [CallAck (Route.session source) (slice 1 65 (b0 :: region))]
       else [Reply [HSend destination source]
               (if bool_decide (b0 = x00) then s else slice 1 65 (b0 :: region))
               source destination
               (if bool_decide (b0 = x00) then region else drop 65 (b0 :: region))],
       None).
Proof.
  intros loads_dumps Hsrc Hch Henc Hfresh.
  destruct (parse_frame_encode sign_length _ _ _ _ _ _ _ _ _ Henc) as [Hs Hparse].
  cbn [be_digits app] in *.
  eexists _, _. split; [reflexivity|].
  unfold recv. rewrite Hparse. split; [reflexivity|].
  destruct (check_no_repeat now s _ seen) as [b seen'] eqn:E.
  simpl in Hfresh. subst b.
  rewrite loads_dumps. cbn [recv_loop recv_item].
  rewrite drop_prefix by (rewrite Hs; apply sign_length).
  rewrite Hsrc, Hs, verify_sign, bool_decide_eq_true_2 by done.
  by case_bool_decide.
Qed.

(** C2 (resend ack identity) fails at the first retransmission. When no ack
    arrives, [send] writes the original frame [f0] and re-encodes it with
    [retry = 0], the index of the attempt that timed out. The payload
    region of this first retransmission [f1] is
    [0x00 || original signature || payload]: it does carry the original
    signature in bytes 1..64, but its retry byte equals that of an
    original message. A receiver that has not seen [f1] therefore answers
    with the signature of [f1] itself, not with [full_payload[1:65]], and
    hands [signature || payload] to the channel, while the sender still
    waits under the original signature. The claim requires the ack to
    name the original signature for every retransmission. *)
Theorem first_retransmission_acked_by_own_signature
    session_key source destination payload bundle_id times c c' f0 f1 f2 out
    now channels rc seen :
  ujson_loads (ujson_dumps [HSend source destination]) = Ok [HSend source destination] →
  Route.session source = session_key →
  Route.channel destination ∈ channels →
  send session_key times (λ _, false) [HSend source destination] payload bundle_id None c
    = (c', [f0; f1; f2], out) →
  take 64 f1 ≠ take 64 f0 →
  (check_no_repeat now (take 64 f1)
     (times 1%nat - t_offset c - 4 + t_offset rc) seen).1 = true →
  (parse_frame f1).2 = x00 :: take 64 f0 ++ payload ∧
  slice 1 65 (parse_frame f1).2 = take 64 f0 ∧
  is_Some (od_get (take 64 f0) (awaiting_ack c')) ∧
  ∃ ack_message_id,
    recv now channels f1 rc seen =
      ((check_no_repeat now (take 64 f1)
          (times 1%nat - t_offset c - 4 + t_offset rc) seen).2,
       [Reply [HSend destination source] ack_message_id source destination
          (take 64 f0 ++ payload)],
       None) ∧
    ack_message_id = take 64 f1 ∧
    ack_message_id ≠ slice 1 65 (parse_frame f1).2.
Proof.
  intros Hjson Hsrc Hch Hsend Hne Hfresh.
  apply send_unacked_frames in Hsend
    as (s0 & mm0 & s1 & mm1 & s2 & mm2 & E0 & E1 & E2 & -> & -> & -> & Hkey);
    [|done].
  destruct (parse_frame_encode sign_length _ _ _ _ _ _ _ _ _ E0) as [Hs0 _].
  destruct (parse_frame_encode sign_length _ _ _ _ _ _ _ _ _ E1) as [Hs1 _].
  assert (T0 : take 64 (s0 ++ mm0) = s0)
    by (apply take_prefix; rewrite Hs0; apply sign_length).
  assert (T1 : take 64 (s1 ++ mm1) = s1)
    by (apply take_prefix; rewrite Hs1; apply sign_length).
  rewrite T0, T1 in *.
  destruct (recv_encoded _ _ _ _ _ _ _ _ _ _ now channels rc seen Hjson Hsrc Hch E1 Hfresh)
    as (b0 & region & Hregion & Hparse & Hrecv).
  cbn in Hregion. injection Hregion as <- <-.
  change (byte_of_Z (0 `mod` 256)) with x00 in *.
  rewrite Hparse.
  assert (S1 : slice 1 65 (x00 :: s0 ++ payload) = s0).
  { unfold slice. cbn [drop]. rewrite drop_0.
    apply take_prefix. rewrite Hs0. apply sign_length. }
  rewrite S1.
  split; [done|]. split; [done|]. split; [done|].
  exists s1. by rewrite Hrecv.
Qed.

(** From the second retransmission on the retry byte is non-zero, and the
    receiver does answer with the original signature and passes on the
    payload alone. *)
Lemma second_retransmission_acked_by_original
    session_key source destination payload bundle_id times c c' f0 f1 f2 out
    now channels rc seen :
  ujson_loads (ujson_dumps [HSend source destination]) = Ok [HSend source destination] →
  Route.session source = session_key →
  Route.channel destination ∈ channels →
  send session_key times (λ _, false) [HSend source destination] payload bundle_id None c
    = (c', [f0; f1; f2], out) →
  (check_no_repeat now (take 64 f2)
     (times 2%nat - t_offset c - 4 + t_offset rc) seen).1 = true →
  recv now channels f2 rc seen =
    ((check_no_repeat now (take 64 f2)
        (times 2%nat - t_offset c - 4 + t_offset rc) seen).2,
     [Reply [HSend destination source] (take 64 f0) source destination payload],
     None).
Proof.
  intros Hjson Hsrc Hch Hsend Hfresh.
  apply send_unacked_frames in Hsend
    as (s0 & mm0 & s1 & mm1 & s2 & mm2 & E0 & E1 & E2 & -> & -> & -> & Hkey);
    [|done].
  destruct (parse_frame_encode sign_length _ _ _ _ _ _ _ _ _ E0) as [Hs0 _].
  destruct (parse_frame_encode sign_length _ _ _ _ _ _ _ _ _ E2) as [Hs2 _].
  assert (T0 : take 64 (s0 ++ mm0) = s0)
    by (apply take_prefix; rewrite Hs0; apply sign_length).
  assert (T2 : take 64 (s2 ++ mm2) = s2)
    by (apply take_prefix; rewrite Hs2; apply sign_length).
  rewrite T0, T2 in *.
  destruct (recv_encoded _ _ _ _ _ _ _ _ _ _ now channels rc seen Hjson Hsrc Hch E2 Hfresh)
    as (b0 & region & Hregion & Hparse & Hrecv).
  cbn in Hregion. injection Hregion as <- <-.
  change (byte_of_Z (1 `mod` 256)) with x01 in *.
  rewrite Hrecv.
  rewrite !bool_decide_eq_false_2 by discriminate.
  assert (L0 : length s0 = 64%nat) by (rewrite Hs0; apply sign_length).
  repeat f_equal.
  - unfold slice. cbn [drop]. rewrite drop_0. by apply take_prefix.
  - change (drop 65 (x01 :: s0 ++ payload)) with (drop 64 (s0 ++ payload)).
    by apply drop_prefix.
Qed.
End resend.

Lemma toy_sign_length pk m : length (toy_sign pk m) = 64%nat.
Proof.
  unfold toy_sign. rewrite length_take, length_app, length_replicate. lia.
Qed.

Lemma toy_verify_sign pk m : bool_decide (toy_sign pk m = toy_sign pk m) = true.
Proof. by apply bool_decide_eq_true_2. Qed.

Lemma first_retransmission_witness :
  let sent :=
    @send toy "B" (λ k, 1700000000 + Z.of_nat k) (λ _, false) header_ba
      [x0a; x0b] (Some mid_0) None conn_3 in
  ∃ f0 f1 f2,
    sent.1.2 = [f0; f1; f2] ∧
    take 64 f1 ≠ take 64 f0 ∧
    ∃ ack_message_id,
      (@recv toy 1700000002 {["chanA"]} f1 conn_3 seen_messages_init).1.2 =
        [Reply [HSend route_a route_b] ack_message_id route_b route_a
           (take 64 f0 ++ [x0a; x0b])] ∧
      ack_message_id = take 64 f1 ∧
      ack_message_id ≠ slice 1 65 (@parse_frame f1).2.
Proof.
  set (sent := @send toy "B" (λ k, 1700000000 + Z.of_nat k) (λ _, false) header_ba
                 [x0a; x0b] (Some mid_0) None conn_3).
  assert (Hsent : ∃ f0 f1 f2, sent = (sent.1.1, [f0; f1; f2], sent.2)).
  { vm_compute. eexists _, _, _. reflexivity. }
  destruct Hsent as (f0 & f1 & f2 & Hsent).
  exists f0, f1, f2.
  assert (Hne : take 64 f1 ≠ take 64 f0).
  { revert Hsent. vm_compute. intros [= <- <- <-]. vm_compute. discriminate. }
  destruct (@first_retransmission_acked_by_own_signature toy
              toy_sign_length toy_verify_sign
              "B" route_b route_a [x0a; x0b] (Some mid_0)
              (λ k, 1700000000 + Z.of_nat k) conn_3 sent.1.1 f0 f1 f2 sent.2
              1700000002 {["chanA"]} conn_3 seen_messages_init)
    as (_ & _ & _ & ack_id & Hrecv & Hid & Hdiff).
  - reflexivity.
  - reflexivity.
  - set_solver.
  - exact Hsent.
  - exact Hne.
  - revert Hsent. vm_compute. intros [= <- <- <-]. vm_compute. reflexivity.
  - split; [by rewrite Hsent|]. split; [done|].
    exists ack_id. by rewrite Hrecv.
Defined.

(** ** Token chains *)

Section token_chain.
Context `{Collaborators}.

(** One iteration of the loop, in propositional form. *)
Lemma validate_loop_cons owner issued source_id token_string rest depth asset
    last_receiver max_depth t :
  Token_decode token_string = Some t →
  validate_loop owner issued source_id (token_string :: rest) depth asset
    last_receiver max_depth = true ↔
  Token.asset t = asset ∧
  Token.issuer t = last_receiver ∧
  (Token.issuer t = owner → is_Some (issued !! Token.signature t)) ∧
  (let bound := updated_max_depth (Token.max_depth t) depth max_depth in
   (py_not bound = true ∨ (depth ≤ default O bound)%nat) ∧
   (Token.receiver t = source_id ∨
    validate_loop owner issued source_id rest (S depth)
      (ASignature (Token.signature t)) (Token.receiver t) bound = true)).
Proof.
  intros Hdec. cbn [validate_loop]. rewrite Hdec. cbn zeta.
  repeat case_bool_decide; cbn [andb orb];
    rewrite ?orb_true_r, ?orb_false_r;
    destruct (py_not (updated_max_depth _ _ _)) eqn:Hn; cbn [orb];
    rewrite <- ?not_eq_None_Some in *;
    try (split; [done | intros (?&?&?&[? | ?]&?); naive_solver lia]);
    try (split; [intros ?; naive_solver lia | intros (?&?&?&[? | ?]&[?|?]); naive_solver lia]);
    naive_solver lia.
Qed.
(** Where no zero is declared, the running bound of the code is the bound
    of the specification. *)
Lemma updated_max_depth_spec declared depth max_depth :
  declared ≠ Some O → max_depth ≠ Some O →
  updated_max_depth declared depth max_depth = spec_bound max_depth depth declared ∧
  updated_max_depth declared depth max_depth ≠ Some O.
Proof.
  intros Hd Hm. unfold updated_max_depth, spec_bound.
  destruct declared as [[|m]|], max_depth as [[|b]|]; try done;
    cbn [py_not negb orb default].
  all: try case_bool_decide.
  all: unfold id in *; split; [f_equal; lia | intros [=]; lia].
Qed.

Lemma within_bound_code depth max_depth :
  max_depth ≠ Some O →
  (py_not max_depth = true ∨ (depth ≤ default O max_depth)%nat) ↔
  within_bound depth max_depth.
Proof.
  intros Hm. destruct max_depth as [[|b]|]; try done; cbn; naive_solver.
Qed.

(** On chains that declare no zero depth, the loop accepts exactly the
    chains of the specification. *)
Lemma validate_loop_spec owner issued source_id tokens depth asset last_receiver max_depth :
  no_zero_depth tokens → max_depth ≠ Some O →
  validate_loop owner issued source_id tokens depth asset last_receiver max_depth = true ↔
  chain_authorizes owner issued source_id depth asset last_receiver max_depth tokens.
Proof.
  revert depth asset last_receiver max_depth.
  induction tokens as [|token_string rest IH];
    intros depth asset last_receiver max_depth Hz Hm.
  { split; [done | inversion 1]. }
  assert (Hz' : no_zero_depth rest).
  { intros ts t Hin. apply Hz. by right. }
  destruct (Token_decode token_string) as [t|] eqn:Hdec.
  2:{ cbn [validate_loop]. rewrite Hdec.
      split; [done | inversion 1; congruence]. }
  assert (Hzt : Token.max_depth t ≠ Some O) by (eapply Hz; [left | done]).
  destruct (updated_max_depth_spec _ depth _ Hzt Hm) as [Hb Hb0].
  rewrite (validate_loop_cons _ _ _ _ _ _ _ _ _ t Hdec). cbn zeta.
  rewrite within_bound_code by done.
  rewrite IH by done. rewrite Hb.
  split.
  - intros (Ha & Hi & Hr & Hw & [Hacc | Hcont]).
    + by eapply chain_accept.
    + by eapply chain_continue.
  - inversion 1 as [? ? ? ? ? t' ? Hdec' Hadm Hrecv | ? ? ? ? ? t' ? Hdec' Hadm Hcont];
      subst; rewrite Hdec in Hdec'; injection Hdec' as <-;
      destruct Hadm as (? & ? & ? & ?); naive_solver.
Qed.

(** [validate_token_chain] against the specification, away from declared
    zero depths. *)
Lemma validate_token_chain_spec self session source_id tokens :
  no_zero_depth tokens →
  validate_token_chain self session source_id tokens = true ↔
  spec_accepts self session source_id tokens.
Proof.
  intros Hz. unfold validate_token_chain, spec_accepts.
  destruct (is_public self); [naive_solver|].
  case_bool_decide as Ho; cbn [orb]; [naive_solver|].
  destruct tokens as [|token_string rest]; [naive_solver|].
  rewrite validate_loop_spec by done. naive_solver.
Qed.

(** An empty token list from a non-owner on a non-public channel is
    rejected. *)
Lemma empty_chain_rejected self session source_id :
  is_public self = false → source_id ≠ session_key session →
  validate_token_chain self session source_id [] = false.
Proof.
  intros Hp Ho. unfold validate_token_chain. rewrite Hp.
  by rewrite bool_decide_eq_false_2.
Qed.
(** *** Revocation *)

(** The loop cannot get past an owner-issued token that is not in the
    registry: a chain that contains one is accepted only if the tokens
    before it are accepted on their own. *)
Lemma validate_loop_unregistered owner issued source_id pre token_string post t
    depth asset last_receiver max_depth :
  Token_decode token_string = Some t →
  Token.issuer t = owner →
  issued !! Token.signature t = None →
  validate_loop owner issued source_id pre depth asset last_receiver max_depth = false →
  validate_loop owner issued source_id (pre ++ token_string :: post) depth asset
    last_receiver max_depth = false.
Proof.
  intros Hdec Hiss Hreg.
  revert depth asset last_receiver max_depth.
  induction pre as [|p pre IH]; intros depth asset last_receiver max_depth Hpre.
  - cbn [app validate_loop]. rewrite Hdec.
    destruct (bool_decide _ && bool_decide _); [|done].
    rewrite (bool_decide_eq_true_2 (Token.issuer t = owner)) by done.
    by rewrite (bool_decide_eq_true_2 (issued !! Token.signature t = None)).
  - cbn [app validate_loop] in *.
    destruct (Token_decode p) as [tp|]; [|done].
    destruct (bool_decide _ && bool_decide _); [|done].
    destruct (bool_decide _ && bool_decide _); [done|].
    cbn zeta in *.
    destruct (py_not _ || bool_decide _); [|done].
    destruct (bool_decide (Token.receiver tp = source_id)); [done|].
    by apply IH.
Qed.

(** C5. Once [revoke_token] has removed a signature from [issued_tokens],
    a chain that has to pass through an owner-issued token with that
    signature is rejected: on a non-public channel, for a source other
    than the owner, if the tokens before the revoked one do not already
    authorize the source, the whole chain is refused, whatever follows
    the revoked token. *)
Theorem revoked_token_chain_rejected self session session' revocation source_id
    pre token_string post t :
  revoke_token (Token.signature t) session = Ok (session', revocation) →
  Token_decode token_string = Some t →
  Token.issuer t = session_key session →
  is_public self = false →
  source_id ≠ session_key session →
  validate_token_chain self session' source_id pre = false →
  validate_token_chain self session' source_id (pre ++ token_string :: post) = false.
Proof.
  unfold revoke_token.
  destruct (issued_tokens session !! Token.signature t) as [entry|] eqn:Hreg; [|done].
  intros [= <- <-] Hdec Hiss Hpub Hsrc Hpre.
  unfold validate_token_chain in *. cbn [session_key issued_tokens] in *.
  rewrite Hpub, bool_decide_eq_false_2 in * by done. cbn [orb] in *.
  assert (Hgone : delete (Token.signature t) (issued_tokens session)
                    !! Token.signature t = None) by apply lookup_delete_eq.
  destruct pre as [|p pre].
  - cbn [app validate_loop]. rewrite Hdec.
    destruct (bool_decide _ && bool_decide _); [|done].
    rewrite (bool_decide_eq_true_2 (Token.issuer t = session_key session)) by done.
    by rewrite (bool_decide_eq_true_2 (delete _ _ !! Token.signature t = None)).
  - change ((p :: pre) ++ token_string :: post)
      with (p :: (pre ++ token_string :: post)).
    change (p :: pre ++ token_string :: post)
      with ((p :: pre) ++ token_string :: post).
    by eapply validate_loop_unregistered.
Qed.

(** *** Depth bound *)

(** Past a positive bound the loop refuses at once. *)
Lemma validate_loop_beyond_bound owner issued source_id tokens depth asset last_receiver b :
  (0 < b < depth)%nat →
  validate_loop owner issued source_id tokens depth asset last_receiver (Some b) = false.
Proof.
  intros Hb. destruct tokens as [|token_string rest]; [done|].
  cbn [validate_loop].
  destruct (Token_decode token_string) as [t|]; [|done].
  destruct (bool_decide _ && bool_decide _); [|done].
  destruct (bool_decide _ && bool_decide _); [done|].
  cbn zeta.
  assert (Hu : updated_max_depth (Token.max_depth t) depth (Some b) = Some b).
  { unfold updated_max_depth.
    destruct (Token.max_depth t) as [[|m]|], b as [|b']; try done; try lia.
    cbn [py_not negb orb default from_option]. unfold id.
    by rewrite bool_decide_eq_false_2 by lia. }
  rewrite Hu. destruct b as [|b']; [lia|].
  cbn [py_not orb default from_option]. unfold id.
  by rewrite bool_decide_eq_false_2 by lia.
Qed.

(** A positive bound only shrinks, and stays positive. *)
Lemma updated_max_depth_shrinks declared depth b :
  (0 < b)%nat →
  ∃ b', updated_max_depth declared depth (Some b) = Some b' ∧ (0 < b' ≤ b)%nat.
Proof.
  intros Hb. unfold updated_max_depth.
  destruct declared as [[|m]|], b as [|b0]; try lia;
    cbn [py_not negb orb default from_option]; unfold id.
  - eexists; split; [done | lia].
  - case_bool_decide; eexists; (split; [done | lia]).
  - eexists; split; [done | lia].
Qed.

(** A token that declares a positive [max_depth] leaves a positive bound
    of at most its own index plus that depth. *)
Lemma updated_max_depth_declared m depth max_depth :
  (0 < m)%nat →
  ∃ b', updated_max_depth (Some m) depth max_depth = Some b' ∧ (0 < b' ≤ depth + m)%nat.
Proof.
  intros Hm. unfold updated_max_depth.
  destruct m as [|m]; [lia|].
  destruct max_depth as [[|b]|];
    cbn [py_not negb orb default from_option]; unfold id.
  - eexists; split; [done | lia].
  - case_bool_decide; eexists; (split; [done | lia]).
  - eexists; split; [done | lia].
Qed.

Lemma validate_loop_bounded_prefix owner issued source_id pre rest depth asset
    last_receiver b :
  (0 < b)%nat →
  (b < depth + length pre)%nat →
  validate_loop owner issued source_id pre depth asset last_receiver (Some b) = false →
  validate_loop owner issued source_id (pre ++ rest) depth asset last_receiver (Some b)
    = false.
Proof.
  revert depth asset last_receiver b.
  induction pre as [|p pre IH]; intros depth asset last_receiver b Hb Hlen Hpre.
  - cbn [length] in Hlen. apply validate_loop_beyond_bound. lia.
  - cbn [app validate_loop length] in *.
    destruct (Token_decode p) as [tp|]; [|done].
    destruct (bool_decide _ && bool_decide _); [|done].
    destruct (bool_decide _ && bool_decide _); [done|].
    cbn zeta in *.
    destruct (updated_max_depth_shrinks (Token.max_depth tp) depth b Hb)
      as (b' & Hu & Hb').
    rewrite Hu in *.
    destruct (py_not (Some b') || bool_decide _); [|done].
    destruct (bool_decide (Token.receiver tp = source_id)); [done|].
    apply IH; [lia | lia | done].
Qed.

(** Depth enforcement for positive declared depths. If the token at
    position [j] of [pre] declares [max_depth = m > 0], and [pre] is
    longer than [j + m] without authorizing the source on its own, then
    no continuation of [pre] is accepted: the next token has an index
    beyond [j + m]. *)
Lemma validate_loop_max_depth owner issued source_id pre rest j token_string t m
    depth asset last_receiver max_depth :
  pre !! j = Some token_string →
  Token_decode token_string = Some t →
  Token.max_depth t = Some m →
  (0 < m)%nat →
  (j + m < length pre)%nat →
  validate_loop owner issued source_id pre depth asset last_receiver max_depth = false →
  validate_loop owner issued source_id (pre ++ rest) depth asset last_receiver max_depth
    = false.
Proof.
  intros Hj Hdec Hmd Hm.
  revert j Hj depth asset last_receiver max_depth.
  induction pre as [|p pre IH];
    intros j Hj depth asset last_receiver max_depth Hlen Hpre; [done|].
  cbn [app validate_loop length] in *.
  destruct (Token_decode p) as [tp|] eqn:Hp; [|done].
  destruct (bool_decide _ && bool_decide _); [|done].
  destruct (bool_decide _ && bool_decide _); [done|].
  cbn zeta in *.
  destruct j as [|j].
  - injection Hj as ->. rewrite Hdec in Hp. injection Hp as <-.
    rewrite Hmd in *.
    destruct (updated_max_depth_declared m depth max_depth Hm) as (b' & Hu & Hb').
    rewrite Hu in *.
    destruct (py_not (Some b') || bool_decide _); [|done].
    destruct (bool_decide (Token.receiver t = source_id)); [done|].
    apply validate_loop_bounded_prefix; [lia | lia | done].
  - destruct (py_not _ || bool_decide _); [|done].
    destruct (bool_decide (Token.receiver tp = source_id)); [done|].
    eapply IH; [done | lia | done].
Qed.

(** A declared depth that has run out closes the chain. If the token at
    index [j] declares [max_depth = m > 0] and the list [pre] is longer
    than [j + m], then a non-owner whom [pre] does not authorise on a
    non-public channel is not authorised by any extension of [pre]
    either: the tokens after [pre] are never looked at. *)
Lemma max_depth_enforced self session source_id pre rest j token_string t m :
  is_public self = false →
  source_id ≠ session_key session →
  pre !! j = Some token_string →
  Token_decode token_string = Some t →
  Token.max_depth t = Some m →
  (0 < m)%nat →
  (j + m < length pre)%nat →
  validate_token_chain self session source_id pre = false →
  validate_token_chain self session source_id (pre ++ rest) = false.
Proof.
  intros Hpub Hsrc Hj Hdec Hmd Hm Hlen.
  unfold validate_token_chain. rewrite Hpub, bool_decide_eq_false_2 by done.
  cbn [orb]. destruct pre as [|p pre]; [done|].
  change ((p :: pre) ++ rest) with (p :: (pre ++ rest)).
  change (p :: pre ++ rest) with ((p :: pre) ++ rest).
  by eapply validate_loop_max_depth.
Qed.
End token_chain.

(** *** The chain checks at work *)

Example chain_accepted :
  @validate_token_chain toy channel_a session_a "C" ["AB"; "BC"] = true.
Proof. vm_compute. reflexivity. Qed.

Example chain_within_declared_depth :
  @validate_token_chain toy channel_a session_a "C" ["AB1"; "BC1"] = true.
Proof. vm_compute. reflexivity. Qed.

Example chain_beyond_declared_depth :
  @validate_token_chain toy channel_a session_a "D" ["AB1"; "BC1"; "CD1"] = false.
Proof. vm_compute. reflexivity. Qed.

Lemma revoked_token_chain_witness :
  @validate_token_chain toy channel_a session_a "C" ["AB"; "BC"] = true ∧
  ∃ session',
    revoke_token (sig_n x10) session_a = Ok (session', HTokenRevoke (sig_n x10)) ∧
    @validate_token_chain toy channel_a session' "C" ([] ++ "AB" :: ["BC"]) = false.
Proof.
  split; [vm_compute; reflexivity|].
  eexists. split; [reflexivity|].
  apply (@revoked_token_chain_rejected toy channel_a session_a _
           (HTokenRevoke (sig_n x10)) "C" [] "AB" ["BC"]
           (toy_token "A" "B" (AChannel "chanA") root None (sig_n x10))).
  - reflexivity.
  - reflexivity.
  - reflexivity.
  - reflexivity.
  - discriminate.
  - reflexivity.
Defined.

(** C4 (token-chain validation) fails on a declared depth of zero. Token
    "AB0" is issued by the owner "A" to "B" with [max_depth = 0]; "BC0"
    extends it to "C". By the acceptance condition the bound after index 0
    is [min(infinity, 0 + 0) = 0], so the token at index 1 is out of
    bounds and "C" is not authorized; [validate_token_chain] returns
    [True], because [if token.max_depth:] treats the declared 0 as no
    declaration. *)
Theorem zero_depth_chain_accepted_against_spec :
  @validate_token_chain toy channel_a session_a "C" ["AB0"; "BC0"] = true ∧
  ¬ @spec_accepts toy channel_a session_a "C" ["AB0"; "BC0"].
Proof.
  split; [vm_compute; reflexivity|].
  intros [Hpub | [Hown | [_ Hchain]]]; [discriminate | discriminate |].
  inversion Hchain as [? ? ? ? ? t0 ? Hdec0 _ Hrecv | ? ? ? ? ? t0 ? Hdec0 _ Hcont];
    subst; cbn in Hdec0; injection Hdec0 as <-.
  - discriminate.
  - cbn in Hcont.
    inversion Hcont as [? ? ? ? ? t1 ? Hdec1 Hadm _ | ? ? ? ? ? t1 ? Hdec1 Hadm _];
      subst; cbn in Hdec1; injection Hdec1 as <-;
      destruct Hadm as (_ & _ & _ & Hw); cbn in Hw; lia.
Qed.

(** C6 (max-depth enforcement) fails for the smallest declared value. The
    root token "AB0" at index 0 declares [max_depth = 0], so the claimed
    running bound is [0 + 0 = 0]; the chain ["AB0"; "BC0"] has a token at
    index 1, beyond that bound, and is accepted all the same. With a
    declared depth of 1 the bound is kept: ["AB1"; "BC1"] is accepted and
    ["AB1"; "BC1"; "CD1"] is refused. *)
Theorem zero_max_depth_not_enforced :
  (∃ t0, toy_decode "AB0" = Some t0 ∧
         Token.max_depth t0 = Some 0%nat ∧
         spec_bound None 0 (Token.max_depth t0) = Some 0%nat ∧
         ¬ within_bound 1 (spec_bound None 0 (Token.max_depth t0))) ∧
  @validate_token_chain toy channel_a session_a "C" ["AB0"; "BC0"] = true ∧
  @validate_token_chain toy channel_a session_a "D" ["AB1"; "BC1"; "CD1"] = false.
Proof.
  split.
  - eexists. split; [reflexivity|]. cbn. repeat split; lia.
  - split; vm_compute; reflexivity.
Qed.

(** ** Channel: the sentinel of single-chunk messages *)

Section channel_pipeline.
Context `{Collaborators}.

(** The header fields of a chunk built for [n <> 1]. *)
Lemma plain_chunk_multi payload max_payload mid n i chunk :
  n ≠ 1 →
  plain_chunk payload max_payload mid n i = Ok chunk →
  0 ≤ i < 2 ^ 16 ∧ 0 ≤ n < 2 ^ 16 ∧
  chunk = be_digits 2 i ++ be_digits 2 n ++ mid ++ fragment_piece payload max_payload i.
Proof.
  intros Hn. unfold plain_chunk.
  rewrite bool_decide_eq_false_2 by done.
  case_bool_decide; [done|].
  destruct (to_bytes i 2) as [ib|] eqn:Ei; [|done].
  destruct (to_bytes n 2) as [nb|] eqn:En; [|done].
  cbn. intros [= <-].
  apply to_bytes_Ok in Ei as [Hi ->], En as [Hn' ->].
  change (256 ^ Z.of_nat 2) with (2 ^ 16) in *. done.
Qed.

Lemma be_digits_2_zero n : 0 ≤ n < 2 ^ 16 → be_digits 2 n = [x00; x00] → n = 0.
Proof.
  intros Hn Hz.
  pose proof (from_be_digits 2 n ltac:(lia)) as Hf.
  rewrite Hz in Hf. change (from_bytes [x00; x00]) with 0 in Hf.
  change (256 ^ Z.of_nat 2) with (2 ^ 16) in Hf.
  rewrite Z.mod_small in Hf by lia. done.
Qed.

(** C10. The plaintext of a chunk of a multi-chunk send ([n >= 2]) never
    starts with four zero bytes: its bytes 2 and 3 are the big-endian
    encoding of [n]. The test of [handle_message] therefore sends it to
    the reassembly branch, and reads [n] back from it; the plaintext of a
    single-chunk send starts with the four zero bytes and takes the
    single-frame branch. *)
Theorem sentinel_never_collides payload max_payload mid n i chunk :
  plain_chunk payload max_payload mid n i = Ok chunk →
  (n = 1 → take 4 chunk = replicate 4 x00 ∧ is_single_frame chunk = true) ∧
  (2 ≤ n →
   take 4 chunk ≠ replicate 4 x00 ∧
   is_single_frame chunk = false ∧
   slice 2 4 chunk = be_digits 2 n ∧
   from_bytes (slice 2 4 chunk) = n).
Proof.
  intros Hc. split.
  - intros ->. unfold plain_chunk in Hc. rewrite bool_decide_eq_true_2 in Hc by done.
    injection Hc as <-. unfold is_single_frame.
    change (take 4 (replicate 4 x00 ++ payload)) with (replicate 4 x00).
    by rewrite bool_decide_eq_true_2.
  - intros Hn. apply plain_chunk_multi in Hc as (Hi & Hn' & ->); [|lia].
    assert (Ht : take 4 (be_digits 2 i ++ be_digits 2 n ++ mid
                          ++ fragment_piece payload max_payload i)
                 = be_digits 2 i ++ be_digits 2 n).
    { rewrite (assoc_L (++)). apply take_prefix.
      by rewrite length_app, !be_digits_length. }
    assert (Hs : slice 2 4 (be_digits 2 i ++ be_digits 2 n ++ mid
                             ++ fragment_piece payload max_payload i)
                 = be_digits 2 n).
    { unfold slice. rewrite drop_prefix by apply be_digits_length.
      apply take_prefix, be_digits_length. }
    assert (Hne : be_digits 2 i ++ be_digits 2 n ≠ replicate 4 x00).
    { intros Heq.
      assert (Hd : drop 2 (be_digits 2 i ++ be_digits 2 n) = [x00; x00])
        by (by rewrite Heq).
      rewrite drop_prefix in Hd by apply be_digits_length.
      apply be_digits_2_zero in Hd; lia. }
    rewrite Ht, Hs. unfold is_single_frame. rewrite Ht.
    split; [done|]. split; [by rewrite bool_decide_eq_false_2|].
    split; [done|].
    rewrite from_be_digits by lia.
    change (256 ^ Z.of_nat 2) with (2 ^ 16). apply Z.mod_small. lia.
Qed.
End channel_pipeline.

(** ** Reassembly of fragments *)

Section reassembly.
Context `{Collaborators}.
Hypothesis decrypt_encrypt :
  ∀ own peer chunk nonce, decrypt peer own (encrypt own peer chunk nonce) nonce = Ok chunk.

Lemma set_chunks_id (self : Channel) : set_chunks (chunks self) self = self.
Proof. by destruct self. Qed.

Lemma chunks_set_chunks c (self : Channel) : chunks (set_chunks c self) = c.
Proof. done. Qed.

Lemma set_chunks_twice c c' (self : Channel) :
  set_chunks c' (set_chunks c self) = set_chunks c' self.
Proof. done. Qed.

Lemma feed_singleton session source destination raw (self : Channel) :
  feed session source destination [raw] self
    = handle_message session source destination raw self.
Proof. cbn [feed]. by destruct (handle_message _ _ _ _ _) as [self' [e|]]. Qed.

(** A single-chunk frame is delivered as it is. *)
Lemma handle_message_single session source destination own peer urandom payload
    (self : Channel) :
  validate_token_chain self session (Route.session source) (Route.tokens destination)
    = true →
  Route.channel source = own →
  channel_key self = peer →
  length (urandom 0) = 16%nat →
  handle_message session source destination (single_frame own peer urandom payload) self
    = deliver source payload self.
Proof.
  intros Hval <- <- Hnonce. unfold handle_message, single_frame.
  rewrite Hval, drop_prefix, take_prefix, decrypt_encrypt by done.
  unfold is_single_frame.
  change (take 4 (replicate 4 x00 ++ payload)) with (replicate 4 x00).
  by rewrite bool_decide_eq_true_2.
Qed.

(** The receiver reads the header of a fragment back. *)
Lemma fragment_header_parse i n mid piece :
  0 ≤ i < 2 ^ 16 → 2 ≤ n < 2 ^ 16 → length mid = 4%nat →
  let plain := be_digits 2 i ++ be_digits 2 n ++ mid ++ piece in
  is_single_frame plain = false ∧
  from_bytes (slice 0 2 plain) = i ∧
  from_bytes (slice 2 4 plain) = n ∧
  slice 4 8 plain = mid ∧
  drop 8 plain = piece.
Proof.
  intros Hi Hn Hmid plain.
  assert (Hfrom : ∀ v, 0 ≤ v < 2 ^ 16 → from_bytes (be_digits 2 v) = v).
  { intros v Hv. rewrite from_be_digits by lia.
    change (256 ^ Z.of_nat 2) with (2 ^ 16). apply Z.mod_small. lia. }
  assert (H4 : take 4 plain = be_digits 2 i ++ be_digits 2 n).
  { unfold plain. rewrite (assoc_L (++)). apply take_prefix.
    by rewrite length_app, !be_digits_length. }
  split.
  { unfold is_single_frame. rewrite H4. apply bool_decide_eq_false_2.
    intros Heq.
    assert (Hd : drop 2 (be_digits 2 i ++ be_digits 2 n) = [x00; x00])
      by (by rewrite Heq).
    rewrite drop_prefix in Hd by apply be_digits_length.
    apply be_digits_2_zero in Hd; lia. }
  unfold plain, slice. rewrite drop_0.
  change (2 - 0)%nat with 2%nat. change (4 - 2)%nat with 2%nat.
  change (8 - 4)%nat with 4%nat.
  rewrite (take_prefix (be_digits 2 i)) by apply be_digits_length.
  rewrite (drop_prefix (be_digits 2 i)) by apply be_digits_length.
  rewrite (take_prefix (be_digits 2 n)) by apply be_digits_length.
  rewrite !Hfrom by lia.
  split; [done|]. split; [done|].
  rewrite (assoc_L (++) (be_digits 2 i)).
  rewrite (drop_prefix (be_digits 2 i ++ be_digits 2 n))
    by (by rewrite length_app, !be_digits_length).
  rewrite (take_prefix mid) by done. split; [done|].
  rewrite (assoc_L (++) (be_digits 2 i ++ be_digits 2 n)).
  apply drop_prefix. by rewrite !length_app, !be_digits_length, Hmid.
Qed.

(** What [handle_message] does with fragment [i] of [n]. *)
Lemma handle_message_fragment session source destination own peer urandom payload
    max_payload mid n i (self : Channel) :
  validate_token_chain self session (Route.session source) (Route.tokens destination)
    = true →
  Route.channel source = own →
  channel_key self = peer →
  length (urandom i) = 16%nat →
  length mid = 4%nat →
  2 ≤ n < 2 ^ 16 → 0 ≤ i < 2 ^ 16 →
  handle_message session source destination
    (fragment_frame own peer urandom payload max_payload mid n i) self =
    let fragments :=
      <[i := fragment_piece payload max_payload i]> (default ∅ (chunks self !! mid)) in
    if bool_decide (Z.of_nat (size fragments) = n) then
      match join_chunks fragments 0 (Z.to_nat n) with
      | Raise e => (set_chunks (delete mid (chunks self)) self, Some e)
      | Ok joined => deliver source joined (set_chunks (delete mid (chunks self)) self)
      end
    else (set_chunks (<[mid := fragments]> (chunks self)) self, None).
Proof.
  intros Hval <- <- Hnonce Hmid Hn Hi. unfold handle_message, fragment_frame.
  rewrite Hval, drop_prefix, take_prefix, decrypt_encrypt by done.
  destruct (fragment_header_parse i n mid (fragment_piece payload max_payload i)
              Hi Hn Hmid) as (Hs & Hpi & Hpn & Hpm & Hpc).
  cbn zeta in *. rewrite Hs, Hpi, Hpn, Hpm, Hpc.
  cbn [chunks set_chunks]. rewrite delete_insert_eq.
  done.
Qed.

(** Joining the pieces [first, first+1, ...] gives back a stretch of the
    payload. *)
Lemma join_chunks_pieces (m : gmap Z bytes) payload max_payload first count :
  1 ≤ max_payload → 0 ≤ first →
  (∀ i, first ≤ i < first + Z.of_nat count →
        m !! i = Some (fragment_piece payload max_payload i)) →
  join_chunks m first count =
    Ok (take (count * Z.to_nat max_payload)
          (drop (Z.to_nat first * Z.to_nat max_payload) payload)).
Proof.
  intros Hmax. revert first.
  induction count as [|k IH]; intros first Hfirst Hm; [done|].
  cbn [join_chunks]. rewrite Hm by lia.
  rewrite IH by (try lia; intros i Hi; apply Hm; lia).
  cbn. f_equal. unfold fragment_piece, slice.
  replace (Z.to_nat ((first + 1) * max_payload) - Z.to_nat (first * max_payload))%nat
    with (Z.to_nat max_payload) by nia.
  replace (Z.to_nat (first * max_payload))
    with (Z.to_nat first * Z.to_nat max_payload)%nat by nia.
  replace (Z.to_nat (first + 1) * Z.to_nat max_payload)%nat
    with (Z.to_nat first * Z.to_nat max_payload + Z.to_nat max_payload)%nat by nia.
  rewrite <- drop_drop. apply take_take_drop.
Qed.

Lemma chunk_count_covers max_payload payload :
  1 ≤ max_payload →
  Z.of_nat (length payload) ≤ chunk_count max_payload payload * max_payload.
Proof.
  intros Hmax. unfold chunk_count.
  pose proof (Z.mod_pos_bound (Z.of_nat (length payload) - 1) max_payload ltac:(lia)).
  pose proof (Z.div_mod (Z.of_nat (length payload) - 1) max_payload ltac:(lia)).
  nia.
Qed.
Lemma plain_chunk_fragment payload max_payload mid n i :
  2 ≤ n < 2 ^ 16 → 0 ≤ i < 2 ^ 16 →
  plain_chunk payload max_payload mid n i =
    Ok (be_digits 2 i ++ be_digits 2 n ++ mid ++ fragment_piece payload max_payload i).
Proof.
  intros Hn Hi. unfold plain_chunk.
  rewrite bool_decide_eq_false_2 by lia.
  rewrite bool_decide_eq_false_2 by lia.
  rewrite !to_bytes_fits by (change (256 ^ Z.of_nat 2) with (2 ^ 16); lia).
  done.
Qed.

(** For [2 <= n < 2^16] the generator yields the frames of the indices
    [i, i+1, ..., n-1] and ends without an exception. *)
Lemma encrypt_slice_from_fragments own peer urandom payload max_payload mid n i todo :
  2 ≤ n < 2 ^ 16 → 0 ≤ i → i + Z.of_nat todo ≤ n →
  encrypt_slice_from own peer urandom payload max_payload mid n i todo =
    (fragment_frame own peer urandom payload max_payload mid n <$> seqZ i (Z.of_nat todo),
     None).
Proof.
  intros Hn. revert i. induction todo as [|k IH]; intros i Hi Hle; [done|].
  cbn [encrypt_slice_from].
  rewrite plain_chunk_fragment by lia.
  rewrite IH by lia.
  rewrite (seqZ_cons i) by lia.
  replace (Z.pred (Z.of_nat (S k))) with (Z.of_nat k) by lia.
  done.
Qed.

Lemma encrypt_slice_single own peer urandom payload max_payload mid :
  encrypt_slice own peer urandom payload max_payload mid 1 0 =
    ([single_frame own peer urandom payload], None).
Proof. done. Qed.

(** From [n = 2^16] on nothing is yielded: above [2^16] by the explicit
    guard, at [2^16] because [n] does not fit the two-byte field. *)
Lemma encrypt_slice_too_many own peer urandom payload max_payload mid n :
  2 ^ 16 ≤ n →
  encrypt_slice own peer urandom payload max_payload mid n 0 =
    ([], Some (if bool_decide (n > 2 ^ 16)
               then Exception "Payload size too large"
               else OverflowError)).
Proof.
  intros Hn. unfold encrypt_slice.
  destruct (Z.to_nat (n - 0)) as [|k] eqn:E; [lia|].
  cbn [encrypt_slice_from]. unfold plain_chunk.
  rewrite bool_decide_eq_false_2 by lia.
  case_bool_decide; [done|].
  rewrite (to_bytes_fits 0) by (change (256 ^ Z.of_nat 2) with (2 ^ 16); lia).
  cbn. unfold to_bytes.
  rewrite bool_decide_eq_false_2
    by (change (256 ^ Z.of_nat 2) with (2 ^ 16); lia).
  done.
Qed.

(** Feeding the fragments that are still missing, in any order, to a
    channel that holds the pieces of the indices in [got]. *)
Lemma feed_fragments session source destination own peer urandom payload max_payload
    mid n (self0 : Channel) :
  validate_token_chain self0 session (Route.session source) (Route.tokens destination)
    = true →
  Route.channel source = own →
  channel_key self0 = peer →
  (∀ i, length (urandom i) = 16%nat) →
  length mid = 4%nat →
  2 ≤ n < 2 ^ 16 →
  1 ≤ max_payload →
  Z.of_nat (length payload) ≤ n * max_payload →
  ∀ rest got c,
    got ++ rest ≡ₚ seqZ 0 n →
    rest ≠ [] →
    delete mid c = chunks self0 →
    (∀ i, default ∅ (c !! mid) !! i =
          if decide (i ∈ got) then Some (fragment_piece payload max_payload i) else None) →
    size (default ∅ (c !! mid)) = length got →
    feed session source destination
      (fragment_frame own peer urandom payload max_payload mid n <$> rest)
      (set_chunks c self0)
    = deliver source payload self0.
Proof.
  intros Hval Hown Hpeer Hnonce Hmid Hn Hmax Hcover.
  induction rest as [|j rest IH]; intros got c Hperm Hne Hdel Hlook Hsize; [done|].
  assert (Hlen : length (got ++ j :: rest) = Z.to_nat n)
    by (by rewrite Hperm, length_seqZ).
  assert (Hnodup : NoDup (got ++ j :: rest))
    by (rewrite Hperm; apply NoDup_seqZ).
  assert (Hrange : ∀ i, i ∈ got ++ j :: rest ↔ 0 ≤ i < n).
  { intros i. rewrite Hperm, elem_of_seqZ. lia. }
  assert (Hj : 0 ≤ j < n) by (apply Hrange; set_solver).
  assert (Hjdone : j ∉ got).
  { apply NoDup_app in Hnodup as (_ & Hdisj & _). intros Hin.
    apply (Hdisj j Hin). left. }
  cbn [fmap list_fmap feed].
  fold (fmap (M:=list) (fragment_frame own peer urandom payload max_payload mid n)).
  rewrite (handle_message_fragment session source destination own peer)
    by (try done; lia).
  cbn zeta. rewrite !chunks_set_chunks, !set_chunks_twice.
  set (fragments := <[j := fragment_piece payload max_payload j]> (default ∅ (c !! mid))).
  assert (Hfsize : size fragments = S (length got)).
  { unfold fragments. rewrite map_size_insert_None, Hsize; [done|].
    rewrite Hlook. by rewrite decide_False. }
  assert (Hflook : ∀ i, fragments !! i =
            if decide (i ∈ got ++ [j])
            then Some (fragment_piece payload max_payload i) else None).
  { intros i. unfold fragments. destruct (decide (i = j)) as [->|Hij].
    - rewrite lookup_insert_eq. rewrite decide_True by set_solver. done.
    - rewrite lookup_insert_ne by done. rewrite Hlook.
      destruct (decide (i ∈ got)).
      + rewrite decide_True by set_solver. done.
      + rewrite decide_False by set_solver. done. }
  rewrite length_app in Hlen. cbn [length] in Hlen.
  destruct rest as [|j' rest]; cbn [length] in Hlen.
  - rewrite bool_decide_eq_true_2 by lia.
    rewrite (join_chunks_pieces _ payload max_payload) by
      (try lia; intros i Hi; rewrite Hflook;
       rewrite decide_True by (apply Hrange; lia); done).
    rewrite Hdel, set_chunks_id.
    change (Z.to_nat 0) with 0%nat. rewrite Nat.mul_0_l, drop_0.
    rewrite take_ge by (rewrite <- Z2Nat.inj_mul by lia; lia).
    cbn [fmap list_fmap feed].
    by destruct (deliver source payload self0) as [self' [e|]].
  - rewrite bool_decide_eq_false_2 by (cbn [length] in Hlen; lia).
    apply (IH (got ++ [j]) (<[mid := fragments]> c)).
    + by rewrite <- (assoc_L (++)).
    + done.
    + by rewrite delete_insert_eq.
    + intros i. rewrite lookup_insert_eq. apply Hflook.
    + rewrite lookup_insert_eq. cbn. rewrite Hfsize, length_app. cbn. lia.
Qed.

(** Below [2^16] chunks the frames reassemble, in any order. *)
Lemma reassembles_below_limit own peer urandom payload max_payload mid :
  reassembles (2 ^ 16 - 1) own peer urandom payload max_payload mid.
Proof.
  unfold reassembles. cbn zeta.
  intros Hmax Hmid Hnonce Hn.
  pose proof (chunk_count_covers max_payload payload Hmax) as Hcover.
  set (n := chunk_count max_payload payload) in *.
  destruct (decide (n = 1)) as [Hone | Hmulti].
  - rewrite Hone. eexists. split; [apply encrypt_slice_single|]. split; [done|].
    intros session source destination arrivals self Hval Hown Hpeer Hnone Hperm.
    apply Permutation_singleton_r in Hperm as ->.
    rewrite feed_singleton.
    rewrite (handle_message_single session source destination own peer) by done.
    split; [done|]. unfold deliver.
    by destruct (body_bytes payload ≫= bson_loads).
  - eexists. split.
    { unfold encrypt_slice. apply encrypt_slice_from_fragments; lia. }
    split; [rewrite length_fmap, length_seqZ; lia|].
    intros session source destination arrivals self Hval Hown Hpeer Hnone Hperm.
    replace (Z.of_nat (Z.to_nat (n - 0))) with n in Hperm by lia.
    apply Permutation_map_inv in Hperm as (order & -> & Hperm).
    symmetry in Hperm.
    assert (Hfeed :
      feed session source destination
        (fragment_frame own peer urandom payload max_payload mid n <$> order)
        (set_chunks (chunks self) self) = deliver source payload self).
    { apply (feed_fragments session source destination own peer urandom payload
               max_payload mid n self) with (got := []); try done; try lia.
      - intros ->. apply Permutation_length in Hperm.
        rewrite length_seqZ in Hperm. cbn in Hperm. lia.
      - by apply delete_id.
      - intros i. rewrite Hnone. cbn. by rewrite lookup_empty.
      - by rewrite Hnone. }
    rewrite set_chunks_id in Hfeed.
    change (map ?f ?l) with (f <$> l).
    rewrite Hfeed. split; [done|]. unfold deliver.
    by destruct (body_bytes payload ≫= bson_loads).
Qed.

End reassembly.

Lemma toy_decrypt_encrypt own peer chunk nonce :
  @decrypt toy peer own (@encrypt toy own peer chunk nonce) nonce = Ok chunk.
Proof. cbn. by rewrite rev_involutive. Qed.

Lemma toy_urandom_length i : length (toy_urandom i) = 16%nat.
Proof. apply length_replicate. Qed.

(** C7 (chunking round trip) fails at [n = 2^16]. A payload of [2^16]
    bytes with [max_payload = 1] gives [n = 2^16], which the guard
    [n > 2**16] lets through; [n.to_bytes(2, 'big')] then raises
    [OverflowError] for the first chunk, so the generator yields no frame
    at all and nothing is reassembled. The guard is one too wide for the
    two-byte count field. *)
Theorem chunking_fails_at_65536 :
  @chunk_count 1 big_payload = 2 ^ 16 ∧
  @encrypt_slice toy "chanB" "chanA" toy_urandom big_payload 1 mid_0 (2 ^ 16) 0
    = ([], Some OverflowError) ∧
  ¬ @reassembles toy (2 ^ 16) "chanB" "chanA" toy_urandom big_payload 1 mid_0.
Proof.
  assert (Hcount : @chunk_count 1 big_payload = 2 ^ 16) by (vm_compute; reflexivity).
  assert (Henc : @encrypt_slice toy "chanB" "chanA" toy_urandom big_payload 1 mid_0
                   (2 ^ 16) 0 = ([], Some OverflowError)).
  { rewrite encrypt_slice_too_many by lia. by rewrite bool_decide_eq_false_2 by lia. }
  split; [done|]. split; [done|].
  unfold reassembles. cbn zeta. rewrite Hcount. intros Hround.
  destruct Hround as (frames & Hframes & _).
  - lia.
  - reflexivity.
  - apply toy_urandom_length.
  - lia.
  - rewrite Henc in Hframes. discriminate.
Qed.

Lemma sentinel_never_collides_witness :
  @plain_chunk small_payload 2 mid_0 3 1
    = Ok [x00; x01; x00; x03; xde; xad; xbe; xef; x65; x6c] ∧
  is_single_frame [x00; x01; x00; x03; xde; xad; xbe; xef; x65; x6c] = false ∧
  from_bytes (slice 2 4 [x00; x01; x00; x03; xde; xad; xbe; xef; x65; x6c]) = 3.
Proof.
  assert (Hc : @plain_chunk small_payload 2 mid_0 3 1
                 = Ok [x00; x01; x00; x03; xde; xad; xbe; xef; x65; x6c])
    by (vm_compute; reflexivity).
  split; [exact Hc|].
  destruct (sentinel_never_collides small_payload 2 mid_0 3 1 _ Hc) as [_ Hmulti].
  destruct Hmulti as (_ & Hs & _ & Hn); [lia|].
  split; [exact Hs | exact Hn].
Defined.

(** ** The generator under the recursion limit, and the compression flag *)

Section nested_generator.
Context `{Collaborators}.

(** With room for the generator that finds the end, and for the calls of
    the last one that yields, the nesting does not show. *)
Lemma encrypt_slice_nested_room room calls own peer urandom payload max_payload mid n :
  ∀ i todo, (todo < room)%nat → (0 < todo → todo + calls ≤ room)%nat →
    encrypt_slice_nested room calls own peer urandom payload max_payload mid n i todo =
    encrypt_slice_from own peer urandom payload max_payload mid n i todo.
Proof.
  induction room as [|room IH]; intros i todo Hroom Hcalls; [lia|].
  destruct todo as [|todo]; [done|].
  cbn [encrypt_slice_nested encrypt_slice_from].
  destruct (plain_chunk payload max_payload mid n i); [|done].
  rewrite bool_decide_eq_false_2 by lia.
  by rewrite IH by lia.
Qed.

(** With less room, the generator yields the items whose generators and
    calls fit and then raises [RecursionError]. *)
Lemma encrypt_slice_nested_short room calls own peer urandom payload max_payload mid n :
  ∀ i todo frames,
    ¬ ((todo < room)%nat ∧ (0 < todo → todo + calls ≤ room)%nat) →
    encrypt_slice_from own peer urandom payload max_payload mid n i todo = (frames, None) →
    encrypt_slice_nested room calls own peer urandom payload max_payload mid n i todo =
      (take (room - calls) frames, Some RecursionError).
Proof.
  induction room as [|room IH]; intros i todo frames Hroom Hall; [done|].
  destruct todo as [|todo]; [exfalso; apply Hroom; lia|].
  cbn [encrypt_slice_nested encrypt_slice_from] in *.
  destruct (plain_chunk payload max_payload mid n i); [|by destruct frames].
  destruct (encrypt_slice_from own peer urandom payload max_payload mid n (i + 1) todo)
    as [rest out] eqn:Hrest.
  injection Hall as <- ->.
  case_bool_decide as Hcalls.
  - by replace (S room - calls)%nat with 0%nat by lia.
  - rewrite (IH (i + 1) todo rest ltac:(lia) Hrest).
    by replace (S room - calls)%nat with (S (room - calls)) by lia.
Qed.

Lemma encrypt_slice_in_room room calls own peer urandom payload max_payload mid n :
  1 ≤ n < Z.of_nat room → n + Z.of_nat calls ≤ Z.of_nat room →
  encrypt_slice_in room calls own peer urandom payload max_payload mid n 0 =
  encrypt_slice own peer urandom payload max_payload mid n 0.
Proof.
  intros Hroom Hcalls. unfold encrypt_slice_in, encrypt_slice.
  apply encrypt_slice_nested_room; lia.
Qed.

Lemma encrypt_slice_in_short room calls own peer urandom payload max_payload mid n frames :
  1 ≤ n →
  ¬ (n < Z.of_nat room ∧ n + Z.of_nat calls ≤ Z.of_nat room) →
  encrypt_slice own peer urandom payload max_payload mid n 0 = (frames, None) →
  encrypt_slice_in room calls own peer urandom payload max_payload mid n 0 =
    (take (room - calls) frames, Some RecursionError).
Proof.
  intros Hn Hroom Hall. unfold encrypt_slice_in, encrypt_slice in *.
  apply encrypt_slice_nested_short; [lia | done].
Qed.

(** From [n = 2^16] on nothing is yielded, whatever the room. *)
Lemma encrypt_slice_in_too_many room calls own peer urandom payload max_payload mid n :
  2 ^ 16 ≤ n →
  (encrypt_slice_in room calls own peer urandom payload max_payload mid n 0).1 = [] ∧
  ∃ e, (encrypt_slice_in room calls own peer urandom payload max_payload mid n 0).2
         = Some e.
Proof.
  intros Hn.
  pose proof (encrypt_slice_too_many own peer urandom payload max_payload mid n Hn)
    as Hold.
  unfold encrypt_slice_in, encrypt_slice in *.
  destruct room as [|room]; [by eauto|].
  destruct (Z.to_nat (n - 0)) as [|todo] eqn:E; [lia|].
  cbn [encrypt_slice_nested encrypt_slice_from] in *.
  destruct (plain_chunk payload max_payload mid n 0); [|by eauto].
  by destruct (encrypt_slice_from own peer urandom payload max_payload mid n (0 + 1) todo).
Qed.
End nested_generator.

Section compression.
Context `{Collaborators}.
Hypothesis decrypt_encrypt :
  ∀ own peer chunk nonce, decrypt peer own (encrypt own peer chunk nonce) nonce = Ok chunk.

Lemma body_bytes_compress_payload max_compression encoded :
  zlib_decompress (zlib_compress encoded) = Ok encoded →
  body_bytes (compress_payload max_compression encoded) = Ok encoded.
Proof.
  intros Hz. unfold compress_payload. case_bool_decide; [|done].
  cbn [body_bytes]. rewrite bool_decide_eq_false_2 by discriminate.
  by rewrite bool_decide_eq_true_2.
Qed.

Lemma chunk_count_positive max_payload payload :
  1 ≤ max_payload → payload ≠ [] → 1 ≤ chunk_count max_payload payload.
Proof.
  intros Hmax Hne. unfold chunk_count.
  assert (1 ≤ Z.of_nat (length payload)) by (destruct payload; [done | cbn; lia]).
  pose proof (Z.div_pos (Z.of_nat (length payload) - 1) max_payload). lia.
Qed.

Lemma chunk_count_one max_payload flag body :
  1 ≤ max_payload → Z.of_nat (length body) < max_payload →
  chunk_count max_payload (flag :: body) = 1.
Proof.
  intros Hmax Hlen. unfold chunk_count. cbn [length].
  rewrite Z.div_small by lia. done.
Qed.

(** The frames of the send path, with room for the generator, are
    reassembled and handed to the flag dispatch, in any order of
    arrival. *)
Lemma send_frames_delivered room calls own peer urandom max_compression max_payload
    encoded mid session source destination arrivals (self : Channel) :
  1 ≤ max_payload →
  length mid = 4%nat →
  (∀ i, length (urandom i) = 16%nat) →
  chunk_count max_payload (compress_payload max_compression encoded) < 2 ^ 16 →
  chunk_count max_payload (compress_payload max_compression encoded) < Z.of_nat room →
  chunk_count max_payload (compress_payload max_compression encoded) + Z.of_nat calls
    ≤ Z.of_nat room →
  validate_token_chain self session (Route.session source) (Route.tokens destination)
    = true →
  Route.channel source = own →
  channel_key self = peer →
  chunks self !! mid = None →
  arrivals ≡ₚ
    (send_frames room calls own peer urandom max_compression max_payload encoded mid).1 →
  (send_frames room calls own peer urandom max_compression max_payload encoded mid).2
    = None ∧
  feed session source destination arrivals self =
    deliver source (compress_payload max_compression encoded) self.
Proof.
  intros Hmax Hmid Hnonce Hn Hroom Hcalls Hval Hown Hpeer Hnone Hperm.
  unfold send_frames in *. cbn zeta in *.
  set (payload := compress_payload max_compression encoded) in *.
  assert (Hne : payload ≠ []) by (unfold payload, compress_payload; by case_bool_decide).
  pose proof (chunk_count_positive max_payload payload Hmax Hne) as Hpos.
  rewrite encrypt_slice_in_room in * by lia.
  destruct (reassembles_below_limit decrypt_encrypt own peer urandom payload
              max_payload mid Hmax Hmid Hnonce ltac:(lia))
    as (frames & Henc & _ & Hfeed).
  rewrite Henc in *. cbn [fst snd] in *. split; [done|].
  by destruct (Hfeed session source destination arrivals self Hval Hown Hpeer Hnone Hperm).
Qed.

(** C8. The compression flag, from [Channel.send] to the inbox. A payload
    [p] shorter than the compression limit is cut and encrypted as
    [0xff || zlib(p)], any other as [0x00 || p]; when that fits one chunk,
    the one frame written carries exactly these bytes behind the four
    zero bytes. On the receive side [handle_message] reads the flag at
    [payload[4]] of a single-chunk message: with [0x00] it decodes the
    rest as it is, with [0xff] it decompresses the rest first. Together:
    from the frames of the send path, in any order of arrival, the
    receiver's flag dispatch gets exactly the flagged bytes and puts
    [bson.loads(p)] in the inbox, given that [zlib.decompress] inverts
    [zlib.compress], that [n] is below [2^16] and that the interpreter
    has room for the generator and its calls. *)
Theorem compression_flag_roundtrip room calls own peer urandom max_compression max_payload
    p mid session source destination (self : Channel) :
  zlib_decompress (zlib_compress p) = Ok p →
  1 ≤ max_payload →
  length mid = 4%nat →
  (∀ i, length (urandom i) = 16%nat) →
  validate_token_chain self session (Route.session source) (Route.tokens destination)
    = true →
  Route.channel source = own →
  channel_key self = peer →
  chunks self !! mid = None →
  let flagged :=
    if bool_decide (Z.of_nat (length p) < max_compression)
    then xff :: zlib_compress p else x00 :: p in
  let n := chunk_count max_payload flagged in
  let sent := send_frames room calls own peer urandom max_compression max_payload p mid in
  let queued obj :=
    {| channel_key := channel_key self; is_public := is_public self;
       chunks := chunks self; messages := (source, obj) :: messages self;
       lock := true |} in
  sent = encrypt_slice_in room calls own peer urandom flagged max_payload mid n 0 ∧
  ((1 < room)%nat → (1 + calls ≤ room)%nat → Z.of_nat (length flagged) ≤ max_payload →
   sent = ([single_frame own peer urandom flagged], None)) ∧
  (∀ body,
     handle_message session source destination
       (single_frame own peer urandom (x00 :: body)) self =
     match bson_loads body with
     | Ok obj => (queued obj, None)
     | Raise e => (self, Some e)
     end) ∧
  (∀ body,
     handle_message session source destination
       (single_frame own peer urandom (xff :: body)) self =
     match zlib_decompress body ≫= bson_loads with
     | Ok obj => (queued obj, None)
     | Raise e => (self, Some e)
     end) ∧
  (n < 2 ^ 16 → n < Z.of_nat room → n + Z.of_nat calls ≤ Z.of_nat room →
   ∀ arrivals, arrivals ≡ₚ sent.1 →
     sent.2 = None ∧
     feed session source destination arrivals self = deliver source flagged self ∧
     deliver source flagged self =
       match bson_loads p with
       | Ok obj => (queued obj, None)
       | Raise e => (self, Some e)
       end).
Proof.
  intros Hz Hmax Hmid Hnonce Hval Hown Hpeer Hnone. cbn zeta.
  change (if bool_decide (Z.of_nat (length p) < max_compression)
          then xff :: zlib_compress p else x00 :: p)
    with (compress_payload max_compression p).
  set (flagged := compress_payload max_compression p).
  assert (Hflag : ∃ flag body, flagged = flag :: body)
    by (unfold flagged, compress_payload; case_bool_decide; by eexists _, _).
  split; [done|]. split; [|split; [|split]].
  - intros Hroom Hcalls Hfits. destruct Hflag as (flag & body & Hflag).
    unfold send_frames. cbn zeta. fold flagged. rewrite Hflag in *.
    cbn [length] in Hfits.
    rewrite chunk_count_one by lia.
    rewrite encrypt_slice_in_room by lia. apply encrypt_slice_single.
  - intros body.
    rewrite (handle_message_single decrypt_encrypt session source destination own peer)
      by done.
    unfold deliver. cbn [body_bytes]. rewrite bool_decide_eq_true_2 by done.
    cbn [mbind result_bind]. by destruct (bson_loads body).
  - intros body.
    rewrite (handle_message_single decrypt_encrypt session source destination own peer)
      by done.
    unfold deliver. cbn [body_bytes]. rewrite bool_decide_eq_false_2 by discriminate.
    rewrite bool_decide_eq_true_2 by done.
    by destruct (zlib_decompress body ≫= bson_loads).
  - intros Hn Hroom Hcalls arrivals Hperm.
    destruct (send_frames_delivered room calls own peer urandom max_compression
                max_payload p mid session source destination arrivals self)
      as [Hend Hfeed]; try done.
    split; [done|]. split; [done|]. unfold deliver, flagged.
    rewrite (body_bytes_compress_payload _ _ Hz). cbn [mbind result_bind].
    by destruct (bson_loads p).
Qed.
End compression.

Lemma compression_flag_roundtrip_witness :
  @send_frames toy 2 1 "chanB" "chanA" toy_urandom MAX_COMPRESSION_LEN 8 [x68; x69] mid_0 =
    ([@single_frame toy "chanB" "chanA" toy_urandom [xff; x78; x68; x69]], None) ∧
  @send_frames toy 2 1 "chanB" "chanA" toy_urandom 2 8 [x68; x69] mid_0 =
    ([@single_frame toy "chanB" "chanA" toy_urandom [x00; x68; x69]], None) ∧
  messages
    (@feed toy session_a route_b route_a_ab
       (@send_frames toy 2 1 "chanB" "chanA" toy_urandom MAX_COMPRESSION_LEN 8 [x68; x69]
          mid_0).1 channel_a).1 = [(route_b, [x68; x69])] ∧
  messages
    (@feed toy session_a route_b route_a_ab
       (rev (@send_frames toy 4 1 "chanB" "chanA" toy_urandom 2 2 [x68; x69] mid_0).1)
       channel_a).1 = [(route_b, [x68; x69])].
Proof.
  destruct (@compression_flag_roundtrip toy toy_decrypt_encrypt 2 1 "chanB" "chanA"
              toy_urandom MAX_COMPRESSION_LEN 8 [x68; x69] mid_0 session_a route_b
              route_a_ab channel_a)
    as (_ & Hzip & _ & _ & Hround);
    [reflexivity | lia | reflexivity | apply toy_urandom_length
     | vm_compute; reflexivity | reflexivity | reflexivity | reflexivity |].
  destruct (@compression_flag_roundtrip toy toy_decrypt_encrypt 2 1 "chanB" "chanA"
              toy_urandom 2 8 [x68; x69] mid_0 session_a route_b
              route_a_ab channel_a)
    as (_ & Hraw & _);
    [reflexivity | lia | reflexivity | apply toy_urandom_length
     | vm_compute; reflexivity | reflexivity | reflexivity | reflexivity |].
  destruct (@compression_flag_roundtrip toy toy_decrypt_encrypt 4 1 "chanB" "chanA"
              toy_urandom 2 2 [x68; x69] mid_0 session_a route_b
              route_a_ab channel_a)
    as (_ & _ & _ & _ & Hmulti);
    [reflexivity | lia | reflexivity | apply toy_urandom_length
     | vm_compute; reflexivity | reflexivity | reflexivity | reflexivity |].
  split; [apply Hzip; [lia | lia | vm_compute; discriminate]|].
  split; [apply Hraw; [lia | lia | vm_compute; discriminate]|].
  split.
  - destruct (Hround ltac:(vm_compute; reflexivity) ltac:(vm_compute; reflexivity)
                ltac:(vm_compute; discriminate) _ (Permutation_refl _)) as (_ & -> & ->).
    reflexivity.
  - destruct (Hmulti ltac:(vm_compute; reflexivity) ltac:(vm_compute; reflexivity)
                ltac:(vm_compute; discriminate) _ (symmetry (Permutation_rev _)))
      as (_ & -> & ->).
    reflexivity.
Defined.

(** * Further properties *)

(** ** The replay cache, continued *)

Lemma check_no_repeat_effect now sig ts s :
  let s' := (check_no_repeat now sig ts s).2 in
  ((check_no_repeat now sig ts s).1 = true →
   now - 60 ≤ ts ≤ now ∧ sig ∈ bucket0 s' ∪ bucket1 s' ∧
   bucket0 s' ⊆ bucket0 s ∪ {[sig]} ∧ bucket1 s' ⊆ bucket1 s ∪ {[sig]}) ∧
  ((check_no_repeat now sig ts s).1 = false →
   bucket0 s' ⊆ bucket0 s ∧ bucket1 s' ⊆ bucket1 s) ∧
  (¬ (now - 60 ≤ ts ≤ now) → (check_no_repeat now sig ts s).1 = false).
Proof.
  cbn zeta. unfold check_no_repeat.
  set (s1 := if bool_decide (idx2 s ≠ (now / 60) mod 2)
             then clear_bucket ((now / 60) mod 2) s else s).
  assert (Hs1 : bucket0 s1 ⊆ bucket0 s ∧ bucket1 s1 ⊆ bucket1 s).
  { unfold s1, clear_bucket. repeat case_bool_decide; cbn [bucket0 bucket1]; set_solver. }
  destruct Hs1 as [H0 H1]. clearbody s1.
  destruct (bool_decide (now - 60 ≤ ts ≤ now)) eqn:Hw.
  - apply bool_decide_eq_true in Hw.
    destruct (bool_decide (sig ∉ bucket0 s1 ∪ bucket1 s1)) eqn:Hn; cbn [fst snd].
    + split; [|split; [discriminate | intros Hc; exfalso; exact (Hc Hw)]].
      intros _. split; [done|].
      unfold add_bucket. clear Hn.
      destruct (bool_decide ((now / 60) mod 2 = 0)); cbn [bucket0 bucket1]; set_solver.
    + split; [discriminate|]. split; [done | intros Hc; exfalso; exact (Hc Hw)].
  - apply bool_decide_eq_false in Hw. cbn [fst snd].
    split; [discriminate|]. split; done.
Qed.

(** A call records a signature only when it accepts it, and it accepts
    only inside the 60-second window: an accepted signature is in a bucket
    afterwards and its timestamp lies in [[now - 60, now]]; a refused call
    adds nothing to either bucket. *)
Theorem check_no_repeat_records_only_accepted now sig ts s :
  let s' := (check_no_repeat now sig ts s).2 in
  ((check_no_repeat now sig ts s).1 = true →
   now - 60 ≤ ts ≤ now ∧ sig ∈ bucket0 s' ∪ bucket1 s' ∧
   bucket0 s' ⊆ bucket0 s ∪ {[sig]} ∧ bucket1 s' ⊆ bucket1 s ∪ {[sig]}) ∧
  ((check_no_repeat now sig ts s).1 = false →
   bucket0 s' ⊆ bucket0 s ∧ bucket1 s' ⊆ bucket1 s) ∧
  (¬ (now - 60 ≤ ts ≤ now) → (check_no_repeat now sig ts s).1 = false).
Proof.
  exact (check_no_repeat_effect now sig ts s).
Qed.

Lemma even_minute_replay_rejected_witness :
  (check_no_repeat 1700000040 sig_a 1700000040 seen_messages_init).1 = true ∧
  (check_no_repeat 1700000095 sig_a 1700000090
     (run_calls [ {| call_now := 1700000070; call_sig := sig_n x62;
                     call_ts := 1700000069 |} ]
        (check_no_repeat 1700000040 sig_a 1700000040 seen_messages_init).2).2).1
    = false.
Proof.
  assert (Hacc : (check_no_repeat 1700000040 sig_a 1700000040 seen_messages_init).1
                 = true) by (vm_compute; reflexivity).
  split; [exact Hacc|].
  apply (even_minute_replay_rejected 1700000040 sig_a 1700000040 seen_messages_init).
  - reflexivity.
  - reflexivity.
  - exact Hacc.
Defined.

Lemma odd_minute_replay_accepted_witness :
  (check_no_repeat 1700000100 sig_a 1700000100 seen_messages_init).1 = true ∧
  (check_no_repeat 1700000130 sig_a 1700000125
     (check_no_repeat 1700000100 sig_a 1700000100 seen_messages_init).2).1 = true.
Proof.
  assert (Hacc : (check_no_repeat 1700000100 sig_a 1700000100 seen_messages_init).1
                 = true) by (vm_compute; reflexivity).
  split; [exact Hacc|].
  apply (odd_minute_replay_accepted 1700000100 sig_a 1700000100 seen_messages_init).
  - reflexivity.
  - reflexivity.
  - reflexivity.
  - cbn. set_solver.
  - exact Hacc.
  - lia.
Defined.

(** ** Frames, continued *)

Lemma od_set_fresh {V} k (v : V) (d : list (bytes * V)) :
  od_get k d = None → od_set k v d = d ++ [(k, v)].
Proof.
  induction d as [|[k' v'] d IH]; [done|].
  cbn [od_get od_set]. case_bool_decide; [done|].
  intros Hd. cbn. by rewrite IH.
Qed.

Lemma od_remove_set {V} k (v : V) (d : list (bytes * V)) :
  od_remove k (od_set k v d) = od_remove k d.
Proof.
  unfold od_remove. induction d as [|[k' v'] d IH]; cbn [od_set].
  - rewrite filter_cons. cbn. by rewrite decide_False by (intros Hc; by apply Hc).
  - case_bool_decide as Hk.
    + subst k'. rewrite !filter_cons. cbn.
      by rewrite !decide_False by (intros Hc; by apply Hc).
    + rewrite !filter_cons. cbn. rewrite !decide_True by done. by rewrite IH.
Qed.

Lemma od_remove_absent {V} k (d : list (bytes * V)) :
  od_get k d = None → od_remove k d = d.
Proof.
  unfold od_remove. induction d as [|[k' v'] d IH]; [done|].
  cbn [od_get]. case_bool_decide as Hk; [done|].
  intros Hd. rewrite filter_cons. cbn. rewrite decide_True by done.
  by rewrite IH.
Qed.

Section frames_more.
Context `{Collaborators}.
Hypothesis sign_length : ∀ pk m, length (sign pk m) = 64%nat.

Lemma to_bytes_cases v len :
  match to_bytes v len with
  | Ok b => 0 ≤ v < 256 ^ Z.of_nat len ∧ b = be_digits len v
  | Raise e => e = OverflowError ∧ ¬ (0 ≤ v < 256 ^ Z.of_nat len)
  end.
Proof. unfold to_bytes. by case_bool_decide. Qed.

(** [int] of a float is at least [0] exactly above [-1], and below
    [2^32] exactly below [2^32]. *)
Lemma py_int_fits v :
  0 ≤ py_int v < 2 ^ 32 ↔ (inject_Z (-1) < v)%Q ∧ (v < inject_Z (2 ^ 32))%Q.
Proof.
  destruct v as [p q]. unfold py_int, Qlt. cbn [Qnum Qden inject_Z].
  pose proof (Pos2Z.is_pos q) as Hq.
  destruct (decide (0 ≤ p)) as [Hp | Hp].
  - rewrite Z.quot_div_nonneg by lia.
    pose proof (Z.div_mod p (Z.pos q) ltac:(lia)).
    pose proof (Z.mod_pos_bound p (Z.pos q) ltac:(lia)).
    split; intros; nia.
  - replace p with (- - p) by lia. rewrite Z.quot_opp_l by lia.
    rewrite Z.quot_div_nonneg by lia.
    pose proof (Z.div_mod (- p) (Z.pos q) ltac:(lia)).
    pose proof (Z.mod_pos_bound (- p) (Z.pos q) ltac:(lia)).
    split; intros; nia.
Qed.

Lemma py_int_whole z : py_int (inject_Z z) = z.
Proof. unfold py_int. cbn [Qnum Qden inject_Z]. apply Z.quot_1_r. Qed.

(** Every run of the code's [encode] is [encode] at a whole second. *)
Lemma encode_at_whole session_key elapsed header payload message_id retry :
  encode_at session_key elapsed header payload message_id retry =
  encode session_key 0 (py_int elapsed + 4) header payload message_id retry.
Proof.
  unfold encode_at, encode.
  by replace (py_int elapsed + 4 - 0 - 4) with (py_int elapsed) by lia.
Qed.

(** On a whole second the two agree. *)
Lemma encode_on_the_second session_key offset now header payload message_id retry :
  encode session_key offset now header payload message_id retry =
  encode_at session_key (inject_Z (now - offset - 4)) header payload message_id retry.
Proof. unfold encode_at, encode. by rewrite py_int_whole. Qed.

(** [encode] fails only by overflow of a field, and exactly then: [retry]
    outside one byte, a header longer than two bytes can count, a payload
    region longer than three bytes can count, or a clock reading
    [time.time() - t_offset - 4] that is [-1] or less, or [2^32] or more;
    a reading between [-1] and [0] is written as timestamp [0]. When it
    succeeds the signature covers everything after it, the frame has the
    length its fields add up to and begins with [int] of the reading. *)
Theorem encode_overflow_exactly session_key elapsed header payload message_id retry :
  match encode_at session_key elapsed header payload message_id retry with
  | Ok (s, mm) =>
      frame_fits elapsed header payload message_id retry ∧
      s = sign session_key mm ∧
      length mm = (4 + 2 + 3 + length (ujson_dumps header) + 1
                   + length (default [] message_id) + length payload)%nat ∧
      take 4 mm = be_digits 4 (py_int elapsed)
  | Raise e =>
      e = OverflowError ∧ ¬ frame_fits elapsed header payload message_id retry
  end.
Proof.
  unfold encode_at, frame_fits.
  pose proof (to_bytes_cases retry 1) as Hr.
  destruct (to_bytes retry 1) as [rb|e]; cbn [mbind result_bind];
    [destruct Hr as [Hr ->] | destruct Hr as [-> Hr]; split; [done | tauto]].
  pose proof (to_bytes_cases (Z.of_nat (length (ujson_dumps header))) 2) as Hh.
  destruct (to_bytes _ 2) as [lh|e]; cbn [mbind result_bind];
    [destruct Hh as [Hh ->]
    | destruct Hh as [-> Hh]; split; [done|];
      change (256 ^ Z.of_nat 2) with (2 ^ 16) in Hh; lia].
  pose proof (to_bytes_cases
                (Z.of_nat (length ((be_digits 1 retry ++ default [] message_id)
                                   ++ payload))) 3) as Hp.
  change (256 ^ Z.of_nat 3) with (2 ^ 24) in Hp.
  destruct (to_bytes _ 3) as [lp|e]; cbn [mbind result_bind];
    [destruct Hp as [Hp ->]
    | destruct Hp as [-> Hp]; split; [done|];
      rewrite !length_app, be_digits_length in Hp; lia].
  rewrite !length_app, be_digits_length in Hp.
  pose proof (to_bytes_cases (py_int elapsed) 4) as Ht.
  change (256 ^ Z.of_nat 4) with (2 ^ 32) in Ht.
  destruct (to_bytes _ 4) as [t|e]; cbn [mbind result_bind];
    [destruct Ht as [Ht ->]; apply py_int_fits in Ht
    | destruct Ht as [-> Ht]; rewrite py_int_fits in Ht; split; [done | tauto]].
  change (256 ^ Z.of_nat 1) with (2 ^ 8) in Hr.
  change (256 ^ Z.of_nat 2) with (2 ^ 16) in Hh.
  split; [split; [lia|]; split; [lia|]; split; [lia | exact Ht]|]. split; [done|].
  split.
  - rewrite !length_app, !be_digits_length. lia.
  - by rewrite take_app_length' by (symmetry; apply be_digits_length).
Qed.

(** Frame round trip: what [recv] cuts out of a frame built by [encode]
    is the signature, the timestamp [now - t_offset - 4], the header bytes
    and the payload region [retry || message_id || payload]. *)
Theorem frame_roundtrip session_key offset now header payload message_id retry s mm :
  encode session_key offset now header payload message_id retry = Ok (s, mm) →
  parse_frame (s ++ mm) =
    (s, now - offset - 4, ujson_dumps header,
     be_digits 1 retry ++ default [] message_id ++ payload) ∧
  take 64 (s ++ mm) = s ∧ drop 64 (s ++ mm) = mm.
Proof.
  intros Henc.
  destruct (parse_frame_encode sign_length _ _ _ _ _ _ _ _ _ Henc) as [Hs Hp].
  split; [done|].
  assert (length s = 64%nat) by (rewrite Hs; apply sign_length).
  split; [by apply take_prefix | by apply drop_prefix].
Qed.

(** [recv] on a frame of [encode], for any header that survives the JSON
    round trip: the replay check decides, then the header loop runs on the
    payload region. *)
Lemma recv_encoded_loop session_key offset time header payload message_id retry s mm
    now channels rc seen :
  ujson_loads (ujson_dumps header) = Ok header →
  encode session_key offset time header payload message_id retry = Ok (s, mm) →
  recv now channels (s ++ mm) rc seen =
    let checked := check_no_repeat now s (time - offset - 4 + t_offset rc) seen in
    if checked.1 then
      (checked.2,
       (recv_loop channels s (s ++ mm)
          (be_digits 1 retry ++ default [] message_id ++ payload) header).1,
       (recv_loop channels s (s ++ mm)
          (be_digits 1 retry ++ default [] message_id ++ payload) header).2)
    else (checked.2, [], None).
Proof.
  intros Hjson Henc.
  destruct (parse_frame_encode sign_length _ _ _ _ _ _ _ _ _ Henc) as [Hs Hparse].
  unfold recv. rewrite Hparse. cbn zeta.
  destruct (check_no_repeat now s _ seen) as [[] seen']; cbn [fst snd]; [|done].
  rewrite Hjson. by destruct (recv_loop _ _ _ _ _).
Qed.

End frames_more.

(** ** Sending, acknowledging, receiving: how they compose *)

Section exchange.
Context `{Collaborators}.
Hypothesis sign_length : ∀ pk m, length (sign pk m) = 64%nat.
Hypothesis verify_sign : ∀ pk m, verify pk (sign pk m) m = true.

Lemma recv_loop_single channels s message region source destination :
  recv_loop channels s message region [HSend source destination] =
    match recv_item channels s message region (HSend source destination) with
    | Raise e => ([], Some e)
    | Ok effects => (effects, None)
    end.
Proof.
  cbn [recv_loop]. destruct (recv_item _ _ _ _ _); [|done]. by rewrite app_nil_r.
Qed.

(** A [send] that needs no ack, or is acked in its first attempt, writes
    one frame and returns. *)
Lemma send_first_attempt session_key times acked header payload bundle_id
    ack_message_id c s mm :
  encode session_key (t_offset c) (times 0%nat) header payload ack_message_id
    (if truthy ack_message_id then 255 else 0) = Ok (s, mm) →
  has_send header && negb (truthy ack_message_id) = false ∨ acked 0%nat = true →
  send session_key times acked header payload bundle_id ack_message_id c =
    (if has_send header && negb (truthy ack_message_id)
     then register s header bundle_id c else c,
     [s ++ mm], None).
Proof.
  intros Henc Hone. unfold send. rewrite Henc.
  change (seq 0 (Z.to_nat MAX_SEND_RETRIES)) with [0%nat; 1%nat; 2%nat].
  cbn [send_loop fst snd].
  destruct (has_send header && negb (truthy ack_message_id)) eqn:He; cbn [negb orb].
  - destruct Hone as [Hone | Hone]; [done|]. by rewrite Hone.
  - done.
Qed.

(** An original message reaches the channel intact and is acknowledged by
    its own signature. When the frame of a message with the single header
    item [('send', {source, destination})] is acked in the first attempt,
    [send] writes that one frame and returns; the registration before the
    loop records the header under the frame's signature; a peer that hosts
    the destination channel and sees the frame for the first time replies
    with an ack for exactly that signature and hands exactly the payload
    to the channel. *)
Theorem original_message_delivered session_key times acked source destination payload
    bundle_id c s mm now channels rc seen :
  ujson_loads (ujson_dumps [HSend source destination]) = Ok [HSend source destination] →
  Route.session source = session_key →
  Route.channel destination ∈ channels →
  encode session_key (t_offset c) (times 0%nat) [HSend source destination] payload
    None 0 = Ok (s, mm) →
  acked 0%nat = true →
  (check_no_repeat now s (times 0%nat - t_offset c - 4 + t_offset rc) seen).1 = true →
  let sent :=
    send session_key times acked [HSend source destination] payload bundle_id None c in
  sent.1.2 = [s ++ mm] ∧
  sent.2 = None ∧
  (entry_header <$> od_get s
     (awaiting_ack (register s [HSend source destination] bundle_id c)))
    = Some [HSend source destination] ∧
  recv now channels (s ++ mm) rc seen =
    ((check_no_repeat now s (times 0%nat - t_offset c - 4 + t_offset rc) seen).2,
     [Reply [HSend destination source] s source destination payload], None).
Proof.
  intros Hjson Hsrc Hch Henc Hack Hfresh. cbn zeta.
  rewrite (send_first_attempt _ _ _ _ _ _ _ _ s mm) by (try done; by right).
  cbn [fst snd].
  split; [done|]. split; [done|]. split.
  - cbn. by rewrite od_get_set.
  - rewrite (recv_encoded_loop sign_length _ _ _ _ _ _ _ _ _ _ _ _ _ Hjson Henc).
    cbn zeta. rewrite Hfresh, recv_loop_single. cbn [recv_item].
    destruct (parse_frame_encode sign_length _ _ _ _ _ _ _ _ _ Henc) as [Hs _].
    rewrite drop_prefix by (rewrite Hs; apply sign_length).
    rewrite Hsrc, Hs, verify_sign, bool_decide_eq_true_2 by done.
    done.
Qed.

(** An ack travels as a frame with retry byte 255 that carries the
    acknowledged signature: [send] with an [ack_message_id] writes one
    frame, records nothing and waits for nothing; the peer that hosts the
    destination channel passes exactly that id, with the sender's session,
    to [ack], and neither replies nor delivers anything. *)
Theorem ack_frame_dispatched session_key times acked source destination bundle_id
    ack_id c s mm now channels rc seen :
  ujson_loads (ujson_dumps [HSend source destination]) = Ok [HSend source destination] →
  Route.session source = session_key →
  Route.channel destination ∈ channels →
  length ack_id = 64%nat →
  encode session_key (t_offset c) (times 0%nat) [HSend source destination] []
    (Some ack_id) 255 = Ok (s, mm) →
  (check_no_repeat now s (times 0%nat - t_offset c - 4 + t_offset rc) seen).1 = true →
  send session_key times acked [HSend source destination] [] bundle_id (Some ack_id) c =
    (c, [s ++ mm], None) ∧
  recv now channels (s ++ mm) rc seen =
    ((check_no_repeat now s (times 0%nat - t_offset c - 4 + t_offset rc) seen).2,
     [CallAck session_key ack_id], None).
Proof.
  intros Hjson Hsrc Hch Hlen Henc Hfresh.
  assert (Htruthy : truthy (Some ack_id) = true) by (by destruct ack_id).
  split.
  - rewrite (send_first_attempt _ _ _ _ _ _ _ _ s mm).
    + by rewrite Htruthy, andb_false_r.
    + by rewrite Htruthy.
    + left. by rewrite Htruthy, andb_false_r.
  - rewrite (recv_encoded_loop sign_length _ _ _ _ _ _ _ _ _ _ _ _ _ Hjson Henc).
    cbn zeta. rewrite Hfresh, recv_loop_single. cbn [recv_item].
    destruct (parse_frame_encode sign_length _ _ _ _ _ _ _ _ _ Henc) as [Hs _].
    rewrite drop_prefix by (rewrite Hs; apply sign_length).
    rewrite Hsrc, Hs, verify_sign, bool_decide_eq_true_2 by done.
    change (be_digits 1 255) with [xff]. cbn [app default from_option id].
    rewrite bool_decide_eq_true_2 by done.
    unfold slice. cbn [drop]. rewrite drop_0, app_nil_r.
    by rewrite firstn_all2 by lia.
Qed.

(** Frames for a channel this session does not host are ignored: no ack is
    sent and nothing is delivered. *)
Theorem recv_ignores_unhosted_channel session_key offset time source destination payload
    message_id retry s mm now channels rc seen :
  ujson_loads (ujson_dumps [HSend source destination]) = Ok [HSend source destination] →
  Route.session source = session_key →
  Route.channel destination ∉ channels →
  encode session_key offset time [HSend source destination] payload message_id retry
    = Ok (s, mm) →
  (recv now channels (s ++ mm) rc seen).1.2 = [] ∧
  (recv now channels (s ++ mm) rc seen).2 = None.
Proof.
  intros Hjson Hsrc Hch Henc.
  rewrite (recv_encoded_loop sign_length _ _ _ _ _ _ _ _ _ _ _ _ _ Hjson Henc).
  cbn zeta. destruct (check_no_repeat _ _ _ _).1; [|done].
  rewrite recv_loop_single. cbn [recv_item].
  destruct (parse_frame_encode sign_length _ _ _ _ _ _ _ _ _ Henc) as [Hs _].
  rewrite drop_prefix by (rewrite Hs; apply sign_length).
  rewrite Hsrc, Hs, verify_sign, bool_decide_eq_false_2 by done.
  done.
Qed.
End exchange.

Section handshake.
Context `{Collaborators}.
Hypothesis sign_length : ∀ pk m, length (sign pk m) = 64%nat.
Hypothesis verify_sign : ∀ pk m, verify pk (sign pk m) m = true.

(** The ack handshake clears the in-flight entry. A sender with connection
    [c] sends a message from [source] to [destination]; the peer, with
    connection [rc], receives the frame and replies as [recv] tells it to;
    the sender receives the reply and calls [ack] as [recv] tells it to.
    Afterwards the entry that [send] recorded is gone, every other entry
    of [awaiting_ack] is as before the send, and the lock of the message
    is set. *)
Theorem ack_handshake_clears_entry sender_key peer_key source destination payload
    bundle_id c rc t0 t1 now1 now2 sender_channels peer_channels seen_peer seen_sender
    s0 mm0 s1 mm1 :
  ujson_loads (ujson_dumps [HSend source destination]) = Ok [HSend source destination] →
  ujson_loads (ujson_dumps [HSend destination source]) = Ok [HSend destination source] →
  Route.session source = sender_key →
  Route.session destination = peer_key →
  Route.channel source ∈ sender_channels →
  Route.channel destination ∈ peer_channels →
  encode sender_key (t_offset c) t0 [HSend source destination] payload None 0
    = Ok (s0, mm0) →
  encode peer_key (t_offset rc) t1 [HSend destination source] [] (Some s0) 255
    = Ok (s1, mm1) →
  (check_no_repeat now1 s0 (t0 - t_offset c - 4 + t_offset rc) seen_peer).1 = true →
  (check_no_repeat now2 s1 (t1 - t_offset rc - 4 + t_offset c) seen_sender).1 = true →
  let c1 := register s0 [HSend source destination] bundle_id c in
  (recv now1 peer_channels (s0 ++ mm0) rc seen_peer).1.2
    = [Reply [HSend destination source] s0 source destination payload] ∧
  (recv now2 sender_channels (s1 ++ mm1) c1 seen_sender).1.2
    = [CallAck peer_key s0] ∧
  let c2 := (ack peer_key s0 c1).1 in
  (ack peer_key s0 c1).2 = None ∧
  awaiting_ack c2 = od_remove s0 (awaiting_ack c) ∧
  od_get s0 (awaiting_ack c2) = None ∧
  events c2 !! fresh (dom (events c)) = Some true.
Proof.
  intros Hj1 Hj2 Hsrc Hdst Hcs Hcp Henc0 Henc1 Hf1 Hf2 c1.
  destruct (parse_frame_encode sign_length _ _ _ _ _ _ _ _ _ Henc0) as [Hs0 _].
  destruct (parse_frame_encode sign_length _ _ _ _ _ _ _ _ _ Henc1) as [Hs1 _].
  assert (L0 : length s0 = 64%nat) by (rewrite Hs0; apply sign_length).
  split; [|split].
  - rewrite (recv_encoded_loop sign_length _ _ _ _ _ _ _ _ _ _ _ _ _ Hj1 Henc0).
    cbn zeta. rewrite Hf1. cbn [fst snd]. rewrite recv_loop_single. cbn [recv_item].
    rewrite drop_prefix by (rewrite Hs0; apply sign_length).
    by rewrite Hsrc, Hs0, verify_sign, bool_decide_eq_true_2 by done.
  - rewrite (recv_encoded_loop sign_length _ _ _ _ _ _ _ _ _ _ _ _ _ Hj2 Henc1).
    cbn zeta. change (t_offset c1) with (t_offset c). rewrite Hf2. cbn [fst snd].
    rewrite recv_loop_single. cbn [recv_item].
    rewrite drop_prefix by (rewrite Hs1; apply sign_length).
    rewrite Hdst, Hs1, verify_sign, bool_decide_eq_true_2 by done.
    change (be_digits 1 255) with [xff]. cbn [app default from_option id].
    rewrite bool_decide_eq_true_2 by done.
    unfold slice. cbn [drop fst]. rewrite drop_0, app_nil_r.
    by rewrite firstn_all2 by lia.
  - cbn zeta. rewrite ack_characterised.
    assert (Hget : od_get s0 (awaiting_ack c1)
                   = Some {| entry_header := [HSend source destination];
                             entry_bundle_id := bundle_id;
                             entry_lock := fresh (dom (events c)) |})
      by (cbn; by rewrite od_get_set).
    rewrite Hget. cbn [entry_header]. rewrite filter_cons.
    cbn [targets]. rewrite bool_decide_eq_true_2 by done.
    rewrite decide_True by done. rewrite filter_nil. cbn [fst snd].
    destruct (released_spec s0
                {| entry_header := [HSend source destination];
                   entry_bundle_id := bundle_id;
                   entry_lock := fresh (dom (events c)) |} c1)
      as (Hnone & _ & Hlock & _).
    rewrite awaiting_ack_released.
    split; [done|]. split; [cbn; apply od_remove_set|].
    split; [by rewrite <- (awaiting_ack_released s0
                              {| entry_header := [HSend source destination];
                                 entry_bundle_id := bundle_id;
                                 entry_lock := fresh (dom (events c)) |})|].
    exact Hlock.
Qed.
End handshake.

(** ** The retry loop of [send] *)

Section retry_loop.
Context `{Collaborators}.

Lemma send_loop_bounds session_key offset times acked expect_ack header payload
    message_id first count frame :
  let r := send_loop session_key offset times acked expect_ack header payload message_id
             (seq first count) frame in
  (length r.1 ≤ count)%nat ∧
  (r.2 = Some None →
   expect_ack = false ∨
   (0 < length r.1)%nat ∧ acked (first + length r.1 - 1)%nat = true) ∧
  (r.2 = None →
   length r.1 = count ∧
   (0 < count → expect_ack = true)%nat ∧
   ∀ k, (first ≤ k < first + count)%nat → acked k = false).
Proof.
  revert first frame. induction count as [|n IH]; intros first frame.
  { cbn. split; [done|]. split; [done|]. intros _. split; [done|].
    split; [lia | intros k Hk; lia]. }
  cbn [seq send_loop]. cbn zeta.
  destruct expect_ack; cbn [negb orb].
  2:{ cbn. split; [lia|]. split; [by left | done]. }
  destruct (acked first) eqn:Ha.
  { cbn. split; [lia|]. split; [|done]. intros _. right. split; [lia|].
    by replace (first + 1 - 1)%nat with first by lia. }
  destruct (if bool_decide _ then _ else _) as [frame'|e].
  2:{ cbn. split; [lia|]. split; done. }
  specialize (IH (S first) frame'). cbn zeta in IH.
  destruct (send_loop _ _ _ _ _ _ _ _ (seq (S first) n) frame') as [sent out].
  cbn [fst snd length] in *. destruct IH as (Hlen & Hret & Hout).
  split; [lia|]. split.
  - intros Ho. destruct (Hret Ho) as [Hc | [Hpos Hk]]; [done|].
    right. split; [lia|].
    by replace (first + S (length sent) - 1)%nat
      with (S first + length sent - 1)%nat by lia.
  - intros Ho. destruct (Hout Ho) as (Hl & _ & Hall).
    split; [lia|]. split; [done|].
    intros k Hk. destruct (decide (k = first)) as [->|]; [done|].
    apply Hall. lia.
Qed.

(** The frames and the end of a run of [send] in which every
    [expect_ack] returns. *)
Lemma send_outcomes session_key times acked header payload bundle_id ack_message_id c :
  let r := send session_key times acked header payload bundle_id ack_message_id c in
  (Z.of_nat (length r.1.2) ≤ MAX_SEND_RETRIES) ∧
  (r.2 = None →
   has_send header && negb (truthy ack_message_id) = false ∨
   (0 < length r.1.2)%nat ∧ acked (length r.1.2 - 1)%nat = true) ∧
  (has_send header && negb (truthy ack_message_id) = true →
   (∀ k, acked k = false) → r.2 ≠ None).
Proof.
  cbn zeta. unfold send.
  destruct (encode _ _ _ _ _ _ _) as [[s mm]|e].
  2:{ cbn. split; [done|]. split; [done|]. done. }
  pose proof (send_loop_bounds session_key (t_offset c) times acked
                (has_send header && negb (truthy ack_message_id)) header payload s
                0 (Z.to_nat MAX_SEND_RETRIES) (s, mm)) as Hb.
  cbn zeta in Hb.
  destruct (send_loop _ _ _ _ _ _ _ _ _ _) as [sent [out|]];
    cbn [fst snd] in *; destruct Hb as (Hlen & Hret & Hout).
  - split; [unfold MAX_SEND_RETRIES in *; lia|]. split.
    + intros ->. by destruct (Hret eq_refl) as [? | [? ?]]; [left | right].
    + intros He Hall ->. destruct (Hret eq_refl) as [Hc | [_ Hk]]; [congruence|].
      rewrite Hall in Hk. done.
  - rewrite clear_noop. cbn [fst snd].
    split; [unfold MAX_SEND_RETRIES in *; lia|]. split; done.
Qed.

Lemma send_unacked_result session_key times header payload bundle_id c
    s0 mm0 s1 mm1 s2 mm2 :
  has_send header = true →
  encode session_key (t_offset c) (times 0%nat) header payload None 0 = Ok (s0, mm0) →
  encode session_key (t_offset c) (times 1%nat) header payload (Some s0) 0 = Ok (s1, mm1) →
  encode session_key (t_offset c) (times 2%nat) header payload (Some s0) 1 = Ok (s2, mm2) →
  send session_key times (λ _, false) header payload bundle_id None c =
    (register s0 header bundle_id c, [s0 ++ mm0; s1 ++ mm1; s2 ++ mm2],
     Some (Exception "Max send retries reached")).
Proof.
  intros Hsend E0 E1 E2. unfold send. cbn [truthy]. rewrite E0, Hsend.
  cbn [andb negb].
  change (seq 0 (Z.to_nat MAX_SEND_RETRIES)) with [0%nat; 1%nat; 2%nat].
  cbn [send_loop orb negb].
  change (bool_decide (Z.of_nat 0 < MAX_SEND_RETRIES - 1)) with true.
  change (bool_decide (Z.of_nat 1 < MAX_SEND_RETRIES - 1)) with true.
  change (bool_decide (Z.of_nat 2 < MAX_SEND_RETRIES - 1)) with false.
  change (Z.of_nat 0) with 0. change (Z.of_nat 1) with 1.
  cbn iota. rewrite E1, E2. by rewrite clear_noop.
Qed.

(** With its lock set, the paced loop is the loop of [send_loop]. *)
Lemma send_loop_paced_set session_key offset times released acked expects header payload
    message_id retries :
  ∀ frame,
    send_loop_paced session_key offset times released acked expects header payload
      message_id true retries frame =
    ((send_loop session_key offset times acked expects header payload message_id
        retries frame).1,
     send_end <$>
       (send_loop session_key offset times acked expects header payload message_id
          retries frame).2).
Proof.
  induction retries as [|retry rest IH]; intros frame; [done|].
  cbn [send_loop_paced send_loop expect_ack orb].
  destruct expects; cbn [negb orb]; [|done].
  destruct (acked retry); [done|].
  destruct (if bool_decide _ then _ else _) as [frame'|e]; [|done].
  rewrite IH. by destruct (send_loop _ _ _ _ _ _ _ _ rest frame').
Qed.

(** So is it when the lock is released while the first attempt waits. *)
Lemma send_loop_paced_released session_key offset times released acked expects header
    payload message_id lock_set retries frame :
  lock_set = true ∨ released (hd 0%nat retries) = true ∨ expects = false →
  send_loop_paced session_key offset times released acked expects header payload
    message_id lock_set retries frame =
  ((send_loop session_key offset times acked expects header payload message_id
      retries frame).1,
   send_end <$>
     (send_loop session_key offset times acked expects header payload message_id
        retries frame).2).
Proof.
  intros Hfree. rewrite <- send_loop_paced_set with (released := released).
  destruct retries as [|retry rest]; [done|].
  cbn [send_loop_paced expect_ack hd] in *.
  destruct expects; cbn [negb]; [|done].
  destruct Hfree as [-> | [Hrel | ?]]; [done | | done].
  rewrite Hrel. by destruct lock_set.
Qed.

(** [send_paced] is [send] whenever the message's lock is set at
    registration or released later, or nothing is waited for. *)
Lemma send_paced_released session_key times released acked header payload bundle_id
    ack_message_id c :
  awaiting_ack c = [] ∨ released 0%nat = true ∨
    has_send header && negb (truthy ack_message_id) = false →
  send_paced session_key times released acked header payload bundle_id ack_message_id c =
    ((send session_key times acked header payload bundle_id ack_message_id c).1,
     send_end (send session_key times acked header payload bundle_id ack_message_id c).2).
Proof.
  intros Hfree. unfold send_paced, send.
  destruct (encode _ _ _ _ _ _ _) as [[s mm]|e]; [|done].
  rewrite send_loop_paced_released.
  2:{ change (seq 0 (Z.to_nat MAX_SEND_RETRIES)) with [0%nat; 1%nat; 2%nat].
      cbn [hd]. destruct Hfree as [-> | [? | ?]]; [by left | by right; left | by right; right]. }
  destruct (send_loop _ _ _ _ _ _ _ _ _ _) as [sent [out|]]; [done|].
  cbn [fst snd fmap option_fmap option_map].
  by destruct (clear bundle_id _) as [c2 [e|]].
Qed.

(** A message registered behind others whose lock is never released:
    one frame is written, and [send] stays in the first wait. *)
Lemma send_paced_starved session_key times released acked header payload bundle_id c s mm :
  has_send header = true →
  encode session_key (t_offset c) (times 0%nat) header payload None 0 = Ok (s, mm) →
  awaiting_ack c ≠ [] →
  released 0%nat = false →
  send_paced session_key times released acked header payload bundle_id None c =
    (register s header bundle_id c, [s ++ mm], Suspended).
Proof.
  intros Hsend Henc Hbusy Hheld. unfold send_paced. cbn [truthy].
  rewrite Henc, Hsend. cbn [andb negb].
  change (seq 0 (Z.to_nat MAX_SEND_RETRIES)) with [0%nat; 1%nat; 2%nat].
  cbn [send_loop_paced negb expect_ack].
  by rewrite bool_decide_eq_false_2, Hheld by done.
Qed.

(** [send] never writes more than [MAX_SEND_RETRIES] frames. It returns
    only when no ack is expected or the ack for the last frame written
    arrived. It stays suspended for ever exactly when an ack is expected,
    the message was registered behind others and nothing ever sets its
    lock; one frame has been written then. When an ack is expected and
    none arrives, it never returns: it raises if its lock is set or gets
    set, and stays suspended otherwise. *)
Theorem send_bounded session_key times released acked header payload bundle_id
    ack_message_id c :
  let r :=
    send_paced session_key times released acked header payload bundle_id
      ack_message_id c in
  let expects := has_send header && negb (truthy ack_message_id) in
  (Z.of_nat (length r.1.2) ≤ MAX_SEND_RETRIES) ∧
  (r.2 = Returned →
   expects = false ∨ (0 < length r.1.2)%nat ∧ acked (length r.1.2 - 1)%nat = true) ∧
  (r.2 = Suspended →
   expects = true ∧ awaiting_ack c ≠ [] ∧ released 0%nat = false ∧
   length r.1.2 = 1%nat) ∧
  (expects = true → (∀ k, acked k = false) →
   r.2 ≠ Returned ∧
   (awaiting_ack c = [] ∨ released 0%nat = true → ∃ e, r.2 = Raised e)).
Proof.
  cbn zeta.
  destruct (send_outcomes session_key times acked header payload bundle_id
              ack_message_id c) as (Hlen & Hret & Hexh).
  destruct (decide (awaiting_ack c = [] ∨ released 0%nat = true ∨
                    has_send header && negb (truthy ack_message_id) = false))
    as [Hfree | Hheld].
  - rewrite send_paced_released by done. cbn [fst snd].
    destruct (send _ _ _ _ _ _ _ _).2 as [e|] eqn:Hout; cbn [send_end].
    + split; [done|]. split; [done|]. split; [done|].
      intros _ _. split; [done|]. intros _. by exists e.
    + split; [done|]. split; [intros _; by apply Hret|]. split; [done|].
      intros He Hall. by destruct (Hexh He Hall).
  - assert (Hbusy : awaiting_ack c ≠ []) by tauto.
    assert (Hrel : released 0%nat = false)
      by (destruct (released 0%nat); [tauto | done]).
    assert (Hexp : has_send header && negb (truthy ack_message_id) = true)
      by (destruct (has_send header && negb (truthy ack_message_id)); [done | tauto]).
    unfold send_paced.
    destruct (encode _ _ _ _ _ _ _) as [[s mm]|e]; cbn [fst snd length].
    2:{ split; [done|]. split; [done|]. split; [done|].
        intros _ _. split; [done|]. intros _. by exists e. }
    rewrite Hexp.
    change (seq 0 (Z.to_nat MAX_SEND_RETRIES)) with [0%nat; 1%nat; 2%nat].
    cbn [send_loop_paced negb expect_ack].
    rewrite bool_decide_eq_false_2, Hrel by done. cbn [orb fst snd length].
    split; [done|]. split; [done|]. split; [done|].
    intros _ _. split; [done|]. intros [? | ?]; [done | congruence].
Qed.

(** When no ack arrives and the three encodings succeed: a message whose
    lock is set at registration (nothing else in flight) or released
    later is written three times - the original frame and two
    re-encodings that carry the original signature, with retry bytes 0
    and 1 - and [send] raises ['Max send retries reached']; a message
    registered behind others whose lock is never released is written once
    and [send] never comes back. *)
Theorem send_exhausts_retries session_key times released header payload bundle_id c
    s0 mm0 s1 mm1 s2 mm2 :
  has_send header = true →
  encode session_key (t_offset c) (times 0%nat) header payload None 0 = Ok (s0, mm0) →
  encode session_key (t_offset c) (times 1%nat) header payload (Some s0) 0 = Ok (s1, mm1) →
  encode session_key (t_offset c) (times 2%nat) header payload (Some s0) 1 = Ok (s2, mm2) →
  let sent :=
    send_paced session_key times released (λ _, false) header payload bundle_id None c in
  (awaiting_ack c = [] ∨ released 0%nat = true →
   sent.1.2 = [s0 ++ mm0; s1 ++ mm1; s2 ++ mm2] ∧
   sent.2 = Raised (Exception "Max send retries reached")) ∧
  (awaiting_ack c ≠ [] → released 0%nat = false →
   sent.1.2 = [s0 ++ mm0] ∧ sent.2 = Suspended).
Proof.
  intros Hsend E0 E1 E2. cbn zeta. split.
  - intros Hfree. rewrite send_paced_released by tauto.
    by rewrite (send_unacked_result _ _ _ _ _ _ s0 mm0 s1 mm1 s2 mm2).
  - intros Hbusy Hheld.
    by rewrite (send_paced_starved _ _ _ _ _ _ _ _ s0 mm0).
Qed.

(** Registration keeps the insertion order and paces by the head of the
    line: a message with a new id goes to the end of [awaiting_ack] under a
    lock that did not exist before, and that lock is set at once exactly
    when nothing else is in flight; the locks of the other messages are
    untouched. *)
Theorem register_appends message_id header bundle_id c :
  od_get message_id (awaiting_ack c) = None →
  let lock := fresh (dom (events c)) in
  let c' := register message_id header bundle_id c in
  awaiting_ack c' =
    awaiting_ack c
    ++ [(message_id, {| entry_header := header; entry_bundle_id := bundle_id;
                        entry_lock := lock |})] ∧
  events c !! lock = None ∧
  events c' !! lock = Some (bool_decide (awaiting_ack c = [])) ∧
  (∀ id, id ≠ lock → events c' !! id = events c !! id).
Proof.
  intros Hnew. cbn zeta. unfold register. cbn [awaiting_ack events].
  split; [by apply od_set_fresh|].
  split; [apply not_elem_of_dom, is_fresh|].
  split; [apply lookup_insert_eq|].
  intros id Hid. by apply lookup_insert_ne.
Qed.
End retry_loop.

(** ** Token chains, continued *)

Section token_chain_more.
Context `{Collaborators}.

Lemma validate_loop_app owner issued source_id pre rest depth asset last_receiver
    max_depth :
  validate_loop owner issued source_id pre depth asset last_receiver max_depth = true →
  validate_loop owner issued source_id (pre ++ rest) depth asset last_receiver max_depth
    = true.
Proof.
  revert depth asset last_receiver max_depth.
  induction pre as [|p pre IH]; intros depth asset last_receiver max_depth; [done|].
  cbn [app validate_loop].
  destruct (Token_decode p) as [tp|]; [|done].
  destruct (bool_decide _ && bool_decide _); [|done].
  destruct (bool_decide _ && bool_decide _); [done|].
  cbn zeta. destruct (py_not _ || bool_decide _); [|done].
  destruct (bool_decide (Token.receiver tp = source_id)); [done|].
  apply IH.
Qed.

(** Validation stops at the first prefix that reaches the source: tokens
    appended to an accepted chain are never looked at, so the chain stays
    accepted whatever they are. *)
Theorem accepted_chain_ignores_suffix self session source_id pre rest :
  validate_token_chain self session source_id pre = true →
  validate_token_chain self session source_id (pre ++ rest) = true.
Proof.
  unfold validate_token_chain.
  destruct (is_public self || bool_decide (source_id = session_key session)); [done|].
  destruct pre as [|p pre]; [done|].
  intros Hpre. change ((p :: pre) ++ rest) with (p :: (pre ++ rest)).
  change (p :: pre ++ rest) with ((p :: pre) ++ rest).
  by apply validate_loop_app.
Qed.

Lemma validate_loop_registry_mono owner issued issued' source_id tokens depth asset
    last_receiver max_depth :
  (∀ sig, is_Some (issued !! sig) → is_Some (issued' !! sig)) →
  validate_loop owner issued source_id tokens depth asset last_receiver max_depth = true →
  validate_loop owner issued' source_id tokens depth asset last_receiver max_depth = true.
Proof.
  intros Hsub. revert depth asset last_receiver max_depth.
  induction tokens as [|p tokens IH]; intros depth asset last_receiver max_depth; [done|].
  destruct (Token_decode p) as [tp|] eqn:Hdec.
  2:{ cbn [validate_loop]. by rewrite Hdec. }
  rewrite !(validate_loop_cons _ _ _ _ _ _ _ _ _ tp Hdec). cbn zeta.
  intros (Ha & Hi & Hr & Hw & Hc).
  split; [exact Ha|]. split; [exact Hi|].
  split; [intros Ho; by apply Hsub, Hr|].
  split; [exact Hw|].
  destruct Hc as [Hc | Hc]; [by left | right; by apply IH].
Qed.

(** Issuing tokens never takes a right away: a chain accepted against a
    registry is accepted against every registry of the same session key
    that holds at least the same signatures. *)
Theorem validation_monotone_in_registry self session session' source_id tokens :
  session_key session' = session_key session →
  (∀ sig, is_Some (issued_tokens session !! sig) →
          is_Some (issued_tokens session' !! sig)) →
  validate_token_chain self session source_id tokens = true →
  validate_token_chain self session' source_id tokens = true.
Proof.
  intros Hkey Hsub. unfold validate_token_chain. rewrite Hkey.
  destruct (is_public self || bool_decide (source_id = session_key session)); [done|].
  destruct tokens as [|p tokens]; [done|].
  by apply validate_loop_registry_mono.
Qed.

Lemma validate_loop_reaches_source owner issued source_id tokens depth asset
    last_receiver max_depth :
  validate_loop owner issued source_id tokens depth asset last_receiver max_depth = true →
  ∃ token_string t,
    token_string ∈ tokens ∧ Token_decode token_string = Some t ∧
    Token.receiver t = source_id.
Proof.
  revert depth asset last_receiver max_depth.
  induction tokens as [|p tokens IH]; intros depth asset last_receiver max_depth; [done|].
  destruct (Token_decode p) as [tp|] eqn:Hdec.
  2:{ cbn [validate_loop]. by rewrite Hdec. }
  rewrite (validate_loop_cons _ _ _ _ _ _ _ _ _ tp Hdec). cbn zeta.
  intros (_ & _ & _ & _ & [Hc | Hc]).
  - exists p, tp. split; [left | done].
  - destruct (IH _ _ _ _ Hc) as (ts & t & Hin & Ht & Hr).
    exists ts, t. split; [by right | done].
Qed.

(** What an accepted chain looks like, for a source other than the owner
    on a non-public channel: it begins with a token issued by the owner
    for this very channel whose signature is in the owner's registry, and
    some token of it names the source as receiver. *)
Theorem accepted_chain_shape self session source_id tokens :
  is_public self = false →
  source_id ≠ session_key session →
  validate_token_chain self session source_id tokens = true →
  (∃ token_string rest t,
     tokens = token_string :: rest ∧
     Token_decode token_string = Some t ∧
     Token.asset t = AChannel (channel_key self) ∧
     Token.issuer t = session_key session ∧
     is_Some (issued_tokens session !! Token.signature t)) ∧
  (∃ token_string t,
     token_string ∈ tokens ∧ Token_decode token_string = Some t ∧
     Token.receiver t = source_id).
Proof.
  intros Hpub Hsrc. unfold validate_token_chain.
  rewrite Hpub, bool_decide_eq_false_2 by done. cbn [orb].
  destruct tokens as [|p tokens]; [done|].
  intros Hloop. split; [|by eapply validate_loop_reaches_source].
  destruct (Token_decode p) as [tp|] eqn:Hdec.
  2:{ cbn [validate_loop] in Hloop. by rewrite Hdec in Hloop. }
  pose proof (proj1 (validate_loop_cons _ _ _ _ _ _ _ _ _ tp Hdec) Hloop)
    as (Ha & Hi & Hr & _).
  exists p, tokens, tp.
  split; [done|]. split; [done|]. split; [exact Ha|]. split; [exact Hi|].
  by apply Hr.
Qed.
End token_chain_more.

(** ** Issuing, revoking and extending *)

Section issue.
Context `{Collaborators} `{TokenCodec}.

Lemma depth_zero_allowed (bound : option nat) :
  py_not bound || bool_decide (0 ≤ default 0 bound)%nat = true.
Proof. rewrite (bool_decide_eq_true_2 (0 ≤ _)%nat) by lia. apply orb_true_r. Qed.

(** Whatever the two tokens declare, index 1 is within the bound. *)
Lemma second_hop_within_bound depth_ab depth_bc :
  let bound := updated_max_depth depth_bc 1 (updated_max_depth depth_ab 0 None) in
  py_not bound = true ∨ (1 ≤ default 0 bound)%nat.
Proof.
  unfold updated_max_depth.
  destruct depth_ab as [[|m]|], depth_bc as [[|k]|]; simpl;
    repeat case_bool_decide; simpl; (by left) || (right; lia).
Qed.

(** A root token issued for a channel authorizes its receiver, and stops
    doing so when it is revoked. After [issue_token(channel, receiver)]
    the chain that starts with the new token is accepted for [receiver],
    whatever follows; [revoke_token] of its signature then succeeds,
    restores the registry to what it held for the other signatures, and on
    a non-public channel the same chain is refused. *)
Theorem issue_then_revoke self session broker_ids receiver max_depth rest :
  let token :=
    Token.mk (session_key session) broker_ids receiver (AChannel (channel_key self))
      root max_depth
      (Token_sign (session_key session) broker_ids receiver
         (AChannel (channel_key self)) root max_depth) in
  Token_decode (Token_encode token) = Some token →
  let issued :=
    issue_token broker_ids (TargetChannel (channel_key self)) receiver max_depth session in
  issued.2 = HTokenIssue (Token_encode token) None ∧
  validate_token_chain self issued.1 receiver (Token_encode token :: rest) = true ∧
  ∃ revoked,
    revoke_token (Token.signature token) issued.1
      = Ok (revoked, HTokenRevoke (Token.signature token)) ∧
    issued_tokens revoked = delete (Token.signature token) (issued_tokens session) ∧
    (is_public self = false → receiver ≠ session_key session →
     validate_token_chain self revoked receiver (Token_encode token :: rest) = false).
Proof.
  intros token Hdec issued. subst issued. unfold issue_token. cbn [fst snd].
  fold token. split; [done|]. split.
  - unfold validate_token_chain. cbn [session_key issued_tokens].
    destruct (is_public self || bool_decide (receiver = session_key session)); [done|].
    cbn [validate_loop]. rewrite Hdec. cbn [Token.asset Token.issuer token].
    rewrite !bool_decide_eq_true_2 by done. cbn [andb].
    cbn [Token.signature]. rewrite lookup_insert_eq.
    rewrite (bool_decide_eq_false_2 (Some _ = None)) by done. cbn [andb].
    cbn zeta. rewrite depth_zero_allowed. cbn [Token.receiver].
    by rewrite bool_decide_eq_true_2.
  - unfold revoke_token. cbn [session_key issued_tokens seen_messages Token.signature].
    rewrite lookup_insert_eq. eexists. split; [reflexivity|].
    cbn [issued_tokens]. rewrite delete_insert_eq. split; [done|].
    intros Hpub Hsrc. unfold validate_token_chain. cbn [session_key issued_tokens].
    rewrite Hpub, bool_decide_eq_false_2 by done. cbn [orb].
    apply (validate_loop_unregistered _ _ _ [] _ rest token); try done.
    cbn [Token.signature token]. apply lookup_delete_eq.
Qed.

Lemma truncate_loop_done self_id items i current :
  (length current ≤ i)%nat →
  Forall (λ enc, is_Some (Token_decode enc)) items →
  truncate_loop self_id items i current = (current, None).
Proof.
  revert i current. induction items as [|enc rest IH]; intros i current Hlen Hall; [done|].
  apply Forall_cons in Hall as [[t Ht] Hall].
  cbn [truncate_loop]. rewrite Ht.
  case_bool_decide.
  - rewrite take_ge by lia. apply IH; [lia | done].
  - apply IH; [lia | done].
Qed.

Lemma truncate_loop_first self_id seen_part items :
  Forall (λ enc, is_Some (Token_decode enc)) items →
  truncate_loop self_id items (length seen_part) (seen_part ++ items) =
    (match list_find (addressed_to self_id) items with
     | Some (k, _) => take (S (length seen_part + k)) (seen_part ++ items)
     | None => seen_part ++ items
     end, None).
Proof.
  revert seen_part. induction items as [|enc rest IH]; intros seen_part Hall; [done|].
  apply Forall_cons in Hall as [[t Ht] Hall].
  cbn [truncate_loop list_find]. rewrite Ht.
  case_bool_decide as Hr.
  - rewrite decide_True by (by exists t).
    rewrite truncate_loop_done; [|rewrite length_take; lia | done].
    by rewrite Nat.add_0_r.
  - rewrite decide_False by (intros (t' & Ht' & Hr'); congruence).
    specialize (IH (seen_part ++ [enc]) Hall).
    rewrite length_app, <- (assoc_L (++)) in IH. cbn [length app] in IH.
    replace (length seen_part + 1)%nat with (S (length seen_part)) in IH by lia.
    rewrite IH. destruct (list_find _ rest) as [[k x]|]; cbn; [|done].
    do 2 f_equal. lia.
Qed.

(** [extend_route] by a session that does not own the route keeps the
    chain up to and including the first token addressed to that session
    (later tokens addressed to it do not matter, because the slice is
    taken from the list already cut), or the whole chain when none is;
    it then issues an extension of the last token kept and appends it. *)
Theorem extend_route_keeps_first_addressed broker_ids route receiver max_depth session
    kept tail prev :
  Route.session route ≠ session_key session →
  Forall (λ enc, is_Some (Token_decode enc)) (Route.tokens route) →
  kept = match list_find (addressed_to (session_key session)) (Route.tokens route) with
         | Some (k, _) => take (S k) (Route.tokens route)
         | None => Route.tokens route
         end →
  last kept = Some tail →
  Token_decode_unverified tail = Ok prev →
  let token :=
    Token.mk (session_key session) broker_ids receiver
      (ASignature (Token.signature prev)) extension max_depth
      (Token_sign (session_key session) broker_ids receiver
         (ASignature (Token.signature prev)) extension max_depth) in
  extend_route broker_ids route receiver max_depth session =
    ({| session_key := session_key session;
        issued_tokens :=
          <[Token.signature token := (token, Some prev)]> (issued_tokens session);
        seen_messages := seen_messages session |},
     set_tokens (kept ++ [Token_encode token]) route,
     Ok (HTokenIssue (Token_encode token) (Some (Token_encode prev)))).
Proof.
  intros Hown Hall -> Hlast Hprev token. unfold extend_route.
  rewrite bool_decide_eq_false_2 by done.
  pose proof (truncate_loop_first (session_key session) [] (Route.tokens route) Hall)
    as Ht.
  cbn [length app Nat.add] in Ht. rewrite Ht, Hlast, Hprev.
  unfold issue_token. cbn [fst snd issued_string]. done.
Qed.

(** Without a token to extend, a session that does not own the route gets
    [IndexError]; a token of the chain whose signature does not verify
    makes [extend_route] raise [InvalidSignature]. In both cases nothing
    is issued. *)
Theorem extend_route_failures broker_ids route receiver max_depth session :
  Route.session route ≠ session_key session →
  (Route.tokens route = [] →
   extend_route broker_ids route receiver max_depth session
     = (session, route, Raise IndexError)) ∧
  (Exists (λ enc, Token_decode enc = None) (Route.tokens route) →
   (extend_route broker_ids route receiver max_depth session).1.1 = session ∧
   (extend_route broker_ids route receiver max_depth session).2
     = Raise InvalidSignature).
Proof.
  intros Hown. unfold extend_route. rewrite bool_decide_eq_false_2 by done. split.
  - intros Hnil. rewrite Hnil. cbn. f_equal. f_equal.
    destruct route; cbn in *; by subst.
  - intros Hex.
    assert (Hloop : ∀ items i current,
              Exists (λ enc, Token_decode enc = None) items →
              (truncate_loop (session_key session) items i current).2
                = Some InvalidSignature).
    { induction items as [|enc rest IH]; intros i current Hx; [by inversion Hx|].
      cbn [truncate_loop]. destruct (Token_decode enc) as [t|] eqn:Ht; [|done].
      apply IH. inversion Hx; [congruence | done]. }
    specialize (Hloop _ O (Route.tokens route) Hex).
    destruct (truncate_loop _ _ _ _) as [current [e|]]; cbn in Hloop; [|done].
    by injection Hloop as ->.
Qed.

(** Delegation over two hops. The owner extends the route of its channel
    to [b]; [b], another session, extends the resulting route to [c].
    The route then carries the root token followed by its extension, and
    the owner's channel accepts it both from [c] and from [b]. *)
Theorem two_hop_delegation_accepted self owner_session b_session brokers_a brokers_b
    route c depth_ab depth_bc :
  Route.session route = session_key owner_session →
  Route.channel route = channel_key self →
  session_key b_session ≠ session_key owner_session →
  let b := session_key b_session in
  let t0 :=
    Token.mk (session_key owner_session) brokers_a b (AChannel (channel_key self))
      root depth_ab
      (Token_sign (session_key owner_session) brokers_a b
         (AChannel (channel_key self)) root depth_ab) in
  let t1 :=
    Token.mk b brokers_b c (ASignature (Token.signature t0)) extension depth_bc
      (Token_sign b brokers_b c (ASignature (Token.signature t0)) extension depth_bc) in
  Token_decode (Token_encode t0) = Some t0 →
  Token_decode_unverified (Token_encode t0) = Ok t0 →
  Token_decode (Token_encode t1) = Some t1 →
  let first := extend_route brokers_a route b depth_ab owner_session in
  let second := extend_route brokers_b first.1.2 c depth_bc b_session in
  Route.tokens first.1.2 = [Token_encode t0] ∧
  Route.tokens second.1.2 = [Token_encode t0; Token_encode t1] ∧
  second.2 = Ok (HTokenIssue (Token_encode t1) (Some (Token_encode t0))) ∧
  validate_token_chain self first.1.1 c (Route.tokens second.1.2) = true ∧
  validate_token_chain self first.1.1 b (Route.tokens second.1.2) = true.
Proof.
  intros Hown Hchan Hb b t0 t1 Hd0 Hu0 Hd1 first second.
  assert (Hfirst : first =
            ({| session_key := session_key owner_session;
                issued_tokens :=
                  <[Token.signature t0 := (t0, None)]> (issued_tokens owner_session);
                seen_messages := seen_messages owner_session |},
             set_tokens [Token_encode t0] route,
             Ok (HTokenIssue (Token_encode t0) None))).
  { unfold first, extend_route. rewrite bool_decide_eq_true_2 by done.
    unfold issue_token. cbn [fst snd issued_string]. by rewrite Hchan. }
  assert (Hsecond : second.1.2 = set_tokens [Token_encode t0; Token_encode t1] first.1.2
                    ∧ second.2 = Ok (HTokenIssue (Token_encode t1) (Some (Token_encode t0)))).
  { unfold second. rewrite Hfirst. cbn [fst snd].
    unfold extend_route. cbn [Route.session Route.tokens set_tokens].
    rewrite bool_decide_eq_false_2 by (rewrite Hown; done).
    cbn [truncate_loop]. rewrite Hd0. cbn [Token.receiver t0].
    rewrite bool_decide_eq_true_2 by done. cbn [take last].
    rewrite Hu0. unfold issue_token. cbn [fst snd issued_string app]. done. }
  destruct Hsecond as [Hs2 Hh2].
  rewrite Hs2, Hfirst. cbn [fst snd set_tokens Route.tokens].
  split; [done|]. split; [done|]. split; [done|].
  assert (Hloop : ∀ source_id, source_id = b ∨ source_id = c →
    validate_loop (session_key owner_session)
      (<[Token.signature t0 := (t0, None)]> (issued_tokens owner_session))
      source_id [Token_encode t0; Token_encode t1] 0
      (AChannel (channel_key self)) (session_key owner_session) None = true).
  { intros source_id Hsource.
    apply (validate_loop_cons _ _ _ _ _ _ _ _ _ t0 Hd0).
    split; [done|]. split; [done|].
    split; [intros _; by rewrite lookup_insert_eq|].
    cbn zeta. split; [right; lia|].
    destruct (decide (b = source_id)) as [Hbs | Hbs]; [by left | right].
    destruct Hsource as [-> | ->]; [done|].
    apply (validate_loop_cons _ _ _ _ _ _ _ _ _ t1 Hd1).
    split; [done|]. split; [done|].
    split; [intros Ho; by destruct Hb|].
    cbn zeta. split; [|by left].
    cbn [Token.max_depth t0 t1]. apply second_hop_within_bound. }
  unfold validate_token_chain. cbn [session_key issued_tokens].
  split.
  - destruct (is_public self || bool_decide (c = session_key owner_session)); [done|].
    apply Hloop. by right.
  - destruct (is_public self || bool_decide (b = session_key owner_session)); [done|].
    apply Hloop. by left.
Qed.
End issue.

(** ** The channel, continued *)

Section channel_more.
Context `{Collaborators}.
Hypothesis decrypt_encrypt :
  ∀ own peer chunk nonce, decrypt peer own (encrypt own peer chunk nonce) nonce = Ok chunk.

(** The whole payload path, end to end. With room for the generator and
    its calls, an encoded object that [Channel.send] flags, compresses,
    cuts into fewer than [2^16] chunks and encrypts, arrives in the peer's
    inbox as [bson.loads] of the very bytes that were sent, whatever the
    order in which the frames reach [handle_message]; the lock is set and
    nothing is left under [mid]. With less room the generator yields
    [room - calls] frames, or all of them, and then raises
    [RecursionError]. *)
Theorem send_pipeline_delivers room calls own peer urandom max_compression max_payload
    encoded mid obj session source destination (self : Channel) :
  zlib_decompress (zlib_compress encoded) = Ok encoded →
  bson_loads encoded = Ok obj →
  1 ≤ max_payload →
  length mid = 4%nat →
  (∀ i, length (urandom i) = 16%nat) →
  chunk_count max_payload (compress_payload max_compression encoded) < 2 ^ 16 →
  validate_token_chain self session (Route.session source) (Route.tokens destination)
    = true →
  Route.channel source = own →
  channel_key self = peer →
  chunks self !! mid = None →
  let n := chunk_count max_payload (compress_payload max_compression encoded) in
  let sent :=
    send_frames room calls own peer urandom max_compression max_payload encoded mid in
  (n < Z.of_nat room → n + Z.of_nat calls ≤ Z.of_nat room →
   sent.2 = None ∧
   Z.of_nat (length sent.1) = n ∧
   ∀ arrivals, arrivals ≡ₚ sent.1 →
     feed session source destination arrivals self =
       ({| channel_key := channel_key self; is_public := is_public self;
           chunks := chunks self; messages := (source, obj) :: messages self;
           lock := true |}, None)) ∧
  (¬ (n < Z.of_nat room ∧ n + Z.of_nat calls ≤ Z.of_nat room) →
   sent.2 = Some RecursionError ∧
   Z.of_nat (length sent.1) = Z.min n (Z.of_nat (room - calls))).
Proof.
  intros Hz Hobj Hmax Hmid Hnonce Hn Hval Hown Hpeer Hnone. cbn zeta.
  set (payload := compress_payload max_compression encoded) in *.
  assert (Hne : payload ≠ []) by (unfold payload, compress_payload; by case_bool_decide).
  pose proof (chunk_count_positive max_payload payload Hmax Hne) as Hpos.
  destruct (reassembles_below_limit decrypt_encrypt own peer urandom payload
              max_payload mid Hmax Hmid Hnonce ltac:(lia))
    as (frames & Henc & Hlen & _).
  split.
  - intros Hroom Hcalls.
    assert (Hsent : send_frames room calls own peer urandom max_compression max_payload
                      encoded mid = (frames, None)).
    { unfold send_frames. cbn zeta. fold payload.
      by rewrite encrypt_slice_in_room by lia. }
    rewrite Hsent. cbn [fst snd]. split; [done|]. split; [done|].
    intros arrivals Hperm.
    destruct (send_frames_delivered decrypt_encrypt room calls own peer urandom
                max_compression max_payload encoded mid session source destination
                arrivals self)
      as [_ ->]; try done.
    { by rewrite Hsent. }
    unfold deliver. fold payload. unfold payload.
    rewrite (body_bytes_compress_payload _ _ Hz). cbn [mbind result_bind].
    by rewrite Hobj.
  - intros Hroom. unfold send_frames. cbn zeta. fold payload.
    rewrite (encrypt_slice_in_short room calls own peer urandom payload max_payload mid
               _ frames) by done.
    cbn [fst snd]. split; [done|]. rewrite length_take. lia.
Qed.

(** Chunking under the recursion limit. For [1 <= n < 2^16] and room for
    the [n + 1] nested generators and for the calls of the last one that
    yields, [encrypt_slice] yields [n] frames that [handle_message]
    reassembles into the payload in any order of arrival, leaving nothing
    under [mid]. With less room it yields the first [room - calls] frames
    of the full run, or all of them, and raises [RecursionError]. From
    [n = 2^16] on it raises before the first frame. *)
Theorem chunking_reassembles room calls own peer urandom payload max_payload mid :
  1 ≤ max_payload →
  length mid = 4%nat →
  (∀ i, length (urandom i) = 16%nat) →
  let n := chunk_count max_payload payload in
  let run := encrypt_slice_in room calls own peer urandom payload max_payload mid n 0 in
  (1 ≤ n < 2 ^ 16 → n < Z.of_nat room → n + Z.of_nat calls ≤ Z.of_nat room →
   run.2 = None ∧
   Z.of_nat (length run.1) = n ∧
   ∀ session source destination arrivals (self : Channel),
     validate_token_chain self session (Route.session source)
       (Route.tokens destination) = true →
     Route.channel source = own →
     channel_key self = peer →
     chunks self !! mid = None →
     arrivals ≡ₚ run.1 →
     feed session source destination arrivals self = deliver source payload self ∧
     chunks (feed session source destination arrivals self).1 !! mid = None) ∧
  (1 ≤ n < 2 ^ 16 → ¬ (n < Z.of_nat room ∧ n + Z.of_nat calls ≤ Z.of_nat room) →
   run.2 = Some RecursionError ∧
   Z.of_nat (length run.1) = Z.min n (Z.of_nat (room - calls)) ∧
   ∀ more, n < Z.of_nat more → n + Z.of_nat calls ≤ Z.of_nat more →
     run.1 =
       take (room - calls)
         (encrypt_slice_in more calls own peer urandom payload max_payload mid n 0).1) ∧
  (2 ^ 16 ≤ n → run.1 = [] ∧ ∃ e, run.2 = Some e).
Proof.
  intros Hmax Hmid Hnonce. cbn zeta.
  set (n := chunk_count max_payload payload).
  split; [|split].
  - intros Hn Hroom Hcalls. rewrite encrypt_slice_in_room by lia.
    destruct (reassembles_below_limit decrypt_encrypt own peer urandom payload
                max_payload mid Hmax Hmid Hnonce ltac:(fold n; lia))
      as (frames & Henc & Hlen & Hfeed).
    fold n in Henc, Hlen. rewrite Henc. cbn [fst snd].
    split; [done|]. split; [done|]. exact Hfeed.
  - intros Hn Hroom.
    destruct (reassembles_below_limit decrypt_encrypt own peer urandom payload
                max_payload mid Hmax Hmid Hnonce ltac:(fold n; lia))
      as (frames & Henc & Hlen & _).
    fold n in Henc, Hlen.
    rewrite (encrypt_slice_in_short room calls own peer urandom payload max_payload mid
               _ frames) by (done || lia).
    cbn [fst snd]. split; [done|]. split; [rewrite length_take; lia|].
    intros more Hmore Hcalls.
    rewrite (encrypt_slice_in_room more) by lia. by rewrite Henc.
  - intros Hn. by apply encrypt_slice_in_too_many.
Qed.

(** A fragment that arrives twice counts once. If a fragment leaves its
    message incomplete (its pieces are still held under [mid]), feeding
    the same frame again changes nothing and raises nothing. *)
Theorem duplicate_fragment_ignored session source destination own peer urandom payload
    max_payload mid n i (self : Channel) :
  validate_token_chain self session (Route.session source) (Route.tokens destination)
    = true →
  Route.channel source = own →
  channel_key self = peer →
  length (urandom i) = 16%nat →
  length mid = 4%nat →
  2 ≤ n < 2 ^ 16 → 0 ≤ i < 2 ^ 16 →
  let frame := fragment_frame own peer urandom payload max_payload mid n i in
  let first := handle_message session source destination frame self in
  is_Some (chunks first.1 !! mid) →
  first.2 = None ∧
  handle_message session source destination frame first.1 = (first.1, None).
Proof.
  intros Hval Hown Hpeer Hnonce Hmid Hn Hi frame first. subst first frame.
  rewrite (handle_message_fragment decrypt_encrypt session source destination own peer)
    by done.
  cbn zeta.
  set (fragments := <[i := fragment_piece payload max_payload i]>
                      (default ∅ (chunks self !! mid))).
  case_bool_decide as Hfull.
  - intros Hsome. exfalso.
    destruct (join_chunks fragments 0 (Z.to_nat n)) as [joined|e]; cbn in Hsome.
    + unfold deliver in Hsome.
      destruct (body_bytes joined ≫= bson_loads); cbn in Hsome;
        rewrite lookup_delete_eq in Hsome; by destruct Hsome.
    + rewrite lookup_delete_eq in Hsome. by destruct Hsome.
  - intros _. cbn [fst snd]. split; [done|].
    rewrite (handle_message_fragment decrypt_encrypt session source destination own peer)
      by done.
    cbn zeta. rewrite chunks_set_chunks, lookup_insert_eq. cbn [default from_option id].
    unfold id. fold fragments.
    assert (Hid : <[i := fragment_piece payload max_payload i]> fragments = fragments)
      by apply insert_insert_eq.
    rewrite Hid, bool_decide_eq_false_2 by done.
    by rewrite set_chunks_twice, insert_insert_eq.
Qed.

(** Nothing is delivered before the last fragment. Fed the frames of any
    choice of fewer than [n] distinct indices, in any order, a channel
    with nothing under [mid] keeps its inbox and its lock as they were,
    raises nothing, and holds exactly the pieces of those indices under
    [mid]. *)
Theorem no_partial_delivery session source destination own peer urandom payload
    max_payload mid n indices (self : Channel) :
  validate_token_chain self session (Route.session source) (Route.tokens destination)
    = true →
  Route.channel source = own →
  channel_key self = peer →
  (∀ i, length (urandom i) = 16%nat) →
  length mid = 4%nat →
  2 ≤ n < 2 ^ 16 →
  chunks self !! mid = None →
  NoDup indices →
  (∀ i, i ∈ indices → 0 ≤ i < n) →
  Z.of_nat (length indices) < n →
  let r := feed session source destination
             (fragment_frame own peer urandom payload max_payload mid n <$> indices)
             self in
  r.2 = None ∧
  messages r.1 = messages self ∧
  lock r.1 = lock self ∧
  (∀ i, default ∅ (chunks r.1 !! mid) !! i =
        if decide (i ∈ indices) then Some (fragment_piece payload max_payload i)
        else None) ∧
  (∀ other, other ≠ mid → chunks r.1 !! other = chunks self !! other).
Proof.
  intros Hval Hown Hpeer Hnonce Hmid Hn Hnone Hnd Hrange Hlen.
  assert (Hgen : ∀ rest got c,
    NoDup (got ++ rest) →
    (∀ i, i ∈ got ++ rest → 0 ≤ i < n) →
    Z.of_nat (length (got ++ rest)) < n →
    (∀ i, default ∅ (c !! mid) !! i =
          if decide (i ∈ got) then Some (fragment_piece payload max_payload i)
          else None) →
    size (default ∅ (c !! mid)) = length got →
    (∀ other, other ≠ mid → c !! other = chunks self !! other) →
    ∃ c',
      feed session source destination
        (fragment_frame own peer urandom payload max_payload mid n <$> rest)
        (set_chunks c self) = (set_chunks c' self, None) ∧
      (∀ i, default ∅ (c' !! mid) !! i =
            if decide (i ∈ got ++ rest)
            then Some (fragment_piece payload max_payload i) else None) ∧
      (∀ other, other ≠ mid → c' !! other = chunks self !! other)).
  { induction rest as [|j rest IH]; intros got c Hnd' Hr' Hl' Hlook Hsize Hoth.
    { exists c. rewrite app_nil_r. done. }
    assert (Hj : 0 ≤ j < n) by (apply Hr'; set_solver).
    assert (Hjg : j ∉ got).
    { apply NoDup_app in Hnd' as (_ & Hdisj & _). intros Hin.
      apply (Hdisj j Hin). left. }
    cbn [fmap list_fmap feed].
    fold (fmap (M:=list) (fragment_frame own peer urandom payload max_payload mid n)).
    rewrite (handle_message_fragment decrypt_encrypt session source destination own peer)
      by (try done; lia).
    cbn zeta. rewrite !chunks_set_chunks, !set_chunks_twice.
    set (fragments := <[j := fragment_piece payload max_payload j]>
                        (default ∅ (c !! mid))).
    assert (Hfsize : size fragments = S (length got)).
    { unfold fragments. rewrite map_size_insert_None, Hsize; [done|].
      rewrite Hlook. by rewrite decide_False. }
    rewrite length_app in Hl'. cbn [length] in Hl'.
    rewrite bool_decide_eq_false_2 by lia.
    destruct (IH (got ++ [j]) (<[mid := fragments]> c)) as (c' & Hfeed & Hl & Ho).
    - by rewrite <- (assoc_L (++)).
    - intros i Hin. apply Hr'. by rewrite <- (assoc_L (++)) in Hin.
    - rewrite <- (assoc_L (++)), length_app. cbn [length app]. lia.
    - intros i. rewrite lookup_insert_eq. cbn [default from_option id]. unfold id.
      unfold fragments. destruct (decide (i = j)) as [->|Hij].
      + rewrite lookup_insert_eq. by rewrite decide_True by set_solver.
      + rewrite lookup_insert_ne by done. rewrite Hlook.
        destruct (decide (i ∈ got)).
        * by rewrite decide_True by set_solver.
        * by rewrite decide_False by set_solver.
    - rewrite lookup_insert_eq. cbn. rewrite Hfsize, length_app. cbn. lia.
    - intros other Hne. rewrite lookup_insert_ne by done. by apply Hoth.
    - exists c'. split; [done|]. split; [|done].
      intros i. rewrite Hl. by rewrite <- (assoc_L (++)). }
  destruct (Hgen indices [] (chunks self)) as (c' & Hfeed & Hl & Ho); try done.
  - intros i. rewrite Hnone. cbn. by rewrite lookup_empty.
  - by rewrite Hnone.
  - cbn zeta. rewrite set_chunks_id in Hfeed. rewrite Hfeed. cbn [fst snd].
    split; [done|]. split; [done|]. split; [done|]. split; [exact Hl | exact Ho].
Qed.
(** A message in an unknown encoding is refused and leaves no trace. A
    validated single-chunk frame whose flag byte is neither [0] nor [255]
    makes [handle_message] raise; nothing is queued and the lock is not
    set, since the exception comes before [self.lock.set()]. *)
Theorem unknown_encoding_refused session source destination own peer urandom flag body
    (self : Channel) :
  validate_token_chain self session (Route.session source) (Route.tokens destination)
    = true →
  Route.channel source = own →
  channel_key self = peer →
  length (urandom 0) = 16%nat →
  flag ≠ x00 → flag ≠ xff →
  ∃ msg,
    handle_message session source destination
      (single_frame own peer urandom (flag :: body)) self
    = (self, Some (Exception msg)).
Proof.
  intros Hval Hown Hpeer Hnonce H0 Hff.
  rewrite (handle_message_single decrypt_encrypt session source destination own peer)
    by done.
  unfold deliver. cbn [body_bytes].
  rewrite !bool_decide_eq_false_2 by done. cbn. by eexists.
Qed.
End channel_more.

(** ** The inbox and the chunking arithmetic *)

Section inbox.
Context `{Collaborators}.

Lemma deliver_all_ok source flagged objs (self : Channel) :
  Forall2 (λ p obj, body_bytes p ≫= bson_loads = Ok obj) flagged objs →
  deliver_all source flagged self =
    ({| channel_key := channel_key self; is_public := is_public self;
        chunks := chunks self;
        messages := rev (pair source <$> objs) ++ messages self;
        lock := if flagged is [] then lock self else true |}, None).
Proof.
  intros Hall. revert self.
  induction Hall as [|p obj flagged objs Hp Hall IH]; intros self.
  { by destruct self. }
  cbn [deliver_all]. unfold deliver. rewrite Hp, IH. cbn.
  rewrite <- (assoc_L (++)). cbn. by destruct flagged.
Qed.

Lemma drain_all ms : ∀ self : Channel,
  messages self = ms →
  drain (length ms) self =
    (rev ms, {| channel_key := channel_key self; is_public := is_public self;
                chunks := chunks self; messages := []; lock := lock self |}).
Proof.
  induction ms as [|m ms IH] using rev_ind; intros self Hms.
  { destruct self; cbn in *. by subst. }
  rewrite length_app, Nat.add_1_r. cbn [drain]. unfold channel_recv.
  rewrite Hms, last_snoc, length_app, Nat.add_1_r.
  replace (S (length ms) - 1)%nat with (length ms) by lia.
  rewrite take_app_length, IH by done.
  by rewrite rev_app_distr.
Qed.

Lemma feed_single_frames session source destination own peer urandom flagged objs :
  (∀ own peer chunk nonce, decrypt peer own (encrypt own peer chunk nonce) nonce = Ok chunk) →
  Forall2 (λ p obj, body_bytes p ≫= bson_loads = Ok obj) flagged objs →
  length (urandom 0) = 16%nat →
  Route.channel source = own →
  ∀ self : Channel,
    validate_token_chain self session (Route.session source) (Route.tokens destination)
      = true →
    channel_key self = peer →
    feed session source destination (single_frame own peer urandom <$> flagged) self
      = deliver_all source flagged self.
Proof.
  intros Hdec Hall Hnonce Hown.
  induction Hall as [|p obj flagged objs Hp Hall IH]; intros self Hval Hpeer; [done|].
  cbn [fmap list_fmap feed deliver_all].
  fold (fmap (M:=list) (single_frame own peer urandom)).
  rewrite (handle_message_single Hdec session source destination own peer) by done.
  unfold deliver. rewrite Hp. apply IH; [|done].
  by unfold validate_token_chain in *.
Qed.

(** The inbox is first in, first out. [handle_message] puts each complete
    message at the left end and [recv] pops from the right one: after a
    run of validated single-chunk frames with good payloads, as many
    calls of [recv] as there are messages return the ones already
    waiting, oldest first, and then the new ones in their order of
    arrival; the inbox is then empty, and the next [recv] clears the lock
    and waits. *)
Theorem inbox_first_in_first_out session source destination own peer urandom flagged objs
    (self : Channel) :
  (∀ own peer chunk nonce, decrypt peer own (encrypt own peer chunk nonce) nonce = Ok chunk) →
  Forall2 (λ p obj, body_bytes p ≫= bson_loads = Ok obj) flagged objs →
  length (urandom 0) = 16%nat →
  validate_token_chain self session (Route.session source) (Route.tokens destination)
    = true →
  Route.channel source = own →
  channel_key self = peer →
  let arrived :=
    feed session source destination (single_frame own peer urandom <$> flagged) self in
  let drained := drain (length (messages self) + length flagged) arrived.1 in
  arrived.2 = None ∧
  drained.1 = rev (messages self) ++ (pair source <$> objs) ∧
  messages drained.2 = [] ∧
  (channel_recv drained.2).2 = None ∧
  lock (channel_recv drained.2).1 = false.
Proof.
  intros Hdec Hall Hnonce Hval Hown Hpeer. cbn zeta.
  rewrite (feed_single_frames session source destination own peer urandom flagged objs)
    by done.
  rewrite (deliver_all_ok _ _ _ _ Hall). cbn [fst snd].
  split; [done|].
  replace (length (messages self) + length flagged)%nat
    with (length (rev (pair source <$> objs) ++ messages self)).
  - rewrite (drain_all (rev (pair source <$> objs) ++ messages self)) by done.
    cbn [fst snd messages]. by rewrite rev_app_distr, rev_involutive.
  - rewrite length_app, length_rev, length_fmap.
    apply Forall2_length in Hall. lia.
Qed.

Lemma concat_pieces payload max_payload count : ∀ first,
  1 ≤ max_payload → 0 ≤ first →
  concat (fragment_piece payload max_payload <$> seqZ first (Z.of_nat count)) =
    take (count * Z.to_nat max_payload)
      (drop (Z.to_nat first * Z.to_nat max_payload) payload).
Proof.
  induction count as [|k IH]; intros first Hmax Hfirst; [done|].
  rewrite Nat2Z.inj_succ, seqZ_cons by lia.
  replace (Z.pred (Z.succ (Z.of_nat k))) with (Z.of_nat k) by lia.
  cbn [fmap list_fmap concat].
  fold (fmap (M:=list) (fragment_piece payload max_payload)).
  replace (Z.succ first) with (first + 1) by lia.
  rewrite IH by lia.
  cbn. unfold fragment_piece, slice.
  replace (Z.to_nat ((first + 1) * max_payload) - Z.to_nat (first * max_payload))%nat
    with (Z.to_nat max_payload) by nia.
  replace (Z.to_nat (first * max_payload))
    with (Z.to_nat first * Z.to_nat max_payload)%nat by nia.
  replace (Z.to_nat (first + 1) * Z.to_nat max_payload)%nat
    with (Z.to_nat first * Z.to_nat max_payload + Z.to_nat max_payload)%nat by nia.
  rewrite <- drop_drop. apply take_take_drop.
Qed.

(** The chunk count of [Channel.send] is the least that fits. For a
    non-empty payload and a positive [max_payload], [n - 1] chunks are too
    few and [n] are enough; every slice [payload[i*max:(i+1)*max]] with
    [i < n] is non-empty and no longer than [max_payload]; and the slices
    in order make up the payload. *)
Theorem chunk_count_least max_payload payload :
  1 ≤ max_payload → payload ≠ [] →
  let n := chunk_count max_payload payload in
  (n - 1) * max_payload < Z.of_nat (length payload) ≤ n * max_payload ∧
  (∀ i, 0 ≤ i < n →
     1 ≤ Z.of_nat (length (fragment_piece payload max_payload i)) ≤ max_payload) ∧
  concat (fragment_piece payload max_payload <$> seqZ 0 n) = payload.
Proof.
  intros Hmax Hne n.
  assert (Hlen : 1 ≤ Z.of_nat (length payload)) by (destruct payload; [done | cbn; lia]).
  assert (Hbounds : (n - 1) * max_payload < Z.of_nat (length payload) ≤ n * max_payload).
  { subst n. unfold chunk_count.
    pose proof (Z.mod_pos_bound (Z.of_nat (length payload) - 1) max_payload ltac:(lia)).
    pose proof (Z.div_mod (Z.of_nat (length payload) - 1) max_payload ltac:(lia)).
    nia. }
  assert (Hn : 1 ≤ n) by nia.
  split; [exact Hbounds|]. split.
  - intros i Hi. unfold fragment_piece, slice.
    rewrite length_take, length_drop. nia.
  - replace n with (Z.of_nat (Z.to_nat n)) by lia.
    rewrite concat_pieces by lia. cbn [Z.to_nat Nat.mul drop].
    apply take_ge. nia.
Qed.
End inbox.

(** ** The further properties on the small world *)

(** A signature the cache has never seen, with its timestamp in the
    window, is accepted by a new session. *)
Lemma check_no_repeat_fresh now sig ts :
  now - 60 ≤ ts ≤ now →
  (check_no_repeat now sig ts seen_messages_init).1 = true.
Proof.
  intros Hw. unfold check_no_repeat. cbn zeta.
  rewrite (bool_decide_eq_true_2 (now - 60 ≤ ts ≤ now)) by done.
  set (s1 := if bool_decide (idx2 _ ≠ _) then _ else _).
  assert (Hempty : bucket0 s1 = ∅ ∧ bucket1 s1 = ∅).
  { subst s1. destruct (bool_decide _); [|done].
    unfold clear_bucket. by destruct (bool_decide _). }
  destruct Hempty as [Hb0 Hb1]. rewrite Hb0, Hb1.
  by rewrite bool_decide_eq_true_2 by set_solver.
Qed.

Lemma frame_roundtrip_witness :
  ∃ s mm,
    @encode toy "A" 0 1700000000 header_ab [x0a; x0b] None 0 = Ok (s, mm) ∧
    @parse_frame (s ++ mm) =
      (s, 1700000000 - 0 - 4, @ujson_dumps toy header_ab,
       be_digits 1 0 ++ default [] None ++ [x0a; x0b]) ∧
    take 64 (s ++ mm) = s ∧ drop 64 (s ++ mm) = mm.
Proof.
  assert (Henc : ∃ s mm,
            @encode toy "A" 0 1700000000 header_ab [x0a; x0b] None 0 = Ok (s, mm))
    by (eexists _, _; vm_compute; reflexivity).
  destruct Henc as (s & mm & Henc). exists s, mm. split; [exact Henc|].
  exact (@frame_roundtrip toy toy_sign_length "A" 0 1700000000 header_ab [x0a; x0b]
           None 0 s mm Henc).
Defined.


Lemma original_message_delivered_witness :
  ∃ s mm,
    (@send toy "A" toy_times (λ _, true) header_ab [x0a; x0b] None None
       idle_connection).1.2 = [s ++ mm] ∧
    @recv toy 1700000001 {["chanB"]} (s ++ mm) idle_connection seen_messages_init =
      ((check_no_repeat 1700000001 s (toy_times 0 - 0 - 4 + 0) seen_messages_init).2,
       [Reply [HSend route_b route_a] s route_a route_b [x0a; x0b]], None).
Proof.
  assert (Henc : ∃ s mm,
            @encode toy "A" 0 (toy_times 0) header_ab [x0a; x0b] None 0 = Ok (s, mm))
    by (eexists _, _; vm_compute; reflexivity).
  destruct Henc as (s & mm & Henc). exists s, mm.
  destruct (@original_message_delivered toy toy_sign_length toy_verify_sign "A"
              toy_times (λ _, true) route_a route_b [x0a; x0b] None idle_connection
              s mm 1700000001 {["chanB"]} idle_connection seen_messages_init)
    as (Hsend & _ & _ & Hrecv).
  - vm_compute. reflexivity.
  - reflexivity.
  - apply elem_of_singleton. reflexivity.
  - exact Henc.
  - reflexivity.
  - apply check_no_repeat_fresh. vm_compute. split; discriminate.
  - split; [exact Hsend | exact Hrecv].
Defined.

Lemma ack_frame_dispatched_witness :
  ∃ s mm,
    @send toy "A" toy_times (λ _, false) header_ab [] None (Some sig_a) idle_connection =
      (idle_connection, [s ++ mm], None) ∧
    (@recv toy 1700000001 {["chanB"]} (s ++ mm) idle_connection seen_messages_init).1.2
      = [CallAck "A" sig_a].
Proof.
  assert (Henc : ∃ s mm,
            @encode toy "A" 0 (toy_times 0) header_ab [] (Some sig_a) 255 = Ok (s, mm))
    by (eexists _, _; vm_compute; reflexivity).
  destruct Henc as (s & mm & Henc). exists s, mm.
  destruct (@ack_frame_dispatched toy toy_sign_length toy_verify_sign "A"
              toy_times (λ _, false) route_a route_b None sig_a idle_connection
              s mm 1700000001 {["chanB"]} idle_connection seen_messages_init)
    as (Hsend & Hrecv).
  - vm_compute. reflexivity.
  - reflexivity.
  - apply elem_of_singleton. reflexivity.
  - reflexivity.
  - exact Henc.
  - apply check_no_repeat_fresh. vm_compute. split; discriminate.
  - split; [exact Hsend|]. by rewrite Hrecv.
Defined.

Lemma recv_ignores_unhosted_channel_witness :
  ∃ s mm,
    @encode toy "A" 0 1700000000 header_ab [x0a; x0b] None 0 = Ok (s, mm) ∧
    (@recv toy 1700000001 {["chanC"]} (s ++ mm) idle_connection seen_messages_init).1.2
      = [] ∧
    (@recv toy 1700000001 {["chanC"]} (s ++ mm) idle_connection seen_messages_init).2
      = None.
Proof.
  assert (Henc : ∃ s mm,
            @encode toy "A" 0 1700000000 header_ab [x0a; x0b] None 0 = Ok (s, mm))
    by (eexists _, _; vm_compute; reflexivity).
  destruct Henc as (s & mm & Henc). exists s, mm. split; [exact Henc|].
  apply (@recv_ignores_unhosted_channel toy toy_sign_length toy_verify_sign "A" 0
           1700000000 route_a route_b [x0a; x0b] None 0 s mm 1700000001 {["chanC"]}
           idle_connection seen_messages_init).
  - vm_compute. reflexivity.
  - reflexivity.
  - rewrite elem_of_singleton. discriminate.
  - exact Henc.
Defined.

Lemma ack_handshake_clears_entry_witness :
  ∃ s0 mm0 s1 mm1,
    @encode toy "A" 0 1700000000 header_ab [x0a; x0b] None 0 = Ok (s0, mm0) ∧
    @encode toy "B" 0 1700000001 header_ba [] (Some s0) 255 = Ok (s1, mm1) ∧
    let c1 := register s0 header_ab None idle_connection in
    (@recv toy 1700000002 {["chanA"]} (s1 ++ mm1) c1 seen_messages_init).1.2
      = [CallAck "B" s0] ∧
    (ack "B" s0 c1).2 = None ∧
    awaiting_ack (ack "B" s0 c1).1 = [].
Proof.
  assert (Henc : ∃ s0 mm0 s1 mm1,
            @encode toy "A" 0 1700000000 header_ab [x0a; x0b] None 0 = Ok (s0, mm0) ∧
            @encode toy "B" 0 1700000001 header_ba [] (Some s0) 255 = Ok (s1, mm1))
    by (eexists _, _, _, _; split; [vm_compute; reflexivity|]; vm_compute; reflexivity).
  destruct Henc as (s0 & mm0 & s1 & mm1 & Henc0 & Henc1). exists s0, mm0, s1, mm1.
  split; [exact Henc0|]. split; [exact Henc1|].
  destruct (@ack_handshake_clears_entry toy toy_sign_length toy_verify_sign "A" "B"
              route_a route_b [x0a; x0b] None idle_connection idle_connection
              1700000000 1700000001 1700000001 1700000002 {["chanA"]} {["chanB"]}
              seen_messages_init seen_messages_init s0 mm0 s1 mm1)
    as (_ & Hrecv & Hack & Hq & _).
  - vm_compute. reflexivity.
  - vm_compute. reflexivity.
  - reflexivity.
  - reflexivity.
  - apply elem_of_singleton. reflexivity.
  - apply elem_of_singleton. reflexivity.
  - exact Henc0.
  - exact Henc1.
  - apply check_no_repeat_fresh. vm_compute. split; discriminate.
  - apply check_no_repeat_fresh. vm_compute. split; discriminate.
  - cbn zeta. split; [exact Hrecv|]. split; [exact Hack|]. exact Hq.
Defined.

Lemma send_exhausts_retries_witness :
  (∃ f0 f1 f2,
     (@send_paced toy "A" toy_times (λ _, false) (λ _, false) header_ab [x0a; x0b] None None
        idle_connection).1.2 = [f0; f1; f2] ∧
     (@send_paced toy "A" toy_times (λ _, false) (λ _, false) header_ab [x0a; x0b] None None
        idle_connection).2 = Raised (Exception "Max send retries reached")) ∧
  (∃ f0,
     (@send_paced toy "A" toy_times (λ _, false) (λ _, false) header_ab [x0a; x0b] None None
        conn_3).1.2 = [f0] ∧
     (@send_paced toy "A" toy_times (λ _, false) (λ _, false) header_ab [x0a; x0b] None None
        conn_3).2 = Suspended).
Proof.
  assert (Henc : ∃ s0 mm0 s1 mm1 s2 mm2,
            @encode toy "A" 0 (toy_times 0) header_ab [x0a; x0b] None 0 = Ok (s0, mm0) ∧
            @encode toy "A" 0 (toy_times 1) header_ab [x0a; x0b] (Some s0) 0
              = Ok (s1, mm1) ∧
            @encode toy "A" 0 (toy_times 2) header_ab [x0a; x0b] (Some s0) 1
              = Ok (s2, mm2))
    by (eexists _, _, _, _, _, _; split; [vm_compute; reflexivity|];
        split; [vm_compute; reflexivity|]; vm_compute; reflexivity).
  destruct Henc as (s0 & mm0 & s1 & mm1 & s2 & mm2 & Henc0 & Henc1 & Henc2).
  split.
  - exists (s0 ++ mm0), (s1 ++ mm1), (s2 ++ mm2).
    apply (@send_exhausts_retries toy "A" toy_times (λ _, false) header_ab [x0a; x0b]
             None idle_connection s0 mm0 s1 mm1 s2 mm2);
      [reflexivity | exact Henc0 | exact Henc1 | exact Henc2 | by left].
  - exists (s0 ++ mm0).
    apply (@send_exhausts_retries toy "A" toy_times (λ _, false) header_ab [x0a; x0b]
             None conn_3 s0 mm0 s1 mm1 s2 mm2);
      [reflexivity | exact Henc0 | exact Henc1 | exact Henc2 | discriminate
      | reflexivity].
Defined.

Lemma register_appends_witness :
  let c' := register sig_a header_ab None conn_3 in
  awaiting_ack c' =
    awaiting_ack conn_3
    ++ [(sig_a, {| entry_header := header_ab; entry_bundle_id := None;
                   entry_lock := 3%nat |})] ∧
  events c' !! 3%nat = Some false.
Proof.
  destruct (register_appends sig_a header_ab None conn_3) as (Hq & _ & Hl & _).
  - reflexivity.
  - cbn zeta. split; [exact Hq | exact Hl].
Defined.

Lemma accepted_chain_ignores_suffix_witness :
  @validate_token_chain toy channel_a session_a "C" ["AB"; "BC"] = true ∧
  @validate_token_chain toy channel_a session_a "C" (["AB"; "BC"] ++ ["CD1"; "junk"])
    = true.
Proof.
  assert (Hpre : @validate_token_chain toy channel_a session_a "C" ["AB"; "BC"] = true)
    by (vm_compute; reflexivity).
  split; [exact Hpre|].
  exact (@accepted_chain_ignores_suffix toy channel_a session_a "C" ["AB"; "BC"]
           ["CD1"; "junk"] Hpre).
Defined.

Lemma validation_monotone_in_registry_witness :
  let session :=
    {| session_key := "A";
       issued_tokens :=
         {[ sig_n x10 :=
              (toy_token "A" "B" (AChannel "chanA") root None (sig_n x10), None) ]};
       seen_messages := seen_messages_init |} in
  @validate_token_chain toy channel_a session "C" ["AB"; "BC"] = true ∧
  @validate_token_chain toy channel_a session_a "C" ["AB"; "BC"] = true.
Proof.
  intros session.
  assert (Hsmall : @validate_token_chain toy channel_a session "C" ["AB"; "BC"] = true)
    by (vm_compute; reflexivity).
  split; [exact Hsmall|].
  apply (@validation_monotone_in_registry toy channel_a session session_a "C"
           ["AB"; "BC"]).
  - reflexivity.
  - intros sig [x Hx]. subst session. cbn [issued_tokens] in Hx.
    apply lookup_singleton_Some in Hx as [<- _].
    vm_compute. eauto.
  - exact Hsmall.
Defined.

Lemma accepted_chain_shape_witness :
  (∃ token_string rest t,
     ["AB"; "BC"] = token_string :: rest ∧
     toy_decode token_string = Some t ∧
     Token.asset t = AChannel "chanA" ∧
     Token.issuer t = "A" ∧
     is_Some (toy_issued !! Token.signature t)) ∧
  (∃ token_string t,
     token_string ∈ ["AB"; "BC"] ∧ toy_decode token_string = Some t ∧
     Token.receiver t = "C").
Proof.
  apply (@accepted_chain_shape toy channel_a session_a "C" ["AB"; "BC"]).
  - reflexivity.
  - discriminate.
  - vm_compute. reflexivity.
Defined.

Lemma max_depth_enforced_witness :
  @validate_token_chain toy channel_a session_a "E" ["AB1"; "BC1"; "CD1"] = false ∧
  @validate_token_chain toy channel_a session_a "E"
    (["AB1"; "BC1"; "CD1"] ++ ["DE"]) = false.
Proof.
  assert (Hpre : @validate_token_chain toy channel_a session_a "E"
                   ["AB1"; "BC1"; "CD1"] = false) by (vm_compute; reflexivity).
  split; [exact Hpre|].
  apply (@max_depth_enforced toy channel_a session_a "E" ["AB1"; "BC1"; "CD1"] ["DE"]
           0%nat "AB1" (toy_token "A" "B" (AChannel "chanA") root (Some 1%nat) (sig_n x30))
           1%nat).
  - reflexivity.
  - discriminate.
  - reflexivity.
  - reflexivity.
  - reflexivity.
  - lia.
  - cbn. lia.
  - exact Hpre.
Defined.

Lemma issue_then_revoke_witness :
  let issued :=
    @issue_token toy_codec ["broker0"] (TargetChannel "chanA") "B" None
      (new_session "A") in
  issued.2 = HTokenIssue "AB" None ∧
  @validate_token_chain toy channel_a issued.1 "B" ["AB"; "BC"] = true ∧
  ∃ revoked,
    revoke_token (sig_n x10) issued.1 = Ok (revoked, HTokenRevoke (sig_n x10)) ∧
    @validate_token_chain toy channel_a revoked "B" ["AB"; "BC"] = false.
Proof.
  destruct (@issue_then_revoke toy toy_codec channel_a (new_session "A") ["broker0"]
              "B" None ["BC"]) as (Hh & Hv & revoked & Hr & _ & Hrej).
  - reflexivity.
  - cbn zeta. split; [exact Hh|]. split; [exact Hv|].
    exists revoked. split; [exact Hr|]. apply Hrej; [reflexivity | discriminate].
Defined.

Lemma extend_route_keeps_first_addressed_witness :
  @extend_route toy toy_codec ["broker0"]
    (Route.mk ["broker0"] "A" "chanA" ["AB"; "BC"; "CD1"]) "X" None (new_session "B") =
    ({| session_key := "B";
        issued_tokens :=
          {[ sig_n x11 :=
               (Token.mk "B" ["broker0"] "X" (ASignature (sig_n x10)) extension None
                  (sig_n x11),
                Some (toy_token "A" "B" (AChannel "chanA") root None (sig_n x10))) ]};
        seen_messages := seen_messages_init |},
     Route.mk ["broker0"] "A" "chanA" ["AB"; "BC"],
     Ok (HTokenIssue "BC" (Some "AB"))).
Proof.
  exact (@extend_route_keeps_first_addressed toy toy_codec ["broker0"]
           (Route.mk ["broker0"] "A" "chanA" ["AB"; "BC"; "CD1"]) "X" None
           (new_session "B") ["AB"] "AB"
           (toy_token "A" "B" (AChannel "chanA") root None (sig_n x10))
           ltac:(discriminate)
           ltac:(repeat constructor; vm_compute; eauto)
           ltac:(vm_compute; reflexivity)
           ltac:(reflexivity)
           ltac:(reflexivity)).
Defined.

Lemma extend_route_failures_witness :
  @extend_route toy toy_codec ["broker0"] route_a "C" None (new_session "B")
    = (new_session "B", route_a, Raise IndexError) ∧
  (@extend_route toy toy_codec ["broker0"]
     (Route.mk ["broker0"] "A" "chanA" ["AB"; "junk"]) "C" None (new_session "B")).2
    = Raise InvalidSignature.
Proof.
  split.
  - apply (@extend_route_failures toy toy_codec ["broker0"] route_a "C" None
             (new_session "B")); [discriminate | reflexivity].
  - apply (@extend_route_failures toy toy_codec ["broker0"]
             (Route.mk ["broker0"] "A" "chanA" ["AB"; "junk"]) "C" None
             (new_session "B")); [discriminate|].
    apply Exists_cons_tl, Exists_cons_hd. reflexivity.
Defined.

Lemma two_hop_delegation_accepted_witness :
  let first := @extend_route toy toy_codec ["broker0"] route_a "B" None (new_session "A") in
  let second :=
    @extend_route toy toy_codec ["broker0"] first.1.2 "C" None (new_session "B") in
  Route.tokens second.1.2 = ["AB"; "BC"] ∧
  @validate_token_chain toy channel_a first.1.1 "C" ["AB"; "BC"] = true ∧
  @validate_token_chain toy channel_a first.1.1 "B" ["AB"; "BC"] = true.
Proof.
  destruct (@two_hop_delegation_accepted toy toy_codec channel_a (new_session "A")
              (new_session "B") ["broker0"] ["broker0"] route_a "C" None None)
    as (_ & Htok & _ & Hc & Hb).
  - reflexivity.
  - reflexivity.
  - discriminate.
  - reflexivity.
  - reflexivity.
  - reflexivity.
  - cbn zeta. split; [exact Htok|]. rewrite Htok in Hc, Hb.
    split; [exact Hc | exact Hb].
Defined.

Lemma send_pipeline_delivers_witness :
  let frames :=
    (@send_frames toy 4 1 "chanB" "chanA" toy_urandom 2 2 [x68; x65; x6c; x6f] mid_0).1 in
  let r := @feed toy session_a route_b route_a_ab (rev frames) channel_a in
  length frames = 3%nat ∧
  r.2 = None ∧
  messages r.1 = [(route_b, [x68; x65; x6c; x6f])] ∧
  lock r.1 = true ∧
  (@send_frames toy 3 1 "chanB" "chanA" toy_urandom 2 2 [x68; x65; x6c; x6f] mid_0).2
    = Some RecursionError ∧
  length (@send_frames toy 3 1 "chanB" "chanA" toy_urandom 2 2 [x68; x65; x6c; x6f]
            mid_0).1 = 2%nat.
Proof.
  intros frames r.
  destruct (@send_pipeline_delivers toy toy_decrypt_encrypt 4 1 "chanB" "chanA" toy_urandom
              2 2 [x68; x65; x6c; x6f] mid_0 [x68; x65; x6c; x6f] session_a route_b
              route_a_ab channel_a) as [Hgood _];
    [reflexivity | reflexivity | lia | reflexivity | apply toy_urandom_length
     | vm_compute; reflexivity | vm_compute; reflexivity | reflexivity | reflexivity
     | reflexivity |].
  destruct (@send_pipeline_delivers toy toy_decrypt_encrypt 3 1 "chanB" "chanA" toy_urandom
              2 2 [x68; x65; x6c; x6f] mid_0 [x68; x65; x6c; x6f] session_a route_b
              route_a_ab channel_a) as [_ Hshort];
    [reflexivity | reflexivity | lia | reflexivity | apply toy_urandom_length
     | vm_compute; reflexivity | vm_compute; reflexivity | reflexivity | reflexivity
     | reflexivity |].
  destruct Hgood as (_ & Hlen & Hfeed);
    [vm_compute; reflexivity | vm_compute; discriminate |].
  destruct Hshort as [Hend Hcount].
  { intros [Hroom _]. revert Hroom. vm_compute. discriminate. }
  split; [vm_compute; reflexivity|].
  subst r. rewrite (Hfeed (rev frames)) by (symmetry; apply Permutation_rev).
  cbn [fst snd messages lock].
  split; [done|]. split; [done|]. split; [done|]. split; [exact Hend|].
  apply Nat2Z.inj. rewrite Hcount. vm_compute. reflexivity.
Defined.

Lemma chunking_reassembles_witness :
  (∃ f0 f1 f2,
     @encrypt_slice_in toy 4 1 "chanB" "chanA" toy_urandom small_payload 2 mid_0 3 0
       = ([f0; f1; f2], None) ∧
     @feed toy session_a route_b route_a_ab [f2; f0; f1] channel_a
       = @deliver toy route_b small_payload channel_a ∧
     @encrypt_slice_in toy 3 1 "chanB" "chanA" toy_urandom small_payload 2 mid_0 3 0
       = ([f0; f1], Some RecursionError)) ∧
  (@encrypt_slice_in toy 1 1 "chanB" "chanA" toy_urandom big_payload 1 mid_0 (2 ^ 16) 0).1
    = [].
Proof.
  destruct (@chunking_reassembles toy toy_decrypt_encrypt 4 1 "chanB" "chanA" toy_urandom
              small_payload 2 mid_0) as (Hgood & _ & _);
    [lia | reflexivity | apply toy_urandom_length |].
  destruct (@chunking_reassembles toy toy_decrypt_encrypt 3 1 "chanB" "chanA" toy_urandom
              small_payload 2 mid_0) as (_ & Hshort & _);
    [lia | reflexivity | apply toy_urandom_length |].
  destruct (@chunking_reassembles toy toy_decrypt_encrypt 1 1 "chanB" "chanA" toy_urandom
              big_payload 1 mid_0) as (_ & _ & Hmany);
    [lia | reflexivity | apply toy_urandom_length |].
  change (@chunk_count 2 small_payload) with 3 in Hgood, Hshort.
  destruct Hgood as (Hend & _ & Hfeed); [lia | lia | lia |].
  destruct Hshort as (Hrec & _ & Hprefix); [lia | lia |].
  split.
  - assert (Hframes : ∃ f0 f1 f2,
              (@encrypt_slice_in toy 4 1 "chanB" "chanA" toy_urandom small_payload 2 mid_0
                 3 0).1 = [f0; f1; f2])
      by (vm_compute; eexists _, _, _; reflexivity).
    destruct Hframes as (f0 & f1 & f2 & Hframes).
    exists f0, f1, f2.
    assert (Hrun : @encrypt_slice_in toy 4 1 "chanB" "chanA" toy_urandom small_payload 2
                     mid_0 3 0 = ([f0; f1; f2], None)).
    { rewrite <- Hframes, <- Hend.
      by destruct (@encrypt_slice_in toy _ _ _ _ _ _ _ _ _ _). }
    split; [exact Hrun|]. split.
    + destruct (Hfeed session_a route_b route_a_ab [f2; f0; f1] channel_a) as [Hf _].
      * vm_compute. reflexivity.
      * reflexivity.
      * reflexivity.
      * reflexivity.
      * rewrite Hframes. exact (Permutation_app_comm [f2] [f0; f1]).
      * exact Hf.
    + specialize (Hprefix 4%nat ltac:(lia) ltac:(lia)). rewrite Hframes in Hprefix.
      cbn [take Nat.sub] in Hprefix. rewrite <- Hprefix, <- Hrec.
      by destruct (@encrypt_slice_in toy _ _ _ _ _ _ _ _ _ _).
  - assert (Hcount : @chunk_count 1 big_payload = 2 ^ 16) by (vm_compute; reflexivity).
    rewrite Hcount in Hmany. by destruct Hmany as [-> _]; [lia|].
Defined.

Lemma duplicate_fragment_ignored_witness :
  let frame := @fragment_frame toy "chanB" "chanA" toy_urandom small_payload 2 mid_0 3 1 in
  let first := @handle_message toy session_a route_b route_a_ab frame channel_a in
  first.2 = None ∧
  @handle_message toy session_a route_b route_a_ab frame first.1 = (first.1, None).
Proof.
  apply (@duplicate_fragment_ignored toy toy_decrypt_encrypt session_a route_b route_a_ab
           "chanB" "chanA" toy_urandom small_payload 2 mid_0 3 1 channel_a).
  - vm_compute. reflexivity.
  - reflexivity.
  - reflexivity.
  - apply toy_urandom_length.
  - reflexivity.
  - lia.
  - lia.
  - vm_compute. eauto.
Defined.

Lemma no_partial_delivery_witness :
  let r := @feed toy session_a route_b route_a_ab
             (@fragment_frame toy "chanB" "chanA" toy_urandom small_payload 2 mid_0 3
                <$> [2; 0]) channel_a in
  r.2 = None ∧ messages r.1 = [] ∧ lock r.1 = false.
Proof.
  destruct (@no_partial_delivery toy toy_decrypt_encrypt session_a route_b route_a_ab
              "chanB" "chanA" toy_urandom small_payload 2 mid_0 3 [2; 0] channel_a)
    as (He & Hm & Hl & _).
  - vm_compute. reflexivity.
  - reflexivity.
  - reflexivity.
  - apply toy_urandom_length.
  - reflexivity.
  - lia.
  - reflexivity.
  - apply NoDup_cons. split; [set_solver | apply NoDup_singleton].
  - intros i Hi. set_unfold. lia.
  - cbn. lia.
  - cbn zeta. split; [exact He|]. split; [exact Hm | exact Hl].
Defined.

Lemma unknown_encoding_refused_witness :
  ∃ msg,
    @handle_message toy session_a route_b route_a_ab
      (@single_frame toy "chanB" "chanA" toy_urandom [x01; x68; x69]) channel_a
    = (channel_a, Some (Exception msg)).
Proof.
  apply (@unknown_encoding_refused toy toy_decrypt_encrypt session_a route_b route_a_ab
           "chanB" "chanA" toy_urandom x01 [x68; x69] channel_a).
  - vm_compute. reflexivity.
  - reflexivity.
  - reflexivity.
  - apply toy_urandom_length.
  - discriminate.
  - discriminate.
Defined.

Lemma inbox_first_in_first_out_witness :
  let arrived :=
    @feed toy session_a route_b route_a_ab
      (@single_frame toy "chanB" "chanA" toy_urandom <$> [[x00; x01]; [xff; x78; x02]])
      channel_a in
  (@drain toy 2 arrived.1).1 = [(route_b, [x01]); (route_b, [x02])] ∧
  messages (@drain toy 2 arrived.1).2 = [].
Proof.
  destruct (@inbox_first_in_first_out toy session_a route_b route_a_ab "chanB" "chanA"
              toy_urandom [[x00; x01]; [xff; x78; x02]] [[x01]; [x02]] channel_a)
    as (_ & Hd & Hm & _).
  - apply toy_decrypt_encrypt.
  - repeat constructor.
  - apply toy_urandom_length.
  - vm_compute. reflexivity.
  - reflexivity.
  - reflexivity.
  - cbn zeta. split; [exact Hd | exact Hm].
Defined.

Lemma chunk_count_least_witness :
  (3 - 1) * 2 < Z.of_nat (length small_payload) ≤ 3 * 2 ∧
  concat (fragment_piece small_payload 2 <$> seqZ 0 3) = small_payload.
Proof.
  destruct (chunk_count_least 2 small_payload) as (Hb & _ & Hc).
  - lia.
  - discriminate.
  - split; [exact Hb | exact Hc].
Defined.

Lemma second_retransmission_witness :
  let sent :=
    @send toy "A" toy_times (λ _, false) header_ab [x0a; x0b] None None idle_connection in
  ∃ f0 f1 f2,
    sent.1.2 = [f0; f1; f2] ∧
    (@recv toy 1700000003 {["chanB"]} f2 idle_connection seen_messages_init).1.2 =
      [Reply [HSend route_b route_a] (take 64 f0) route_a route_b [x0a; x0b]].
Proof.
  set (sent := @send toy "A" toy_times (λ _, false) header_ab [x0a; x0b] None None
                 idle_connection).
  assert (Hsent : ∃ f0 f1 f2, sent = (sent.1.1, [f0; f1; f2], sent.2))
    by (vm_compute; eexists _, _, _; reflexivity).
  destruct Hsent as (f0 & f1 & f2 & Hsent).
  exists f0, f1, f2. split; [by rewrite Hsent|].
  rewrite (@second_retransmission_acked_by_original toy toy_sign_length toy_verify_sign
             "A" route_a route_b [x0a; x0b] None toy_times idle_connection
             sent.1.1 f0 f1 f2 sent.2 1700000003 {["chanB"]} idle_connection
             seen_messages_init).
  - reflexivity.
  - vm_compute. reflexivity.
  - reflexivity.
  - apply elem_of_singleton. reflexivity.
  - exact Hsent.
  - apply check_no_repeat_fresh. vm_compute. split; discriminate.
Defined.
